(** * Controller event handlers of cherami-server

    A shallow embedding of [services/controllerhost/event_handlers.go]:
    the handlers of the controller's event pipeline (extent created,
    host failed, extent down, remote-zone extent created), the result
    cache refresh trigger and the helpers they share, followed by the
    properties of the handlers.

    The handlers talk to collaborators that live outside this file of
    the controller (metadata gateway, host directory, client factory,
    store hosts, rate limiter).  Their answers are the fields of [Env];
    every call is also appended to a trace, so that "which calls were
    issued, and in which order" is an observable of a handler run.
    What the handlers mutate (event queue, tracking sets, result cache)
    is the record [Ctx], threaded through a small state monad.
    Logging and metrics do not influence control flow and are left out. *)

From Stdlib Require Import ZArith Lia.
From stdpp Require Import gmap strings list fin_maps.

Local Open Scope Z_scope.

(** ** Machine integers *)

(** Go's [int32] and [int64] arithmetic wraps around. *)
Definition wrap (w : Z) (z : Z) : Z := (z + 2 ^ (w - 1)) mod 2 ^ w - 2 ^ (w - 1).
Definition int32_add (a b : Z) : Z := wrap 32 (a + b).
Definition int64_add (a b : Z) : Z := wrap 64 (a + b).
Definition int64_max : Z := 2 ^ 63 - 1.
Definition int64_min : Z := - 2 ^ 63.

(** [time.Duration] counts nanoseconds. *)
Definition Millisecond : Z := 1000000.
Definition Second : Z := 1000 * Millisecond.
Definition Minute : Z := 60 * Second.

(** ** Errors *)

(** The values of Go's [error] the handlers tell apart: the sentinel
    [errRetryable], metadata's [IllegalStateError], anything else. *)
Inductive error : Type :=
| errRetryable
| IllegalStateError (message : string)
| otherError (message : string).

(** The type assertion of [err] to metadata's [IllegalStateError]. *)
Definition isIllegalStateError (e : error) : bool :=
  match e with IllegalStateError _ => true | _ => false end.

(** ** Thrift records read by the handlers *)

Inductive ExtentStatus : Type :=
| ExtentStatus_OPEN | ExtentStatus_SEALED | ExtentStatus_CONSUMED
| ExtentStatus_ARCHIVED | ExtentStatus_DELETED.

Definition ExtentStatus_eqb (a b : ExtentStatus) : bool :=
  match a, b with
  | ExtentStatus_OPEN, ExtentStatus_OPEN
  | ExtentStatus_SEALED, ExtentStatus_SEALED
  | ExtentStatus_CONSUMED, ExtentStatus_CONSUMED
  | ExtentStatus_ARCHIVED, ExtentStatus_ARCHIVED
  | ExtentStatus_DELETED, ExtentStatus_DELETED => true
  | _, _ => false
  end.

Inductive ConsumerGroupStatus : Type :=
| ConsumerGroupStatus_ENABLED | ConsumerGroupStatus_DISABLED | ConsumerGroupStatus_DELETED.

Definition ConsumerGroupStatus_eqb (a b : ConsumerGroupStatus) : bool :=
  match a, b with
  | ConsumerGroupStatus_ENABLED, ConsumerGroupStatus_ENABLED
  | ConsumerGroupStatus_DISABLED, ConsumerGroupStatus_DISABLED
  | ConsumerGroupStatus_DELETED, ConsumerGroupStatus_DELETED => true
  | _, _ => false
  end.

Inductive ConsumerGroupExtentStatus : Type :=
| ConsumerGroupExtentStatus_OPEN | ConsumerGroupExtentStatus_CONSUMED
| ConsumerGroupExtentStatus_DELETED.

Inductive NotificationType : Type :=
| NotificationType_HOST | NotificationType_CLIENT | NotificationType_ALL.

(** [shared.Extent], the fields the getters of this file read. *)
Record Extent : Type := mkExtent {
  ExtentUUID : string;
  DestinationUUID : string;
  StoreUUIDs : list string;
  InputHostUUID : string;
  OriginZone : string
}.

Record ExtentStats : Type := mkExtentStats {
  GetExtent : Extent;
  GetStatus : ExtentStatus
}.

Record ConsumerGroupExtent : Type := mkConsumerGroupExtent {
  cge_ExtentUUID : string;
  GetOutputHostUUID : string
}.

Record ConsumerGroupDescription : Type := mkConsumerGroupDescription {
  GetConsumerGroupUUID : string;
  cgd_GetStatus : ConsumerGroupStatus
}.

(** [store.SealExtentRequest]: the sequence number is optional. *)
Record SealExtentRequest : Type := mkSealExtentRequest {
  seal_ExtentUUID : string;
  seal_SequenceNumber : option Z
}.

Record RemoteReplicateExtentRequest : Type := mkRemoteReplicateExtentRequest {
  rrep_DestinationUUID : string;
  rrep_ExtentUUID : string
}.

Record ReplicateExtentRequest : Type := mkReplicateExtentRequest {
  rep_DestinationUUID : string;
  rep_ExtentUUID : string;
  rep_StoreUUID : string
}.

(** What [createRetryPolicy] passes to the backoff library. *)
Record RetryPolicy : Type := mkRetryPolicy {
  initialInterval : Z;
  maximumInterval : Z;
  expirationInterval : Z;
  maximumAttempts : Z
}.

(** A store client as vended by the client factory for (address, uuid). *)
Record StoreClient : Type := mkStoreClient {
  client_addr : string;
  client_uuid : string
}.

(** ** Events *)

Record ExtentCreatedEvent : Type := mkExtentCreatedEvent {
  ece_dstID : string;
  ece_inHostID : string;
  ece_extentID : string;
  ece_storeIDs : list string
}.

Record ConsGroupUpdatedEvent : Type := mkConsGroupUpdatedEvent {
  cgu_dstID : string;
  cgu_consGroupID : string;
  cgu_extentID : string;
  cgu_outputHostID : string
}.

Record InputHostNotificationEvent : Type := mkInputHostNotificationEvent {
  ihn_dstID : string;
  ihn_inputHostID : string;
  ihn_extentID : string;
  ihn_storeIDs : list string;
  ihn_reason : string;
  ihn_reasonContext : string;
  ihn_notificationType : NotificationType
}.

Record OutputHostNotificationEvent : Type := mkOutputHostNotificationEvent {
  ohn_dstID : string;
  ohn_consGroupID : string;
  ohn_outputHostID : string;
  ohn_reason : string;
  ohn_reasonContext : string;
  ohn_notificationType : NotificationType
}.

(** [state] is the handler state kept across retries. *)
Record ExtentDownEvent : Type := mkExtentDownEvent {
  ede_state : Z;
  ede_sealSeq : Z;
  ede_dstID : string;
  ede_extentID : string;
  ede_storeIDs : list string
}.

Record StoreExtentStatusOutOfSyncEvent : Type := mkStoreExtentStatusOutOfSyncEvent {
  oos_dstID : string;
  oos_extentID : string;
  oos_storeID : string;
  oos_desiredStatus : ExtentStatus
}.

Record RemoteZoneExtentCreatedEvent : Type := mkRemoteZoneExtentCreatedEvent {
  rze_dstID : string;
  rze_extentID : string;
  rze_storeIDs : list string
}.

Record InputHostFailedEvent : Type := mkInputHostFailedEvent { ihf_hostUUID : string }.
Record StoreHostFailedEvent : Type := mkStoreHostFailedEvent { shf_hostUUID : string }.

(** The [Event] interface, as the sum of its implementations. *)
Inductive Event : Type :=
| EvExtentCreated (e : ExtentCreatedEvent)
| EvConsGroupUpdated (e : ConsGroupUpdatedEvent)
| EvInputHostNotification (e : InputHostNotificationEvent)
| EvOutputHostNotification (e : OutputHostNotificationEvent)
| EvExtentDown (e : ExtentDownEvent)
| EvStoreExtentStatusOutOfSync (e : StoreExtentStatusOutOfSyncEvent)
| EvRemoteZoneExtentCreated (e : RemoteZoneExtentCreatedEvent)
| EvInputHostFailed (e : InputHostFailedEvent)
| EvStoreHostFailed (e : StoreHostFailedEvent).

(** ExtentDownEvent states ([iota] constants). *)
Definition checkPreconditionState : Z := 0.
Definition sealExtentState : Z := 1.
Definition updateMetadataState : Z := 2.
Definition doneState : Z := 3.

(** How long from now the cache may take to refresh itself. *)
Definition resultCacheRefreshMaxWaitTime : Z := 500 * Millisecond.

Definition sealExtentInitialCallTimeout : Z := 2 * Second.
Definition sealExtentRetryCallTimeout : Z := 20 * Second.
Definition replicateExtentCallTimeout : Z := 20 * Second.

Definition notifyExtentCreated : string := "ExtentCreated".
Definition notifyCGExtUpdated : string := "CGExtUpdated".

Definition StoreServiceName : string := "cherami-storehost".

Definition NewExtentCreatedEvent (dstID inHostID extentID : string) (storeIDs : list string) : Event :=
  EvExtentCreated (mkExtentCreatedEvent dstID inHostID extentID storeIDs).

Definition NewConsGroupUpdatedEvent (dstID consGroupID extentID outputHostID : string) : Event :=
  EvConsGroupUpdated (mkConsGroupUpdatedEvent dstID consGroupID extentID outputHostID).

Definition NewInputHostNotificationEvent (dstID inputHostID extentID : string)
    (storeIDs : list string) (reason reasonContext : string)
    (notificationType : NotificationType) : Event :=
  EvInputHostNotification
    (mkInputHostNotificationEvent dstID inputHostID extentID storeIDs reason
       reasonContext notificationType).

Definition NewOutputHostNotificationEvent (dstID consGroupID outputHostID reason
    reasonContext : string) (notificationType : NotificationType) : Event :=
  EvOutputHostNotification
    (mkOutputHostNotificationEvent dstID consGroupID outputHostID reason
       reasonContext notificationType).

Definition NewRemoteZoneExtentCreatedEvent (dstID extentID : string)
    (storeIDs : list string) : Event :=
  EvRemoteZoneExtentCreated (mkRemoteZoneExtentCreatedEvent dstID extentID storeIDs).

(** [state] and [storeIDs] start as Go zero values. *)
Definition NewExtentDownEvent (sealSeq : Z) (dstID extentID : string) : Event :=
  EvExtentDown (mkExtentDownEvent 0 sealSeq dstID extentID []).

Definition NewInputHostFailedEvent (hostUUID : string) : Event :=
  EvInputHostFailed (mkInputHostFailedEvent hostUUID).

Definition NewStoreHostFailedEvent (hostUUID : string) : Event :=
  EvStoreHostFailed (mkStoreHostFailedEvent hostUUID).

(** ** Result cache *)

Record resultCacheParams : Type := mkResultCacheParams {
  rcp_dstType : Z;
  rcp_nExtents : Z;
  rcp_hostIDs : list string;
  rcp_expiry : Z
}.

(** What [readOutputHosts] hands back: the flags and the entry it found
    ([dstType], [nExtents], [hostIDs], [expiry]). *)
Record resultCacheReadResult : Type := mkResultCacheReadResult {
  cacheHit : bool;
  refreshCache : bool;
  entry_dstType : Z;
  entry_nExtents : Z;
  entry_hostIDs : list string;
  expiry : Z
}.

(** ** Collaborators *)

(** One entry per call a handler issues to a collaborator, with its
    arguments; [Call_Add] also keeps whether the queue took the event. *)
Inductive Call : Type :=
| Call_ListExtentsByDstIDStatus (dstID : string) (filterBy : list ExtentStatus)
| Call_ListExtentsByConsumerGroup (dstID cgID : string)
    (filterBy : list ConsumerGroupExtentStatus)
| Call_ListExtentsByInputIDStatus (hostUUID : string) (status : option ExtentStatus)
| Call_ListExtentsByStoreIDStatus (hostUUID : string) (status : option ExtentStatus)
| Call_ListConsumerGroupsByDstID (dstID : string)
| Call_ReadExtentStats (dstID extentID : string)
| Call_metadata_SealExtent (dstID extentID : string)
| Call_ResolveUUID (service uuid : string)
| Call_GetThriftStoreClient (addr uuid : string)
| Call_ReleaseThriftStoreClient (uuid : string)
| Call_store_SealExtent (client : StoreClient) (req : SealExtentRequest)
    (timeout : Z) (policy : RetryPolicy)
| Call_RemoteReplicateExtent (client : StoreClient)
    (req : RemoteReplicateExtentRequest) (timeout : Z)
| Call_ReplicateExtent (client : StoreClient) (req : ReplicateExtentRequest)
    (timeout : Z)
| Call_TryConsume (count : Z)
| Call_Consume (count : Z) (timeout : Z)
| Call_invalidateStoreExtentCache (storeID extentID : string)
| Call_Add (e : Event) (accepted : bool)
| Call_readOutputHosts (cgID : string) (now : Z)
| Call_resultCache_write (cgID : string) (params : resultCacheParams).

(** The configuration and the answers of the collaborators during one
    handler run.  A Go call returning [(value, err)] whose value is only
    read when [err == nil] answers with a sum; [rangeOrder] is the order
    in which a [range] over a Go map visits its entries. *)
Record Env : Type := mkEnv {
  localZone : string;
  maxFailedExtentSealSetSize : Z;
  queueCapacity : nat;
  IsRemoteZoneExtent : string -> string -> bool;
  rangeOrder : forall A : Type, list A -> list A;
  mm_ListExtentsByDstIDStatus : string -> list ExtentStatus -> list ExtentStats + error;
  mm_ListExtentsByConsumerGroup :
    string -> string -> list ConsumerGroupExtentStatus -> list ConsumerGroupExtent + error;
  mm_ListExtentsByInputIDStatus : string -> option ExtentStatus -> list ExtentStats + error;
  mm_ListExtentsByStoreIDStatus : string -> option ExtentStatus -> list ExtentStats + error;
  mm_ListConsumerGroupsByDstID : string -> list ConsumerGroupDescription * option error;
  mm_ReadExtentStats : string -> string -> ExtentStats + error;
  mm_SealExtent : string -> string -> option error;
  rpm_ResolveUUID : string -> string -> string + error;
  clientFactory_GetThriftStoreClient : string -> string -> option error;
  store_SealExtent : StoreClient -> SealExtentRequest -> Z -> RetryPolicy -> option error;
  store_RemoteReplicateExtent :
    StoreClient -> RemoteReplicateExtentRequest -> Z -> option error;
  store_ReplicateExtent : StoreClient -> ReplicateExtentRequest -> Z -> option error;
  tokenBucket_TryConsume : Z -> bool;
  tokenBucket_Consume : Z -> Z -> bool;
  resultCache_readOutputHosts :
    gmap string resultCacheParams -> string -> Z -> resultCacheReadResult
}.

(** A [range] over a map visits every entry once, in no promised order. *)
Definition range_visits_each_once (env : Env) : Prop :=
  forall (A : Type) (l : list A), rangeOrder env A l ≡ₚ l.

(** What a handler can change: the event queue (oldest first), the two
    tracking sets of [extentSeals], the result cache; [clock] is the
    reading of [time.Now().UnixNano()] during the run and [trace] the
    calls issued so far, oldest first. *)
Record Ctx : Type := mkCtx {
  pipeline : list Event;
  failed : gset string;
  inProgress : gset string;
  resultCache : gmap string resultCacheParams;
  clock : Z;
  trace : list Call
}.

Definition with_pipeline (q : list Event) (c : Ctx) : Ctx :=
  mkCtx q (failed c) (inProgress c) (resultCache c) (clock c) (trace c).
Definition with_failed (s : gset string) (c : Ctx) : Ctx :=
  mkCtx (pipeline c) s (inProgress c) (resultCache c) (clock c) (trace c).
Definition with_inProgress (s : gset string) (c : Ctx) : Ctx :=
  mkCtx (pipeline c) (failed c) s (resultCache c) (clock c) (trace c).
Definition with_resultCache (m : gmap string resultCacheParams) (c : Ctx) : Ctx :=
  mkCtx (pipeline c) (failed c) (inProgress c) m (clock c) (trace c).
Definition with_trace (t : list Call) (c : Ctx) : Ctx :=
  mkCtx (pipeline c) (failed c) (inProgress c) (resultCache c) (clock c) t.

(** ** The handler monad *)

Definition M (A : Type) : Type := Ctx -> A * Ctx.

Definition ret {A : Type} (a : A) : M A := fun c => (a, c).

Definition bind {A B : Type} (m : M A) (k : A -> M B) : M B :=
  fun c => let (a, c') := m c in k a c'.

Notation "'let*' x ':=' m 'in' k" := (bind m (fun x => k))
  (at level 10, x name, m at level 100, k at level 200, only parsing).

(** Append a call to the trace. *)
Definition emit (call : Call) : M unit :=
  fun c => (tt, with_trace (trace c ++ [call]) c).

(** [for _, x := range xs { body }] over a slice. *)
Fixpoint forEach {A : Type} (body : A -> M unit) (xs : list A) : M unit :=
  match xs with
  | [] => ret tt
  | x :: rest => let* _ := body x in forEach body rest
  end.

(** The same loop carrying an accumulator. *)
Fixpoint foldEach {A S : Type} (body : S -> A -> M S) (s : S) (xs : list A) : M S :=
  match xs with
  | [] => ret s
  | x :: rest => let* s' := body s x in foldEach body s' rest
  end.

(** The outcome of a Go function that may panic. *)
Inductive Outcome (A : Type) : Type :=
| Returns (a : A)
| Panics (reason : string).
Arguments Returns {A} a.
Arguments Panics {A} reason.

Section Handlers.

Variable env : Env.

(** ** Calls to the collaborators *)

Definition call {A : Type} (c : Call) (answer : A) : M A :=
  let* _ := emit c in ret answer.

Definition ListExtentsByDstIDStatus (dstID : string) (filterBy : list ExtentStatus) :=
  call (Call_ListExtentsByDstIDStatus dstID filterBy)
       (mm_ListExtentsByDstIDStatus env dstID filterBy).

Definition ListExtentsByConsumerGroup (dstID cgID : string)
    (filterBy : list ConsumerGroupExtentStatus) :=
  call (Call_ListExtentsByConsumerGroup dstID cgID filterBy)
       (mm_ListExtentsByConsumerGroup env dstID cgID filterBy).

Definition ListExtentsByInputIDStatus (hostUUID : string) (status : option ExtentStatus) :=
  call (Call_ListExtentsByInputIDStatus hostUUID status)
       (mm_ListExtentsByInputIDStatus env hostUUID status).

Definition ListExtentsByStoreIDStatus (hostUUID : string) (status : option ExtentStatus) :=
  call (Call_ListExtentsByStoreIDStatus hostUUID status)
       (mm_ListExtentsByStoreIDStatus env hostUUID status).

Definition ListConsumerGroupsByDstID (dstID : string) :=
  call (Call_ListConsumerGroupsByDstID dstID) (mm_ListConsumerGroupsByDstID env dstID).

Definition ReadExtentStats (dstID extentID : string) :=
  call (Call_ReadExtentStats dstID extentID) (mm_ReadExtentStats env dstID extentID).

Definition metadata_SealExtent (dstID extentID : string) :=
  call (Call_metadata_SealExtent dstID extentID) (mm_SealExtent env dstID extentID).

Definition ResolveUUID (service uuid : string) :=
  call (Call_ResolveUUID service uuid) (rpm_ResolveUUID env service uuid).

Definition GetThriftStoreClient (addr uuid : string) : M (StoreClient + error) :=
  call (Call_GetThriftStoreClient addr uuid)
       (match clientFactory_GetThriftStoreClient env addr uuid with
        | Some err => inr err
        | None => inl (mkStoreClient addr uuid)
        end).

Definition ReleaseThriftStoreClient (uuid : string) : M unit :=
  emit (Call_ReleaseThriftStoreClient uuid).

Definition TryConsume (count : Z) :=
  call (Call_TryConsume count) (tokenBucket_TryConsume env count).

Definition Consume (count timeout : Z) :=
  call (Call_Consume count timeout) (tokenBucket_Consume env count timeout).

Definition invalidateStoreExtentCache (storeID extentID : string) : M unit :=
  emit (Call_invalidateStoreExtentCache storeID extentID).

Definition time_Now : M Z := fun c => (clock c, c).

Definition readOutputHosts (cgID : string) (now : Z) : M resultCacheReadResult :=
  fun c =>
    call (Call_readOutputHosts cgID now)
         (resultCache_readOutputHosts env (resultCache c) cgID now) c.

Definition resultCache_write (cgID : string) (params : resultCacheParams) : M unit :=
  fun c =>
    emit (Call_resultCache_write cgID params)
         (with_resultCache (<[cgID := params]> (resultCache c)) c).

(** Modelled from the spec: [eventPipeline.Add], whose code is not in
    this file.  The event queue is bounded and [Add] is a non-blocking
    offer that returns false when the queue is full. *)
Definition Add (e : Event) : M bool :=
  fun c =>
    if (length (pipeline c) <? queueCapacity env)%nat
    then call (Call_Add e true) true (with_pipeline (pipeline c ++ [e]) c)
    else call (Call_Add e false) false c.

(** Modelled from the spec: the tracking sets [extentSeals.failed] and
    [extentSeals.inProgress], whose code is not in this file, are sets
    of extent ids with [Size], [Put] and [Remove]. *)
Definition failed_Size : M Z := fun c => (Z.of_nat (size (failed c)), c).
Definition failed_Put (extentID : string) : M unit :=
  fun c => (tt, with_failed ({[extentID]} ∪ failed c) c).
Definition failed_Remove (extentID : string) : M unit :=
  fun c => (tt, with_failed (failed c ∖ {[extentID]}) c).
Definition inProgress_Remove (extentID : string) : M unit :=
  fun c => (tt, with_inProgress (inProgress c ∖ {[extentID]}) c).

(** [for k, v := range m] over a Go map. *)
Definition rangeMap {V : Type} (m : gmap string V) : list (string * V) :=
  rangeOrder env (string * V) (map_to_list m).

(** ** Retry policies *)

Definition createRetryPolicy (initial max expiry maxAttempts : Z) : RetryPolicy :=
  mkRetryPolicy initial max expiry maxAttempts.

Definition sealExtentInitialRetryPolicy : RetryPolicy :=
  createRetryPolicy (500 * Millisecond) (10 * Second) Minute 2.

Definition sealExtentRetryPolicy : RetryPolicy :=
  createRetryPolicy (3 * Second) (30 * Second) Minute 3.

Definition notificationRetryPolicy : RetryPolicy :=
  createRetryPolicy (500 * Millisecond) (10 * Second) Minute 3.

(** ** Helpers *)

(** [store_SealExtent] answers for the whole [backoff.Retry(sealOp, ...)];
    the deferred release runs once a client was vended.  The metrics
    scope argument is unused by the source and left out. *)
Definition sealExtentOnStore (storeUUID storeAddr extentID : string) (seq : Z)
    (isRetry : bool) : M (option error) :=
  let* r := GetThriftStoreClient storeAddr storeUUID in
  match r with
  | inr err => ret (Some err)
  | inl client =>
    let req := mkSealExtentRequest extentID (if 0 <? seq then Some seq else None) in
    let timeout :=
      if isRetry then sealExtentRetryCallTimeout else sealExtentInitialCallTimeout in
    let retryPolicy :=
      if isRetry then sealExtentRetryPolicy else sealExtentInitialRetryPolicy in
    let* err := call (Call_store_SealExtent client req timeout retryPolicy)
                     (store_SealExtent env client req timeout retryPolicy) in
    let* _ := ReleaseThriftStoreClient storeUUID in
    ret err
  end.

(** Forces a result cache refresh for the given consumer group. *)
Definition triggerCacheRefreshForCG (cgID : string) : M unit :=
  let* now := time_Now in
  let* result := readOutputHosts cgID now in
  if negb (cacheHit result) || refreshCache result then ret tt
  else
    let deadline := int64_add now resultCacheRefreshMaxWaitTime in
    if expiry result <? deadline then ret tt
    else
      resultCache_write cgID
        (mkResultCacheParams (entry_dstType result) (entry_nExtents result)
           (entry_hostIDs result) now).

(** The body of the loop over the consumer groups of a destination. *)
Definition reconfigureConsumerGroup (dstID reason reasonContext : string)
    (cgd : ConsumerGroupDescription) : M unit :=
  if negb (ConsumerGroupStatus_eqb (cgd_GetStatus cgd) ConsumerGroupStatus_ENABLED)
  then ret tt
  else
    let* r := ListExtentsByConsumerGroup dstID (GetConsumerGroupUUID cgd)
                [ConsumerGroupExtentStatus_OPEN] in
    match r with
    | inr _ => ret tt
    | inl extents =>
      let outhosts : gmap string unit :=
        foldl (fun m ext => <[GetOutputHostUUID ext := tt]> m) ∅ extents in
      let* _ := forEach (fun kv : string * unit =>
                  let* _ := Add (NewOutputHostNotificationEvent dstID
                                   (GetConsumerGroupUUID cgd) (fst kv) reason
                                   reasonContext NotificationType_CLIENT) in
                  ret tt)
                  (rangeMap outhosts) in
      triggerCacheRefreshForCG (GetConsumerGroupUUID cgd)
    end.

(** A failed listing is logged; the loop then runs over what the
    listing returned next to the error. *)
Definition reconfigureAllConsumers (dstID extentID reason reasonContext : string) : M unit :=
  let* r := ListConsumerGroupsByDstID dstID in
  forEach (reconfigureConsumerGroup dstID reason reasonContext) (fst r).

(** Modelled from the spec: [addExtentDownEvent], whose code is not in
    this file, constructs an ExtentDownEvent(sealSeq, destID, extentID)
    and enqueues it. *)
Definition addExtentDownEvent (sealSeq : Z) (dstID extentID : string) : M unit :=
  let* _ := Add (NewExtentDownEvent sealSeq dstID extentID) in ret tt.

Definition createExtentDownEvents (stats : list ExtentStats) : M unit :=
  forEach (fun stat =>
    if negb (IsRemoteZoneExtent env (OriginZone (GetExtent stat)) (localZone env))
    then addExtentDownEvent 0 (DestinationUUID (GetExtent stat))
           (ExtentUUID (GetExtent stat))
    else ret tt) stats.

(** ** ExtentCreatedEvent *)

(** Schedules notifications to the input hosts concerned by a new
    extent, then to the output hosts serving the destination. *)
Definition ExtentCreatedEvent_Handle (event : ExtentCreatedEvent) : M (option error) :=
  let inHostIDs : gmap string bool := <[ece_inHostID event := true]> ∅ in
  let filterBy := [ExtentStatus_OPEN] in
  let* r := ListExtentsByDstIDStatus (ece_dstID event) filterBy in
  let inHostIDs :=
    match r with
    | inl stats =>
      foldl (fun m stat => <[InputHostUUID (GetExtent stat) := true]> m) inHostIDs stats
    | inr _ => inHostIDs
    end in
  let notifyEvent :=
    NewInputHostNotificationEvent (ece_dstID event) (ece_inHostID event)
      (ece_extentID event) (ece_storeIDs event) notifyExtentCreated
      (ece_extentID event) NotificationType_ALL in
  let* added := Add notifyEvent in
  if negb added then ret None
  else
    let inHostIDs := delete (ece_inHostID event) inHostIDs in
    let* _ := forEach (fun kv : string * bool =>
                let notifyEvent :=
                  NewInputHostNotificationEvent (ece_dstID event) (fst kv)
                    (ece_extentID event) (ece_storeIDs event) notifyExtentCreated
                    (ece_extentID event) NotificationType_CLIENT in
                let* succ := Add notifyEvent in
                ret tt)
                (rangeMap inHostIDs) in
    let* _ := reconfigureAllConsumers (ece_dstID event) (ece_extentID event)
                notifyExtentCreated (ece_extentID event) in
    ret None.

(** ** ConsGroupUpdatedEvent *)

Definition ConsGroupUpdatedEvent_Handle (event : ConsGroupUpdatedEvent) : M (option error) :=
  let outHostIDs : gmap string bool := <[cgu_outputHostID event := true]> ∅ in
  let filterBy := [ConsumerGroupExtentStatus_OPEN] in
  let* r := ListExtentsByConsumerGroup (cgu_dstID event) (cgu_consGroupID event) filterBy in
  let outHostIDs :=
    match r with
    | inl cgExtents =>
      foldl (fun m cge => <[GetOutputHostUUID cge := true]> m) outHostIDs cgExtents
    | inr _ => outHostIDs
    end in
  let notifyEvent :=
    NewOutputHostNotificationEvent (cgu_dstID event) (cgu_consGroupID event)
      (cgu_outputHostID event) notifyCGExtUpdated (cgu_extentID event)
      NotificationType_ALL in
  let* added := Add notifyEvent in
  let outHostIDs := delete (cgu_outputHostID event) outHostIDs in
  let* _ := forEach (fun kv : string * bool =>
              let notifyEvent :=
                NewOutputHostNotificationEvent (cgu_dstID event)
                  (cgu_consGroupID event) (fst kv) notifyCGExtUpdated
                  (cgu_extentID event) NotificationType_CLIENT in
              let* succ := Add notifyEvent in
              ret tt)
              (rangeMap outHostIDs) in
  ret None.

(** ** InputHostFailedEvent and StoreHostFailedEvent *)

(** Lists the OPEN extents of the failed input host and enqueues an
    ExtentDownEvent for each of them. *)
Definition InputHostFailedEvent_Handle (event : InputHostFailedEvent) : M (option error) :=
  let* r := ListExtentsByInputIDStatus (ihf_hostUUID event) (Some ExtentStatus_OPEN) in
  match r with
  | inr _ => ret None
  | inl stats => let* _ := createExtentDownEvents stats in ret None
  end.

Definition StoreHostFailedEvent_Handle (event : StoreHostFailedEvent) : M (option error) :=
  let* r := ListExtentsByStoreIDStatus (shf_hostUUID event) (Some ExtentStatus_OPEN) in
  match r with
  | inr _ => ret None
  | inl stats => let* _ := createExtentDownEvents stats in ret None
  end.

(** ** RemoteZoneExtentCreatedEvent *)

(** The loop [for i := 1; i < len(event.storeIDs); i++] with [remaining]
    iterations to go; [event.storeIDs[i]] panics out of range. *)
Fixpoint replicateOnSecondaries (event : RemoteZoneExtentCreatedEvent)
    (primaryStoreID : string) (i remaining : nat) : M (Outcome (option error)) :=
  match remaining with
  | O => ret (Returns None)
  | S remaining' =>
    match rze_storeIDs event !! i with
    | None => ret (Panics "index out of range")
    | Some secondaryStoreID =>
      let* r := ResolveUUID StoreServiceName secondaryStoreID in
      match r with
      | inr _ => ret (Returns (Some errRetryable))
      | inl secondaryStoreAddr =>
        let* r := GetThriftStoreClient secondaryStoreAddr secondaryStoreID in
        match r with
        | inr err => ret (Returns (Some err))
        | inl secondaryStoreClient =>
          let req := mkReplicateExtentRequest (rze_dstID event) (rze_extentID event)
                       primaryStoreID in
          let* err := call (Call_ReplicateExtent secondaryStoreClient req
                              replicateExtentCallTimeout)
                           (store_ReplicateExtent env secondaryStoreClient req
                              replicateExtentCallTimeout) in
          match err with
          | Some e => ret (Returns (Some e))
          | None => replicateOnSecondaries event primaryStoreID (S i) remaining'
          end
        end
      end
    end
  end.

(** The first store is issued a remote replication request, the rest
    of the stores a re-replication request. *)
Definition RemoteZoneExtentCreatedEvent_Handle (event : RemoteZoneExtentCreatedEvent)
    : M (Outcome (option error)) :=
  match rze_storeIDs event !! 0%nat with
  | None => ret (Panics "index out of range")
  | Some primaryStoreID =>
    let* r := ResolveUUID StoreServiceName primaryStoreID in
    match r with
    | inr _ => ret (Returns (Some errRetryable))
    | inl primaryStoreAddr =>
      let* r := GetThriftStoreClient primaryStoreAddr primaryStoreID in
      match r with
      | inr err => ret (Returns (Some err))
      | inl primaryStoreClient =>
        let req := mkRemoteReplicateExtentRequest (rze_dstID event) (rze_extentID event) in
        let* err := call (Call_RemoteReplicateExtent primaryStoreClient req
                            replicateExtentCallTimeout)
                         (store_RemoteReplicateExtent env primaryStoreClient req
                            replicateExtentCallTimeout) in
        match err with
        | Some e => ret (Returns (Some e))
        | None =>
          replicateOnSecondaries event primaryStoreID 1
            (length (rze_storeIDs event) - 1)
        end
      end
    end
  end.

(** ** ExtentDownEvent *)

Definition with_state (state : Z) (e : ExtentDownEvent) : ExtentDownEvent :=
  mkExtentDownEvent state (ede_sealSeq e) (ede_dstID e) (ede_extentID e) (ede_storeIDs e).
Definition with_storeIDs (storeIDs : list string) (e : ExtentDownEvent) : ExtentDownEvent :=
  mkExtentDownEvent (ede_state e) (ede_sealSeq e) (ede_dstID e) (ede_extentID e) storeIDs.

(** One pass through the [switch] either returns from [Handle] or goes
    round the [for] loop again. *)
Inductive Step : Type :=
| Return (err : option error)
| Continue.

(** [case checkPreconditionState].  The source tests [err] a second
    time after the status check; that branch cannot be reached. *)
Definition checkPrecondition (event : ExtentDownEvent) : M (Step * ExtentDownEvent) :=
  let* r := ReadExtentStats (ede_dstID event) (ede_extentID event) in
  match r with
  | inr _ => ret (Return (Some errRetryable), event)
  | inl stats =>
    if negb (ExtentStatus_eqb (GetStatus stats) ExtentStatus_OPEN)
    then ret (Return None, event)
    else ret (Continue,
              with_state sealExtentState
                (with_storeIDs (StoreUUIDs (GetExtent stats)) event))
  end.

(** The store hosts that resolve, as the map uuid -> address. *)
Definition resolveStores (storeIDs : list string) : M (gmap string string) :=
  foldEach (fun (stores : gmap string string) s =>
    let* r := ResolveUUID StoreServiceName s in
    match r with
    | inr _ => ret stores
    | inl addr => ret (<[s := addr]> stores)
    end) ∅ storeIDs.

(** First attempt: try once; in the retry executor: block up to 10 s. *)
Definition acquireSealToken (isRetry : bool) : M bool :=
  if negb isRetry
  then let* consumed := TryConsume 1 in ret (negb consumed)
  else let* consumed := Consume 1 (10 * Second) in ret (negb consumed).

(** One goroutine per store, joined by the wait group; [nSuccess] is
    the [int32] counter.  The goroutines are run one after the other in
    the order of the [range] over [stores]. *)
Definition sealOnStores (event : ExtentDownEvent) (isRetry : bool)
    (stores : list (string * string)) : M Z :=
  foldEach (fun (nSuccess : Z) (kv : string * string) =>
    let* e := sealExtentOnStore (fst kv) (snd kv) (ede_extentID event)
                (ede_sealSeq event) isRetry in
    match e with
    | None =>
      let* _ := invalidateStoreExtentCache (fst kv) (ede_extentID event) in
      ret (int32_add nSuccess 1)
    | Some _ => ret nSuccess
    end) 0 stores.

(** [case sealExtentState] *)
Definition sealExtent (isRetry : bool) (event : ExtentDownEvent)
    : M (Step * ExtentDownEvent) :=
  let* stores := resolveStores (ede_storeIDs event) in
  if Z.of_nat (size stores) <? 1 then ret (Return (Some errRetryable), event)
  else
    let* rateLimited := acquireSealToken isRetry in
    if (rateLimited : bool) then ret (Return (Some errRetryable), event)
    else
      let* nSuccess := sealOnStores event isRetry (rangeMap stores) in
      if nSuccess <? 1 then ret (Return (Some errRetryable), event)
      else ret (Continue, with_state updateMetadataState event).

(** [case updateMetadataState] *)
Definition updateMetadata (event : ExtentDownEvent) : M (Step * ExtentDownEvent) :=
  let* err := metadata_SealExtent (ede_dstID event) (ede_extentID event) in
  let proceed : M (Step * ExtentDownEvent) :=
    let* _ := failed_Remove (ede_extentID event) in
    ret (Continue, with_state doneState event) in
  match err with
  | Some e =>
    if negb (isIllegalStateError e) then ret (Return (Some errRetryable), event)
    else proceed
  | None => proceed
  end.

(** [switch event.state] *)
Definition handleStep (isRetry : bool) (event : ExtentDownEvent)
    : M (Step * ExtentDownEvent) :=
  if ede_state event =? checkPreconditionState then checkPrecondition event
  else if ede_state event =? sealExtentState then sealExtent isRetry event
  else if ede_state event =? updateMetadataState then updateMetadata event
  else if ede_state event =? doneState then ret (Return None, event)
  else ret (Return None, event).

(** The [for] loop, [fuel] passes at most. *)
Fixpoint handleLoop (fuel : nat) (isRetry : bool) (event : ExtentDownEvent) (c : Ctx)
    : option (option error * ExtentDownEvent * Ctx) :=
  match fuel with
  | O => None
  | S fuel' =>
    match handleStep isRetry event c with
    | (Return err, event', c') => Some (err, event', c')
    | (Continue, event', c') => handleLoop fuel' isRetry event' c'
    end
  end.

(** Seals an extent and updates metadata.  The event is changed in
    place, so the result carries the event as [Handle] leaves it. *)
Definition ExtentDownEvent_Handle (fuel : nat) (event : ExtentDownEvent) (c : Ctx)
    : option (option error * ExtentDownEvent * Ctx) :=
  let isRetry := negb (ede_state event =? checkPreconditionState) in
  handleLoop fuel isRetry event c.

(** Cleanup for ExtentDownEvent. *)
Definition ExtentDownEvent_Done (event : ExtentDownEvent) (err : option error) : M unit :=
  let* _ :=
    match err with
    | Some _ =>
      let* n := failed_Size in
      if n >? maxFailedExtentSealSetSize env then ret tt
      else failed_Put (ede_extentID event)
    | None => ret tt
    end in
  inProgress_Remove (ede_extentID event).

End Handlers.

(** ** Vocabulary of the properties *)

(** The cache invalidations among a run of calls, as (store, extent). *)
Definition invalidations (calls : list Call) : list (string * string) :=
  omap (fun call =>
          match call with
          | Call_invalidateStoreExtentCache storeID extentID => Some (storeID, extentID)
          | _ => None
          end) calls.

(** What [sealExtentOnStore] returns for a store, and the calls it
    issues; see [sealExtentOnStore_run]. *)
Definition sealExtentOnStore_result (env : Env) (storeUUID storeAddr extentID : string)
    (seq : Z) (isRetry : bool) : option error :=
  fst (sealExtentOnStore env storeUUID storeAddr extentID seq isRetry
         (mkCtx [] ∅ ∅ ∅ 0 [])).

Definition sealExtentOnStore_calls (env : Env) (storeUUID storeAddr extentID : string)
    (seq : Z) (isRetry : bool) : list Call :=
  trace (snd (sealExtentOnStore env storeUUID storeAddr extentID seq isRetry
                (mkCtx [] ∅ ∅ ∅ 0 []))).

Definition sealedOn (env : Env) (event : ExtentDownEvent) (isRetry : bool)
    (kv : string * string) : bool :=
  match sealExtentOnStore_result env (fst kv) (snd kv) (ede_extentID event)
          (ede_sealSeq event) isRetry with
  | None => true
  | Some _ => false
  end.

(** The calls of the goroutine of one store: the seal, then the cache
    invalidation when the seal succeeded. *)
Definition sealGoroutine_calls (env : Env) (event : ExtentDownEvent) (isRetry : bool)
    (kv : string * string) : list Call :=
  sealExtentOnStore_calls env (fst kv) (snd kv) (ede_extentID event)
    (ede_sealSeq event) isRetry ++
  (if sealedOn env event isRetry kv
   then [Call_invalidateStoreExtentCache (fst kv) (ede_extentID event)]
   else []).

(** The map [resolveStores] builds: uuid -> address of the stores that
    resolve; see [resolveStores_run]. *)
Definition resolved (env : Env) (storeIDs : list string) : gmap string string :=
  foldl (fun (stores : gmap string string) s =>
           match rpm_ResolveUUID env StoreServiceName s with
           | inr _ => stores
           | inl addr => <[s := addr]> stores
           end) ∅ storeIDs.

(** The calls of the replication kickoff on one store and the error it
    ends with, if any: the store is resolved, a client is obtained, the
    request is sent.  For the primary the request is RemoteReplicateExtent,
    for a secondary ReplicateExtent naming the primary as source. *)
Definition primaryAttempt (env : Env) (event : RemoteZoneExtentCreatedEvent)
    (primary : string) : list Call * option error :=
  match rpm_ResolveUUID env StoreServiceName primary with
  | inr _ => ([Call_ResolveUUID StoreServiceName primary], Some errRetryable)
  | inl addr =>
    match clientFactory_GetThriftStoreClient env addr primary with
    | Some err =>
      ([Call_ResolveUUID StoreServiceName primary;
        Call_GetThriftStoreClient addr primary], Some err)
    | None =>
      let client := mkStoreClient addr primary in
      let req := mkRemoteReplicateExtentRequest (rze_dstID event) (rze_extentID event) in
      ([Call_ResolveUUID StoreServiceName primary;
        Call_GetThriftStoreClient addr primary;
        Call_RemoteReplicateExtent client req replicateExtentCallTimeout],
       store_RemoteReplicateExtent env client req replicateExtentCallTimeout)
    end
  end.

Definition secondaryAttempt (env : Env) (event : RemoteZoneExtentCreatedEvent)
    (primary secondary : string) : list Call * option error :=
  match rpm_ResolveUUID env StoreServiceName secondary with
  | inr _ => ([Call_ResolveUUID StoreServiceName secondary], Some errRetryable)
  | inl addr =>
    match clientFactory_GetThriftStoreClient env addr secondary with
    | Some err =>
      ([Call_ResolveUUID StoreServiceName secondary;
        Call_GetThriftStoreClient addr secondary], Some err)
    | None =>
      let client := mkStoreClient addr secondary in
      let req := mkReplicateExtentRequest (rze_dstID event) (rze_extentID event)
                   primary in
      ([Call_ResolveUUID StoreServiceName secondary;
        Call_GetThriftStoreClient addr secondary;
        Call_ReplicateExtent client req replicateExtentCallTimeout],
       store_ReplicateExtent env client req replicateExtentCallTimeout)
    end
  end.

(** The secondaries in list order, up to the first one that fails. *)
Fixpoint secondariesRun (env : Env) (event : RemoteZoneExtentCreatedEvent)
    (primary : string) (secondaries : list string) : list Call * option error :=
  match secondaries with
  | [] => ([], None)
  | s :: rest =>
    match snd (secondaryAttempt env event primary s) with
    | Some err => (fst (secondaryAttempt env event primary s), Some err)
    | None =>
      (fst (secondaryAttempt env event primary s) ++
       fst (secondariesRun env event primary rest),
       snd (secondariesRun env event primary rest))
    end
  end.

(** The store a call is addressed to. *)
Definition callStore (call : Call) : option string :=
  match call with
  | Call_ResolveUUID _ uuid => Some uuid
  | Call_GetThriftStoreClient _ uuid => Some uuid
  | Call_ReleaseThriftStoreClient uuid => Some uuid
  | Call_store_SealExtent client _ _ _ => Some (client_uuid client)
  | Call_RemoteReplicateExtent client _ _ => Some (client_uuid client)
  | Call_ReplicateExtent client _ _ => Some (client_uuid client)
  | _ => None
  end.

(** The events offered to the queue among a run of calls, accepted or not. *)
Definition offers (calls : list Call) : list Event :=
  omap (fun call => match call with Call_Add e _ => Some e | _ => None end) calls.

Definition isOutputHostNotification (e : Event) : Prop :=
  exists o, e = EvOutputHostNotification o.

(** A computation that only appends events satisfying [P] to the queue. *)
Definition enqueuesOnly {A : Type} (P : Event -> Prop) (m : M A) : Prop :=
  forall c, exists outs, pipeline (snd (m c)) = pipeline c ++ outs /\ Forall P outs.

(** The event [createExtentDownEvents] makes for a listed extent, and
    the listed extents that are not remote-zone extents. *)
Definition extentDownEventFor (stat : ExtentStats) : Event :=
  NewExtentDownEvent 0 (DestinationUUID (GetExtent stat)) (ExtentUUID (GetExtent stat)).

Definition localExtents (env : Env) (stats : list ExtentStats) : list ExtentStats :=
  filter (fun stat =>
            IsRemoteZoneExtent env (OriginZone (GetExtent stat)) (localZone env) = false)
         stats.

(** ** A small deployment

    Destination D1 in zone1 with the extents E1 (input host H1, stores
    S1, S2, S3) and E2 (input host H2), both OPEN, and the remote-zone
    extent E3; consumer group CG1 served by output host O1.  The stores
    S1, S2 and S4 resolve, S3 does not; a seal succeeds on S1 and
    times out on S2; ReplicateExtent times out on S2.  The metadata store
    seals E1, answers IllegalStateError for E2 and is unavailable for
    anything else.  The queue holds [capacity] events and the rate
    limiter answers [tokens]. *)

Definition extentE1 : ExtentStats :=
  mkExtentStats (mkExtent "E1" "D1" ["S1"; "S2"; "S3"] "H1" "") ExtentStatus_OPEN.
Definition extentE2 : ExtentStats :=
  mkExtentStats (mkExtent "E2" "D1" ["S1"; "S2"; "S3"] "H2" "zone1") ExtentStatus_OPEN.
Definition extentE3 : ExtentStats :=
  mkExtentStats (mkExtent "E3" "D1" ["S1"; "S2"; "S3"] "H1" "zone2") ExtentStatus_OPEN.

Definition scenarioEnv (capacity : nat) (tokens : bool) : Env := {|
  localZone := "zone1";
  maxFailedExtentSealSetSize := 2;
  queueCapacity := capacity;
  IsRemoteZoneExtent := fun origin zone =>
    negb (String.eqb origin "") && negb (String.eqb origin zone);
  rangeOrder := fun _ l => l;
  mm_ListExtentsByDstIDStatus := fun dstID _ =>
    if String.eqb dstID "D1" then inl [extentE1; extentE2]
    else inr (otherError "metadata unavailable");
  mm_ListExtentsByConsumerGroup := fun _ cgID _ =>
    if String.eqb cgID "CG1" then inl [mkConsumerGroupExtent "E1" "O1"]
    else inr (otherError "metadata unavailable");
  mm_ListExtentsByInputIDStatus := fun hostUUID _ =>
    if String.eqb hostUUID "H1" then inl [extentE1; extentE3]
    else inr (otherError "metadata unavailable");
  mm_ListExtentsByStoreIDStatus := fun hostUUID _ =>
    if String.eqb hostUUID "S1" then inl [extentE1; extentE2; extentE3]
    else inr (otherError "metadata unavailable");
  mm_ListConsumerGroupsByDstID := fun dstID =>
    if String.eqb dstID "D1"
    then ([mkConsumerGroupDescription "CG1" ConsumerGroupStatus_ENABLED], None)
    else ([], Some (otherError "metadata unavailable"));
  mm_ReadExtentStats := fun _ extentID =>
    if String.eqb extentID "E1" then inl extentE1
    else if String.eqb extentID "E2"
    then inl (mkExtentStats (GetExtent extentE2) ExtentStatus_SEALED)
    else inr (otherError "metadata unavailable");
  mm_SealExtent := fun _ extentID =>
    if String.eqb extentID "E1" then None
    else if String.eqb extentID "E2" then Some (IllegalStateError "already sealed")
    else Some (otherError "metadata unavailable");
  rpm_ResolveUUID := fun _ uuid =>
    if String.eqb uuid "S1" then inl "10.0.0.1:4240"
    else if String.eqb uuid "S2" then inl "10.0.0.2:4240"
    else if String.eqb uuid "S4" then inl "10.0.0.4:4240"
    else inr (otherError "unknown uuid");
  clientFactory_GetThriftStoreClient := fun _ _ => None;
  store_SealExtent := fun client _ _ _ =>
    if String.eqb (client_uuid client) "S1" then None else Some (otherError "timeout");
  store_RemoteReplicateExtent := fun _ _ _ => None;
  store_ReplicateExtent := fun client _ _ =>
    if String.eqb (client_uuid client) "S2" then Some (otherError "timeout") else None;
  tokenBucket_TryConsume := fun _ => tokens;
  tokenBucket_Consume := fun _ _ => tokens;
  resultCache_readOutputHosts := fun cache cgID now =>
    match cache !! cgID with
    | Some entry =>
      mkResultCacheReadResult true (rcp_expiry entry <=? now) (rcp_dstType entry)
        (rcp_nExtents entry) (rcp_hostIDs entry) (rcp_expiry entry)
    | None => mkResultCacheReadResult false false 0 0 [] 0
    end
|}.

(** The controller at time [now] with [queue] waiting in the pipeline,
    [failedSet] in the failed set, E1 being sealed, and the output
    hosts of CG1 cached until [cachedUntil]. *)
Definition scenarioCtx (queue : list Event) (failedSet : gset string)
    (now cachedUntil : Z) : Ctx :=
  mkCtx queue failedSet {["E1"]}
    {["CG1" := mkResultCacheParams 1 1 ["O1"] cachedUntil]} now [].

(** Two events already waiting in the queue. *)
Definition backlog : list Event :=
  [NewStoreHostFailedEvent "S9"; NewInputHostFailedEvent "H9"].

Definition createdE1 : ExtentCreatedEvent :=
  mkExtentCreatedEvent "D1" "H1" "E1" ["S1"; "S2"; "S3"].

(** E1 going down: as first made, and as it re-enters on a retry. *)
Definition downE1 (state : Z) : ExtentDownEvent :=
  mkExtentDownEvent state 0 "D1" "E1" (if state =? 0 then [] else ["S1"; "S2"; "S3"]).

Definition remoteE3 : RemoteZoneExtentCreatedEvent :=
  mkRemoteZoneExtentCreatedEvent "D1" "E3" ["S1"; "S4"; "S2"; "S3"].

(** ** The other handlers of the file *)

Section OtherHandlers.

Variable env : Env.

(** Reissues the seal to a store that is out of sync, without touching
    the metadata.  A failed seal is only logged. *)
Definition StoreExtentStatusOutOfSyncEvent_Handle
    (event : StoreExtentStatusOutOfSyncEvent) : M (option error) :=
  let* r := ResolveUUID env StoreServiceName (oos_storeID event) in
  match r with
  | inr _ => ret (Some errRetryable)
  | inl addr =>
    let* err := sealExtentOnStore env (oos_storeID event) addr (oos_extentID event)
                  0 false in
    let* _ := invalidateStoreExtentCache (oos_storeID event) (oos_extentID event) in
    let* _ := inProgress_Remove (oos_extentID event) in
    ret None
  end.

End OtherHandlers.

(** *** Notifications to input and output hosts

    The two notification handlers talk to the admin endpoint of a host.
    Its requests, the calls made to it and its answers are kept apart
    from [Call] and [Env]: a handler run returns, next to its error, the
    admin calls it made, oldest first. *)

Definition InputServiceName : string := "cherami-inputhost".
Definition OutputServiceName : string := "cherami-outputhost".
Definition thriftCallTimeout : Z := 10 * Second.

Record DestinationUpdatedNotification : Type := mkDestinationUpdatedNotification {
  dun_DestinationUUID : string;
  dun_Type : NotificationType;
  dun_ExtentUUID : string;
  dun_StoreIds : list string
}.

Record DestinationsUpdatedRequest : Type := mkDestinationsUpdatedRequest {
  dur_UpdateUUID : string;
  dur_Updates : list DestinationUpdatedNotification
}.

Record ConsumerGroupUpdatedNotification : Type := mkConsumerGroupUpdatedNotification {
  cgn_ConsumerGroupUUID : string;
  cgn_Type : NotificationType
}.

Record ConsumerGroupsUpdatedRequest : Type := mkConsumerGroupsUpdatedRequest {
  cgr_UpdateUUID : string;
  cgr_Updates : list ConsumerGroupUpdatedNotification
}.

Inductive AdminCall : Type :=
| AdminCall_CreateInputHostAdminClient (addr : string)
| AdminCall_DestinationsUpdated (addr : string) (req : DestinationsUpdatedRequest)
    (timeout : Z) (policy : RetryPolicy)
| AdminCall_CreateOutputHostAdminClient (addr : string)
| AdminCall_ConsumerGroupsUpdated (addr : string) (req : ConsumerGroupsUpdatedRequest)
    (timeout : Z) (policy : RetryPolicy).

(** The answers of the admin side: the uuid [uuid.New()] draws, whether
    a client can be made for an address, and what
    [backoff.Retry(updateOp, notificationRetryPolicy(), ...)] ends with. *)
Record AdminEnv : Type := mkAdminEnv {
  uuid_New : string;
  CreateInputHostAdminClient : string -> option error;
  CreateOutputHostAdminClient : string -> option error;
  admin_DestinationsUpdated :
    string -> DestinationsUpdatedRequest -> Z -> RetryPolicy -> option error;
  admin_ConsumerGroupsUpdated :
    string -> ConsumerGroupsUpdatedRequest -> Z -> RetryPolicy -> option error
}.

Section NotificationHandlers.

Variable env : Env.
Variable admin : AdminEnv.

(** Sends the notification to an input host.  Every failure is counted
    and logged, none is returned. *)
Definition InputHostNotificationEvent_Handle (event : InputHostNotificationEvent)
    : M (option error * list AdminCall) :=
  let* r := ResolveUUID env InputServiceName (ihn_inputHostID event) in
  match r with
  | inr _ => ret (None, [])
  | inl addr =>
    match CreateInputHostAdminClient admin addr with
    | Some _ => ret (None, [AdminCall_CreateInputHostAdminClient addr])
    | None =>
      let update :=
        mkDestinationUpdatedNotification (ihn_dstID event) (ihn_notificationType event)
          (ihn_extentID event) (ihn_storeIDs event) in
      let req := mkDestinationsUpdatedRequest (uuid_New admin) [update] in
      let err := admin_DestinationsUpdated admin addr req thriftCallTimeout
                   notificationRetryPolicy in
      ret (None,
           [AdminCall_CreateInputHostAdminClient addr;
            AdminCall_DestinationsUpdated addr req thriftCallTimeout
              notificationRetryPolicy])
    end
  end.

(** Sends the notification to an output host. *)
Definition OutputHostNotificationEvent_Handle (event : OutputHostNotificationEvent)
    : M (option error * list AdminCall) :=
  let* r := ResolveUUID env OutputServiceName (ohn_outputHostID event) in
  match r with
  | inr _ => ret (None, [])
  | inl addr =>
    match CreateOutputHostAdminClient admin addr with
    | Some _ => ret (None, [AdminCall_CreateOutputHostAdminClient addr])
    | None =>
      let update :=
        mkConsumerGroupUpdatedNotification (ohn_consGroupID event)
          (ohn_notificationType event) in
      let req := mkConsumerGroupsUpdatedRequest (uuid_New admin) [update] in
      let err := admin_ConsumerGroupsUpdated admin addr req thriftCallTimeout
                   notificationRetryPolicy in
      ret (None,
           [AdminCall_CreateOutputHostAdminClient addr;
            AdminCall_ConsumerGroupsUpdated addr req thriftCallTimeout
              notificationRetryPolicy])
    end
  end.

End NotificationHandlers.

(** *** More vocabulary *)

(** The metadata seals among a run of calls, as (destination, extent). *)
Definition metadataSeals (calls : list Call) : list (string * string) :=
  omap (fun call =>
          match call with
          | Call_metadata_SealExtent dstID extentID => Some (dstID, extentID)
          | _ => None
          end) calls.

(** The consumer groups whose cache entry is read among a run of calls. *)
Definition cacheReads (calls : list Call) : list string :=
  omap (fun call =>
          match call with
          | Call_readOutputHosts cgID _ => Some cgID
          | _ => None
          end) calls.

(** The stores whose client is obtained, and released, among a run of calls. *)
Definition clientsObtained (calls : list Call) : list string :=
  omap (fun call =>
          match call with
          | Call_GetThriftStoreClient _ uuid => Some uuid
          | _ => None
          end) calls.

Definition clientsReleased (calls : list Call) : list string :=
  omap (fun call =>
          match call with
          | Call_ReleaseThriftStoreClient uuid => Some uuid
          | _ => None
          end) calls.

(** The stores for which the client factory vends a client among a run
    of calls. *)
Definition clientsVended (env : Env) (calls : list Call) : list string :=
  omap (fun call =>
          match call with
          | Call_GetThriftStoreClient addr uuid =>
            match clientFactory_GetThriftStoreClient env addr uuid with
            | None => Some uuid
            | Some _ => None
            end
          | _ => None
          end) calls.

(** What a run of [ExtentDownEvent.Handle] on [extentID] may change: it
    issues calls and may take the extent out of the failed set. *)
Definition sealRunFrame (extentID : string) (c c' : Ctx) : Prop :=
  pipeline c' = pipeline c /\
  inProgress c' = inProgress c /\
  resultCache c' = resultCache c /\
  clock c' = clock c /\
  (failed c' = failed c \/ failed c' = failed c ∖ {[extentID]}) /\
  exists calls, trace c' = trace c ++ calls.

(** The consumer groups [reconfigureAllConsumers] serves: those that
    are ENABLED and whose OPEN extents can be listed. *)
Definition servedGroup (env : Env) (dstID : string) (cgd : ConsumerGroupDescription)
    : bool :=
  ConsumerGroupStatus_eqb (cgd_GetStatus cgd) ConsumerGroupStatus_ENABLED &&
  match mm_ListExtentsByConsumerGroup env dstID (GetConsumerGroupUUID cgd)
          [ConsumerGroupExtentStatus_OPEN] with
  | inl _ => true
  | inr _ => false
  end.

(** The output hosts [reconfigureAllConsumers] notifies for a consumer
    group, in the order of the [range] over the set it builds from the
    OPEN extents of the group. *)
Definition notifiedOutputHosts (env : Env) (dstID : string)
    (cgd : ConsumerGroupDescription) : list string :=
  match mm_ListExtentsByConsumerGroup env dstID (GetConsumerGroupUUID cgd)
          [ConsumerGroupExtentStatus_OPEN] with
  | inl extents =>
    (rangeMap env (foldl (fun (m : gmap string unit) ext =>
                            <[GetOutputHostUUID ext := tt]> m) ∅ extents)).*1
  | inr _ => []
  end.

Definition isInputHostNotification (e : Event) : Prop :=
  exists i, e = EvInputHostNotification i.

(** A computation that leaves the two tracking sets of [extentSeals]
    as they are. *)
Definition keepsSealSets {A : Type} (m : M A) : Prop :=
  forall c, failed (snd (m c)) = failed c /\ inProgress (snd (m c)) = inProgress c.

(** The small deployment with a host directory that also knows the
    input host H1 and the output host O1. *)
Definition scenarioHostsEnv (capacity : nat) (tokens : bool) : Env :=
  let base := scenarioEnv capacity tokens in
  mkEnv (localZone base) (maxFailedExtentSealSetSize base) (queueCapacity base)
    (IsRemoteZoneExtent base) (rangeOrder base)
    (mm_ListExtentsByDstIDStatus base) (mm_ListExtentsByConsumerGroup base)
    (mm_ListExtentsByInputIDStatus base) (mm_ListExtentsByStoreIDStatus base)
    (mm_ListConsumerGroupsByDstID base) (mm_ReadExtentStats base) (mm_SealExtent base)
    (fun service uuid =>
       if String.eqb uuid "H1" then inl "10.0.1.1:4241"
       else if String.eqb uuid "O1" then inl "10.0.2.1:4254"
       else rpm_ResolveUUID base service uuid)
    (clientFactory_GetThriftStoreClient base) (store_SealExtent base)
    (store_RemoteReplicateExtent base) (store_ReplicateExtent base)
    (tokenBucket_TryConsume base) (tokenBucket_Consume base)
    (resultCache_readOutputHosts base).

(** An admin endpoint that accepts every client and times out on
    every update. *)
Definition scenarioAdmin : AdminEnv := {|
  uuid_New := "6ba7b810-9dad-11d1-80b4-00c04fd430c8";
  CreateInputHostAdminClient := fun _ => None;
  CreateOutputHostAdminClient := fun _ => None;
  admin_DestinationsUpdated := fun _ _ _ _ => Some (otherError "timeout");
  admin_ConsumerGroupsUpdated := fun _ _ _ _ => Some (otherError "timeout")
|}.

(** ** Properties of the handlers *)

Section Properties.

Variable env : Env.

(** *** The loop of ExtentDownEvent.Handle *)

Lemma handleStep_advances (isRetry : bool) (event event' : ExtentDownEvent) (c c' : Ctx) :
  handleStep env isRetry event c = (Continue, event', c') ->
  0 <= ede_state event <= 2 /\ ede_state event' = ede_state event + 1.
Proof.
  unfold handleStep.
  destruct (ede_state event =? checkPreconditionState) eqn:E0.
  { apply Z.eqb_eq in E0. unfold checkPrecondition, ReadExtentStats, call, emit, bind, ret.
    destruct (mm_ReadExtentStats env _ _) as [stats|e]; [|discriminate].
    destruct (negb _); [discriminate|]. intros [= <- <-]. simpl.
    unfold checkPreconditionState, sealExtentState in *. lia. }
  destruct (ede_state event =? sealExtentState) eqn:E1.
  { apply Z.eqb_eq in E1. unfold sealExtent, bind, ret.
    destruct (resolveStores env _ c) as [stores c1].
    destruct (_ <? 1); [discriminate|].
    destruct (acquireSealToken env isRetry c1) as [[|] c2]; [discriminate|].
    destruct (sealOnStores env event isRetry _ c2) as [n c3].
    destruct (n <? 1); [discriminate|]. intros [= <- <-]. simpl.
    unfold sealExtentState, updateMetadataState in *. lia. }
  destruct (ede_state event =? updateMetadataState) eqn:E2.
  { apply Z.eqb_eq in E2. unfold updateMetadata, metadata_SealExtent, call, emit, bind, ret, failed_Remove.
    destruct (mm_SealExtent env _ _) as [e|].
    - destruct (negb _); [discriminate|]. intros [= <- <-]. simpl.
      unfold updateMetadataState, doneState in *. lia.
    - intros [= <- <-]. simpl. unfold updateMetadataState, doneState in *. lia. }
  destruct (ede_state event =? doneState); unfold ret; discriminate.
Qed.

Lemma handleLoop_total (isRetry : bool) (fuel : nat) :
  forall (event : ExtentDownEvent) (c : Ctx),
    (Z.to_nat (4 - ede_state event) <= fuel)%nat -> (1 <= fuel)%nat ->
    exists r, handleLoop env fuel isRetry event c = Some r.
Proof.
  induction fuel as [|fuel IH]; intros event c Hm H1; [lia|].
  simpl. destruct (handleStep env isRetry event c) as [[[err|] event'] c'] eqn:Hs.
  - eauto.
  - apply handleStep_advances in Hs as [Hr He].
    apply IH; lia.
Qed.

Lemma handleLoop_more_fuel (isRetry : bool) (fuel : nat) :
  forall (fuel' : nat) (event : ExtentDownEvent) (c : Ctx) r,
    handleLoop env fuel isRetry event c = Some r -> (fuel <= fuel')%nat ->
    handleLoop env fuel' isRetry event c = Some r.
Proof.
  induction fuel as [|fuel IH]; intros fuel' event c r H Hle; [discriminate|].
  destruct fuel' as [|fuel']; [lia|]. simpl in *.
  destruct (handleStep env isRetry event c) as [[[err|] event'] c']; [done|].
  apply IH; [done|lia].
Qed.

(** Four passes of the loop are enough for [Handle] to return, from any
    state of the event, and more fuel does not change what it returns. *)
Lemma ExtentDownEvent_Handle_returns (fuel : nat) (event : ExtentDownEvent) (c : Ctx) :
  (4 <= fuel)%nat ->
  exists r, ExtentDownEvent_Handle env 4 event c = Some r /\
            ExtentDownEvent_Handle env fuel event c = Some r.
Proof.
  intros Hf. unfold ExtentDownEvent_Handle.
  set (isRetry := negb _).
  destruct (Z_le_gt_dec 0 (ede_state event)) as [Hge|Hlt].
  - destruct (handleLoop_total isRetry 4 event c) as [r Hr]; [lia|lia|].
    exists r. split; [done|]. eapply handleLoop_more_fuel; eauto.
  - (* a negative state is illegal: the default case returns at once *)
    assert (Hs : exists c', handleStep env isRetry event c = (Return None, event, c')).
    { unfold handleStep.
      destruct (Z.eqb_spec (ede_state event) checkPreconditionState); [unfold checkPreconditionState in *; lia|].
      destruct (Z.eqb_spec (ede_state event) sealExtentState); [unfold sealExtentState in *; lia|].
      destruct (Z.eqb_spec (ede_state event) updateMetadataState); [unfold updateMetadataState in *; lia|].
      destruct (Z.eqb_spec (ede_state event) doneState); [unfold doneState in *; lia|].
      eexists. reflexivity. }
    destruct Hs as [c' Hs]. exists (None, event, c').
    destruct fuel as [|fuel]; [lia|]. simpl. rewrite Hs. done.
Qed.

Lemma handleLoop_step (fuel : nat) (isRetry : bool) (event : ExtentDownEvent) (c : Ctx) :
  handleLoop env (S fuel) isRetry event c =
    match handleStep env isRetry event c with
    | (Return err, event', c') => Some (err, event', c')
    | (Continue, event', c') => handleLoop env fuel isRetry event' c'
    end.
Proof. reflexivity. Qed.

Lemma handleStep_checkPrecondition (isRetry : bool) (event : ExtentDownEvent) :
  ede_state event = checkPreconditionState ->
  handleStep env isRetry event = checkPrecondition env event.
Proof. intros H. unfold handleStep. by rewrite H. Qed.

Lemma handleStep_sealExtent (isRetry : bool) (event : ExtentDownEvent) :
  ede_state event = sealExtentState ->
  handleStep env isRetry event = sealExtent env isRetry event.
Proof. intros H. unfold handleStep. by rewrite H. Qed.

Lemma handleStep_updateMetadata (isRetry : bool) (event : ExtentDownEvent) :
  ede_state event = updateMetadataState ->
  handleStep env isRetry event = updateMetadata env event.
Proof. intros H. unfold handleStep. by rewrite H. Qed.

Lemma handleStep_done (isRetry : bool) (event : ExtentDownEvent) (c : Ctx) :
  ede_state event = doneState ->
  handleStep env isRetry event c = (Return None, event, c).
Proof. intros H. unfold handleStep. by rewrite H. Qed.

Lemma ExtentStatus_eqb_eq (a b : ExtentStatus) : ExtentStatus_eqb a b = true <-> a = b.
Proof. destruct a, b; simpl; split; congruence. Qed.

(** The first attempt of an event whose extent is still OPEN: the
    stores of the extent are copied into the event and the loop goes on
    in the seal state, not as a retry. *)
Lemma Handle_first_attempt (fuel : nat) (event : ExtentDownEvent) (c : Ctx)
    (stats : ExtentStats) :
  ede_state event = checkPreconditionState ->
  mm_ReadExtentStats env (ede_dstID event) (ede_extentID event) = inl stats ->
  GetStatus stats = ExtentStatus_OPEN ->
  ExtentDownEvent_Handle env (S fuel) event c =
    handleLoop env fuel false
      (with_state sealExtentState (with_storeIDs (StoreUUIDs (GetExtent stats)) event))
      (with_trace (trace c ++ [Call_ReadExtentStats (ede_dstID event) (ede_extentID event)]) c).
Proof.
  intros Hs Hr Ho. unfold ExtentDownEvent_Handle. rewrite Hs. simpl negb.
  rewrite handleLoop_step, handleStep_checkPrecondition by done.
  unfold checkPrecondition, ReadExtentStats, call, emit, bind, ret.
  rewrite Hr, Ho. reflexivity.
Qed.

(** C2.  In the checkPrecondition state: a failed read of the extent
    stats makes [Handle] return errRetryable; an extent that is not
    OPEN makes it return nil, and the run has issued the read and
    nothing else (no store call, no change of the queue, of the
    tracking sets or of the cache); for an OPEN extent the store uuids
    of the extent are copied into the event, the state becomes
    sealExtent and the loop goes on from there. *)
Theorem ExtentDownEvent_checkPrecondition_correct
    (fuel : nat) (event : ExtentDownEvent) (c : Ctx) :
  ede_state event = checkPreconditionState ->
  (4 <= fuel)%nat ->
  let read := Call_ReadExtentStats (ede_dstID event) (ede_extentID event) in
  let c1 := with_trace (trace c ++ [read]) c in
  (forall err, mm_ReadExtentStats env (ede_dstID event) (ede_extentID event) = inr err ->
     ExtentDownEvent_Handle env fuel event c = Some (Some errRetryable, event, c1)) /\
  (forall stats, mm_ReadExtentStats env (ede_dstID event) (ede_extentID event) = inl stats ->
     GetStatus stats <> ExtentStatus_OPEN ->
     ExtentDownEvent_Handle env fuel event c = Some (None, event, c1)) /\
  (forall stats, mm_ReadExtentStats env (ede_dstID event) (ede_extentID event) = inl stats ->
     GetStatus stats = ExtentStatus_OPEN ->
     let event' := with_state sealExtentState
                     (with_storeIDs (StoreUUIDs (GetExtent stats)) event) in
     handleStep env false event c = (Continue, event', c1) /\
     ede_storeIDs event' = StoreUUIDs (GetExtent stats) /\
     ede_state event' = sealExtentState /\
     ExtentDownEvent_Handle env fuel event c = handleLoop env (fuel - 1) false event' c1).
Proof.
  intros Hs Hf read c1. destruct fuel as [|fuel]; [lia|].
  split; [|split].
  - intros err Hr. unfold ExtentDownEvent_Handle. rewrite Hs. simpl negb.
    rewrite handleLoop_step, handleStep_checkPrecondition by done.
    unfold checkPrecondition, ReadExtentStats, call, emit, bind, ret. by rewrite Hr.
  - intros stats Hr Hne. unfold ExtentDownEvent_Handle. rewrite Hs. simpl negb.
    rewrite handleLoop_step, handleStep_checkPrecondition by done.
    unfold checkPrecondition, ReadExtentStats, call, emit, bind, ret. rewrite Hr.
    destruct (ExtentStatus_eqb _ _) eqn:E; [by apply ExtentStatus_eqb_eq in E|done].
  - intros stats Hr Ho event'. split; [|split; [done|split; [done|]]].
    + rewrite handleStep_checkPrecondition by done.
      unfold checkPrecondition, ReadExtentStats, call, emit, bind, ret.
      by rewrite Hr, Ho.
    + replace (S fuel - 1)%nat with fuel by lia. by apply Handle_first_attempt.
Qed.

(** C3.  In the updateMetadata state: when the metadata SealExtent call
    succeeds or fails with IllegalStateError, [Handle] removes the
    extent from the failed set, moves the event to the done state and
    returns nil; any other error makes it return errRetryable, the
    event and the failed set left as they were. *)
Theorem ExtentDownEvent_updateMetadata_correct
    (fuel : nat) (event : ExtentDownEvent) (c : Ctx) :
  ede_state event = updateMetadataState ->
  (4 <= fuel)%nat ->
  let seal := Call_metadata_SealExtent (ede_dstID event) (ede_extentID event) in
  let c1 := with_trace (trace c ++ [seal]) c in
  let answer := mm_SealExtent env (ede_dstID event) (ede_extentID event) in
  ((answer = None \/ exists message, answer = Some (IllegalStateError message)) ->
     updateMetadata env event c =
       (Continue, with_state doneState event,
        with_failed (failed c ∖ {[ede_extentID event]}) c1) /\
     ExtentDownEvent_Handle env fuel event c =
       Some (None, with_state doneState event,
             with_failed (failed c ∖ {[ede_extentID event]}) c1)) /\
  (forall err, answer = Some err -> isIllegalStateError err = false ->
     ExtentDownEvent_Handle env fuel event c = Some (Some errRetryable, event, c1)).
Proof.
  intros Hs Hf seal c1 answer.
  assert (Hne : (ede_state event =? checkPreconditionState) = false).
  { rewrite Hs. reflexivity. }
  destruct fuel as [|[|fuel]]; [lia|lia|]. split.
  - intros Hok.
    assert (Hstep : updateMetadata env event c =
       (Continue, with_state doneState event,
        with_failed (failed c ∖ {[ede_extentID event]}) c1)).
    { unfold updateMetadata, metadata_SealExtent, call, emit, bind, ret, failed_Remove.
      fold answer. destruct Hok as [->|[message ->]]; reflexivity. }
    split; [done|].
    unfold ExtentDownEvent_Handle. rewrite Hne. simpl negb.
    rewrite handleLoop_step, handleStep_updateMetadata, Hstep by done.
    rewrite handleLoop_step, handleStep_done by done. reflexivity.
  - intros err He Hill. unfold ExtentDownEvent_Handle. rewrite Hne. simpl negb.
    rewrite handleLoop_step, handleStep_updateMetadata by done.
    unfold updateMetadata, metadata_SealExtent, call, emit, bind, ret.
    fold answer. rewrite He, Hill. reflexivity.
Qed.


Lemma bind_run {A B : Type} (m : M A) (k : A -> M B) (c c' : Ctx) (a : A) :
  m c = (a, c') -> bind m k c = k a c'.
Proof. intros H. unfold bind. by rewrite H. Qed.

(** *** Running the monad *)

Lemma run_bind {A B : Type} (m : M A) (k : A -> M B) (c : Ctx) :
  bind m k c = k (fst (m c)) (snd (m c)).
Proof. unfold bind. by destruct (m c). Qed.

Lemma call_run {A : Type} (call' : Call) (a : A) (c : Ctx) :
  call call' a c = (a, with_trace (trace c ++ [call']) c).
Proof. reflexivity. Qed.

Lemma sealExtentOnStore_run (storeUUID storeAddr extentID : string) (seq : Z)
    (isRetry : bool) (c : Ctx) :
  sealExtentOnStore env storeUUID storeAddr extentID seq isRetry c =
    (sealExtentOnStore_result env storeUUID storeAddr extentID seq isRetry,
     with_trace (trace c ++ sealExtentOnStore_calls env storeUUID storeAddr extentID
                              seq isRetry) c).
Proof.
  unfold sealExtentOnStore_result, sealExtentOnStore_calls, sealExtentOnStore,
    GetThriftStoreClient, ReleaseThriftStoreClient, call, emit, bind, ret.
  destruct (clientFactory_GetThriftStoreClient env storeAddr storeUUID); simpl.
  - reflexivity.
  - unfold with_trace. simpl. rewrite <- !app_assoc. reflexivity.
Qed.

Lemma sealExtentOnStore_calls_no_invalidation (storeUUID storeAddr extentID : string)
    (seq : Z) (isRetry : bool) :
  invalidations (sealExtentOnStore_calls env storeUUID storeAddr extentID seq isRetry) = [].
Proof.
  unfold sealExtentOnStore_calls, sealExtentOnStore,
    GetThriftStoreClient, ReleaseThriftStoreClient, call, emit, bind, ret.
  destruct (clientFactory_GetThriftStoreClient env storeAddr storeUUID); reflexivity.
Qed.

Lemma invalidations_app (l1 l2 : list Call) :
  invalidations (l1 ++ l2) = invalidations l1 ++ invalidations l2.
Proof. apply omap_app. Qed.

Lemma invalidations_resolve (service : string) (l : list string) :
  invalidations (map (Call_ResolveUUID service) l) = [].
Proof. induction l; [done|]. simpl. apply IHl. Qed.

Lemma invalidations_goroutines (event : ExtentDownEvent) (isRetry : bool)
    (visited : list (string * string)) :
  invalidations (flat_map (sealGoroutine_calls env event isRetry) visited) =
    map (fun kv => (fst kv, ede_extentID event))
        (filter (fun kv => sealedOn env event isRetry kv = true) visited).
Proof.
  induction visited as [|kv visited IH]; [done|].
  cbn [flat_map]. rewrite invalidations_app, IH. unfold sealGoroutine_calls at 1.
  rewrite invalidations_app, sealExtentOnStore_calls_no_invalidation.
  rewrite filter_cons. destruct (sealedOn env event isRetry kv) eqn:E.
  - rewrite decide_True by done. reflexivity.
  - rewrite decide_False by done. reflexivity.
Qed.

Lemma resolveStores_run (storeIDs : list string) (c : Ctx) :
  resolveStores env storeIDs c =
    (resolved env storeIDs,
     with_trace (trace c ++ map (Call_ResolveUUID StoreServiceName) storeIDs) c).
Proof.
  unfold resolveStores, resolved. generalize (∅ : gmap string string) as m.
  revert c. induction storeIDs as [|s l IH]; intros c m.
  - simpl. unfold ret, with_trace. rewrite app_nil_r. by destruct c.
  - simpl. unfold bind at 1. unfold ResolveUUID, call, emit, bind, ret.
    destruct (rpm_ResolveUUID env StoreServiceName s) as [addr|e]; rewrite IH;
      unfold with_trace; simpl; rewrite <- app_assoc; reflexivity.
Qed.

Lemma resolved_lookup (storeIDs : list string) (s addr : string) :
  resolved env storeIDs !! s = Some addr <->
  s ∈ storeIDs /\ rpm_ResolveUUID env StoreServiceName s = inl addr.
Proof.
  unfold resolved. induction storeIDs as [|x l IH] using rev_ind.
  - simpl. rewrite lookup_empty. split; [done|]. intros [H _]. by apply elem_of_nil in H.
  - rewrite foldl_app. simpl. rewrite elem_of_app, list_elem_of_singleton.
    destruct (rpm_ResolveUUID env StoreServiceName x) as [a|e] eqn:Hx.
    + destruct (decide (s = x)) as [->|Hne].
      * rewrite lookup_insert_eq. rewrite Hx. split.
        -- intros [= ->]. auto.
        -- intros [_ [= ->]]. done.
      * rewrite lookup_insert_ne by done. rewrite IH. split.
        -- intros [Hin Hr]. auto.
        -- intros [[Hin| ->] Hr]; [auto|done].
    + rewrite IH. split.
      * intros [Hin Hr]. auto.
      * intros [[Hin| ->] Hr]; [auto|congruence].
Qed.

Lemma wrap32_small (z : Z) : - 2 ^ 31 <= z < 2 ^ 31 -> wrap 32 z = z.
Proof. unfold wrap. intros H. rewrite Z.mod_small; lia. Qed.

(** The [int32] counter after [k] successes. *)
Lemma nSuccess_count (k : nat) :
  Z.of_nat k < 2 ^ 31 -> Nat.iter k (fun n => int32_add n 1) 0 = Z.of_nat k.
Proof.
  induction k as [|k IH]; intros Hk; [done|].
  rewrite Nat.iter_succ, IH by lia. unfold int32_add. rewrite wrap32_small; lia.
Qed.

Lemma sealOnStores_from (event : ExtentDownEvent) (isRetry : bool)
    (visited : list (string * string)) :
  forall (n : Z) (c : Ctx),
    foldEach (fun (nSuccess : Z) (kv : string * string) =>
      bind (sealExtentOnStore env (fst kv) (snd kv) (ede_extentID event)
              (ede_sealSeq event) isRetry)
        (fun e => match e with
                  | None =>
                    bind (invalidateStoreExtentCache (fst kv) (ede_extentID event))
                      (fun _ => ret (int32_add nSuccess 1))
                  | Some _ => ret nSuccess
                  end)) n visited c =
      (Nat.iter (length (filter (fun kv => sealedOn env event isRetry kv = true) visited))
         (fun n => int32_add n 1) n,
       with_trace (trace c ++ flat_map (sealGoroutine_calls env event isRetry) visited) c).
Proof.
  induction visited as [|kv visited IH]; intros n c.
  - simpl. unfold ret, with_trace. rewrite app_nil_r. by destruct c.
  - cbn [foldEach flat_map]. rewrite filter_cons.
    assert (Hs : sealedOn env event isRetry kv =
                 match sealExtentOnStore_result env kv.1 kv.2 (ede_extentID event)
                         (ede_sealSeq event) isRetry with
                 | None => true | Some _ => false end) by reflexivity.
    assert (Hg : sealGoroutine_calls env event isRetry kv =
                 sealExtentOnStore_calls env kv.1 kv.2 (ede_extentID event)
                   (ede_sealSeq event) isRetry ++
                 (if sealedOn env event isRetry kv
                  then [Call_invalidateStoreExtentCache kv.1 (ede_extentID event)]
                  else [])) by reflexivity.
    destruct (sealExtentOnStore_result env kv.1 kv.2 (ede_extentID event)
                (ede_sealSeq event) isRetry) as [e|] eqn:Hres.
    + erewrite bind_run; cycle 1.
      { unfold bind. rewrite sealExtentOnStore_run, Hres. reflexivity. }
      rewrite IH, Hg. rewrite decide_False by (by rewrite Hs). rewrite Hs.
      unfold with_trace. simpl. rewrite app_nil_r, <- !app_assoc. reflexivity.
    + erewrite bind_run; cycle 1.
      { unfold bind. rewrite sealExtentOnStore_run, Hres.
        unfold invalidateStoreExtentCache, emit, ret. reflexivity. }
      rewrite IH, Hg. rewrite decide_True by (by rewrite Hs). rewrite Hs.
      cbn [length]. rewrite Nat.iter_succ_r.
      unfold with_trace. simpl. rewrite <- !app_assoc. reflexivity.
Qed.

(** The counter of successes after the goroutines of [visited]. *)
Lemma sealOnStores_run (event : ExtentDownEvent) (isRetry : bool)
    (visited : list (string * string)) (c : Ctx) :
  sealOnStores env event isRetry visited c =
    (Nat.iter (length (filter (fun kv => sealedOn env event isRetry kv = true) visited))
       (fun n => int32_add n 1) 0,
     with_trace (trace c ++ flat_map (sealGoroutine_calls env event isRetry) visited) c).
Proof. apply sealOnStores_from. Qed.


(** *** Cleanup of ExtentDownEvent *)

(** Whatever the error, [Done] takes the extent out of the in-progress
    set and leaves the other members alone. *)
Lemma ExtentDownEvent_Done_inProgress (event : ExtentDownEvent) (err : option error)
    (c : Ctx) :
  inProgress (snd (ExtentDownEvent_Done env event err c)) =
    inProgress c ∖ {[ede_extentID event]}.
Proof.
  unfold ExtentDownEvent_Done, bind, failed_Size, failed_Put, inProgress_Remove, ret.
  destruct err as [e|]; [|reflexivity].
  destruct (_ >? _); reflexivity.
Qed.

(** [Done] never lets the failed set grow beyond one more than
    [maxFailedExtentSealSetSize]. *)
Lemma ExtentDownEvent_Done_failed_bound (event : ExtentDownEvent) (err : option error)
    (c : Ctx) :
  0 <= maxFailedExtentSealSetSize env ->
  Z.of_nat (size (failed c)) <= maxFailedExtentSealSetSize env + 1 ->
  Z.of_nat (size (failed (snd (ExtentDownEvent_Done env event err c)))) <=
    maxFailedExtentSealSetSize env + 1.
Proof.
  intros Hmax Hc.
  unfold ExtentDownEvent_Done, bind, failed_Size, failed_Put, inProgress_Remove, ret.
  destruct err as [e|]; [|done].
  destruct (Z.gtb_spec (Z.of_nat (size (failed c))) (maxFailedExtentSealSetSize env));
    [done|]. simpl.
  pose proof (size_union_alt ({[ede_extentID event]} : gset string) (failed c)) as Hu.
  rewrite Hu, size_singleton.
  assert (size (failed c ∖ {[ede_extentID event]}) <= size (failed c))%nat.
  { apply subseteq_size. intros x Hx. apply elem_of_difference in Hx. tauto. }
  lia.
Qed.

(** C4.  [Done] with an error, called while the failed set holds
    exactly [maxFailedExtentSealSetSize] extents and not yet this one:
    the extent is inserted all the same, so that the set ends one over
    its capacity; the extent leaves the in-progress set. *)
Theorem ExtentDownEvent_Done_overflows_failed
    (event : ExtentDownEvent) (err : error) (c : Ctx) :
  Z.of_nat (size (failed c)) = maxFailedExtentSealSetSize env ->
  ede_extentID event ∉ failed c ->
  let c' := snd (ExtentDownEvent_Done env event (Some err) c) in
  failed c' = {[ede_extentID event]} ∪ failed c /\
  Z.of_nat (size (failed c')) = maxFailedExtentSealSetSize env + 1 /\
  ede_extentID event ∉ inProgress c'.
Proof.
  intros Hfull Hnew c'.
  assert (Hf : failed c' = {[ede_extentID event]} ∪ failed c).
  { unfold c', ExtentDownEvent_Done, bind, failed_Size, failed_Put, inProgress_Remove, ret.
    destruct (Z.gtb_spec (Z.of_nat (size (failed c))) (maxFailedExtentSealSetSize env));
      [lia|reflexivity]. }
  split; [done|]. split.
  - rewrite Hf, size_union, size_singleton by (by apply disjoint_singleton_l). lia.
  - unfold c'. rewrite ExtentDownEvent_Done_inProgress.
    rewrite elem_of_difference, elem_of_singleton. tauto.
Qed.

(** *** Result cache refresh *)

Lemma wrap64_small (z : Z) : int64_min <= z <= int64_max -> wrap 64 z = z.
Proof.
  unfold wrap, int64_min, int64_max. intros H.
  rewrite Z.mod_small; lia.
Qed.

(** C9 (amended).  [triggerCacheRefreshForCG] reads the cache entry of
    the consumer group.  On a miss, on an entry marked for refresh, and
    on an entry whose expiry is strictly before now + 500 ms, the cache
    is not written.  On a hit not marked for refresh whose expiry is at
    now + 500 ms or later, the entry is rewritten with expiry = now and
    the dstType, nExtents and hostIDs of the entry read. *)
Theorem triggerCacheRefreshForCG_correct (cgID : string) (c : Ctx) :
  int64_min <= clock c ->
  clock c + resultCacheRefreshMaxWaitTime <= int64_max ->
  let now := clock c in
  let result := resultCache_readOutputHosts env (resultCache c) cgID now in
  let c1 := with_trace (trace c ++ [Call_readOutputHosts cgID now]) c in
  let entry := mkResultCacheParams (entry_dstType result) (entry_nExtents result)
                 (entry_hostIDs result) now in
  let c' := snd (triggerCacheRefreshForCG env cgID c) in
  ((cacheHit result = false \/ refreshCache result = true) -> c' = c1) /\
  (cacheHit result = true -> refreshCache result = false ->
   expiry result < now + resultCacheRefreshMaxWaitTime -> c' = c1) /\
  (cacheHit result = true -> refreshCache result = false ->
   now + resultCacheRefreshMaxWaitTime <= expiry result ->
   c' = with_trace (trace c1 ++ [Call_resultCache_write cgID entry])
          (with_resultCache (<[cgID := entry]> (resultCache c)) c1)).
Proof.
  intros Hlo Hhi now result c1 entry c'.
  assert (Hd : int64_add now resultCacheRefreshMaxWaitTime =
               now + resultCacheRefreshMaxWaitTime).
  { unfold int64_add. apply wrap64_small. unfold now.
    unfold resultCacheRefreshMaxWaitTime, Millisecond in *. lia. }
  assert (Hrun : c' =
    snd ((if negb (cacheHit result) || refreshCache result then ret tt
          else if expiry result <? now + resultCacheRefreshMaxWaitTime then ret tt
          else resultCache_write cgID entry) c1)).
  { unfold c', triggerCacheRefreshForCG, time_Now, readOutputHosts, call, emit, bind, ret.
    fold now result. rewrite Hd. reflexivity. }
  split; [|split].
  - intros [Hm|Hr]; rewrite Hrun.
    + by rewrite Hm.
    + rewrite Hr, orb_true_r. done.
  - intros Hh Hr Hlt. rewrite Hrun, Hh, Hr. simpl.
    destruct (Z.ltb_spec (expiry result) (now + resultCacheRefreshMaxWaitTime)); [done|lia].
  - intros Hh Hr Hge. rewrite Hrun, Hh, Hr. simpl.
    destruct (Z.ltb_spec (expiry result) (now + resultCacheRefreshMaxWaitTime)); [lia|].
    reflexivity.
Qed.


(** *** Replication kickoff of a remote-zone extent *)

Lemma with_trace_nil (c : Ctx) : with_trace (trace c ++ []) c = c.
Proof. unfold with_trace. rewrite app_nil_r. by destruct c. Qed.

Lemma with_trace_app (c : Ctx) (l1 l2 : list Call) :
  with_trace (trace (with_trace (trace c ++ l1) c) ++ l2) (with_trace (trace c ++ l1) c) =
  with_trace (trace c ++ l1 ++ l2) c.
Proof. unfold with_trace. simpl. by rewrite <- app_assoc. Qed.

(** The loop over the secondaries, entered at index [length started]
    with the stores of [secondaries] still to go, runs exactly
    [secondariesRun]: no index is out of range. *)
Lemma replicateOnSecondaries_run (event : RemoteZoneExtentCreatedEvent)
    (primary : string) (secondaries : list string) :
  forall (started : list string) (c : Ctx),
    rze_storeIDs event = started ++ secondaries ->
    replicateOnSecondaries env event primary (length started) (length secondaries) c =
      (Returns (snd (secondariesRun env event primary secondaries)),
       with_trace (trace c ++ fst (secondariesRun env event primary secondaries)) c).
Proof.
  induction secondaries as [|s rest IH]; intros started c Hids.
  - simpl. unfold ret. by rewrite with_trace_nil.
  - cbn [replicateOnSecondaries length secondariesRun].
    assert (Hlook : rze_storeIDs event !! length started = Some s).
    { rewrite Hids. by rewrite list_lookup_middle. }
    rewrite Hlook. unfold secondaryAttempt.
    unfold ResolveUUID, GetThriftStoreClient, call, emit, bind, ret.
    destruct (rpm_ResolveUUID env StoreServiceName s) as [addr|e]; [|reflexivity].
    destruct (clientFactory_GetThriftStoreClient env addr s) as [e|]; simpl.
    { unfold with_trace. simpl. by rewrite <- !app_assoc. }
    destruct (store_ReplicateExtent env _ _ _) as [e|]; simpl.
    { unfold with_trace. simpl. by rewrite <- !app_assoc. }
    specialize (IH (started ++ [s])). rewrite length_app in IH. simpl in IH.
    replace (length started + 1)%nat with (S (length started)) in IH by lia.
    rewrite IH by (by rewrite <- app_assoc).
    unfold with_trace. simpl. by rewrite <- !app_assoc.
Qed.

Lemma RemoteZoneExtentCreatedEvent_Handle_run (event : RemoteZoneExtentCreatedEvent)
    (primary : string) (secondaries : list string) (c : Ctx) :
  rze_storeIDs event = primary :: secondaries ->
  RemoteZoneExtentCreatedEvent_Handle env event c =
    match snd (primaryAttempt env event primary) with
    | Some err =>
      (Returns (Some err), with_trace (trace c ++ fst (primaryAttempt env event primary)) c)
    | None =>
      (Returns (snd (secondariesRun env event primary secondaries)),
       with_trace (trace c ++ fst (primaryAttempt env event primary) ++
                   fst (secondariesRun env event primary secondaries)) c)
    end.
Proof.
  intros Hids. unfold RemoteZoneExtentCreatedEvent_Handle. rewrite Hids.
  change ((primary :: secondaries) !! 0%nat) with (Some primary). cbv beta iota.
  unfold primaryAttempt, ResolveUUID, GetThriftStoreClient, call, emit, bind, ret.
  destruct (rpm_ResolveUUID env StoreServiceName primary) as [addr|e]; [|reflexivity].
  destruct (clientFactory_GetThriftStoreClient env addr primary) as [e|]; simpl.
  { unfold with_trace. simpl. by rewrite <- !app_assoc. }
  destruct (store_RemoteReplicateExtent env _ _ _) as [e|]; simpl.
  { unfold with_trace. simpl. by rewrite <- !app_assoc. }
  replace (length secondaries - 0)%nat with (length secondaries) by lia.
  pose proof (replicateOnSecondaries_run event primary secondaries [primary]) as Hrun.
  simpl in Hrun. rewrite Hrun by (by rewrite <- Hids).
  unfold with_trace. simpl. by rewrite <- !app_assoc.
Qed.

Lemma secondariesRun_all_started (event : RemoteZoneExtentCreatedEvent)
    (primary : string) (secondaries : list string) :
  (forall s, s ∈ secondaries -> snd (secondaryAttempt env event primary s) = None) ->
  secondariesRun env event primary secondaries =
    (flat_map (fun s => fst (secondaryAttempt env event primary s)) secondaries, None).
Proof.
  induction secondaries as [|s rest IH]; intros Hok; [done|].
  cbn [secondariesRun flat_map]. rewrite (Hok s) by (by left).
  rewrite IH; [done|]. intros x Hx. apply Hok. by right.
Qed.

Lemma secondariesRun_first_failure (event : RemoteZoneExtentCreatedEvent)
    (primary : string) (started : list string) (s : string) (later : list string)
    (err : error) :
  (forall x, x ∈ started -> snd (secondaryAttempt env event primary x) = None) ->
  snd (secondaryAttempt env event primary s) = Some err ->
  secondariesRun env event primary (started ++ s :: later) =
    (flat_map (fun x => fst (secondaryAttempt env event primary x)) started ++
     fst (secondaryAttempt env event primary s), Some err).
Proof.
  induction started as [|x rest IH]; intros Hok Hfail.
  - cbn [app secondariesRun flat_map]. by rewrite Hfail.
  - cbn [app secondariesRun flat_map]. rewrite (Hok x) by (by left).
    rewrite IH; [|intros y Hy; apply Hok; by right|done].
    simpl. by rewrite <- app_assoc.
Qed.

(** C8.  For an event with a non-empty list of stores, primary first:
    when the primary does not resolve [Handle] returns errRetryable,
    when no client is obtained or RemoteReplicateExtent fails it
    returns that error, and in the three cases the run has issued
    nothing beyond the calls to the primary.  Once the primary is
    started the secondaries are taken in list order: each one started
    is sent ReplicateExtent with the primary as source store; at the
    first secondary that fails [Handle] returns its error
    (errRetryable when it does not resolve) and the run has issued
    calls to the primary, to the secondaries started before it and to
    it, and none to the later ones; when none fails [Handle] returns
    nil. *)
Theorem RemoteZoneExtentCreatedEvent_Handle_correct
    (event : RemoteZoneExtentCreatedEvent) (primary : string)
    (secondaries : list string) (c : Ctx) :
  rze_storeIDs event = primary :: secondaries ->
  let run := RemoteZoneExtentCreatedEvent_Handle env event c in
  let issued := fun calls => snd run = with_trace (trace c ++ calls) c in
  let resolve := Call_ResolveUUID StoreServiceName in
  let remoteReplicate := fun addr =>
    Call_RemoteReplicateExtent (mkStoreClient addr primary)
      (mkRemoteReplicateExtentRequest (rze_dstID event) (rze_extentID event))
      replicateExtentCallTimeout in
  let replicate := fun s addr =>
    Call_ReplicateExtent (mkStoreClient addr s)
      (mkReplicateExtentRequest (rze_dstID event) (rze_extentID event) primary)
      replicateExtentCallTimeout in
  let primaryStarted := fun addr =>
    rpm_ResolveUUID env StoreServiceName primary = inl addr /\
    clientFactory_GetThriftStoreClient env addr primary = None /\
    store_RemoteReplicateExtent env (mkStoreClient addr primary)
      (mkRemoteReplicateExtentRequest (rze_dstID event) (rze_extentID event))
      replicateExtentCallTimeout = None in
  let attempt := secondaryAttempt env event primary in
  (* the primary *)
  (forall e, rpm_ResolveUUID env StoreServiceName primary = inr e ->
     fst run = Returns (Some errRetryable) /\ issued [resolve primary]) /\
  (forall addr err, rpm_ResolveUUID env StoreServiceName primary = inl addr ->
     clientFactory_GetThriftStoreClient env addr primary = Some err ->
     fst run = Returns (Some err) /\
     issued [resolve primary; Call_GetThriftStoreClient addr primary]) /\
  (forall addr err, rpm_ResolveUUID env StoreServiceName primary = inl addr ->
     clientFactory_GetThriftStoreClient env addr primary = None ->
     store_RemoteReplicateExtent env (mkStoreClient addr primary)
       (mkRemoteReplicateExtentRequest (rze_dstID event) (rze_extentID event))
       replicateExtentCallTimeout = Some err ->
     fst run = Returns (Some err) /\
     issued [resolve primary; Call_GetThriftStoreClient addr primary;
             remoteReplicate addr]) /\
  (* the secondaries *)
  (forall addr, primaryStarted addr ->
     let primaryCalls := [resolve primary; Call_GetThriftStoreClient addr primary;
                          remoteReplicate addr] in
     (forall started s later err,
        secondaries = started ++ s :: later ->
        (forall x, x ∈ started -> snd (attempt x) = None) ->
        snd (attempt s) = Some err ->
        fst run = Returns (Some err) /\
        issued (primaryCalls ++ flat_map (fun x => fst (attempt x)) started ++
                fst (attempt s))) /\
     ((forall x, x ∈ secondaries -> snd (attempt x) = None) ->
        fst run = Returns None /\
        issued (primaryCalls ++ flat_map (fun x => fst (attempt x)) secondaries))) /\
  (* what one attempt at a secondary is *)
  (forall s,
     (forall call, call ∈ fst (attempt s) -> callStore call = Some s) /\
     (snd (attempt s) = None ->
        exists addr, fst (attempt s) =
          [resolve s; Call_GetThriftStoreClient addr s; replicate s addr]) /\
     (forall e, rpm_ResolveUUID env StoreServiceName s = inr e ->
        attempt s = ([resolve s], Some errRetryable))).
Proof.
  intros Hids run issued resolve remoteReplicate replicate primaryStarted attempt.
  pose proof (RemoteZoneExtentCreatedEvent_Handle_run event primary secondaries c Hids)
    as Hrun. fold run in Hrun.
  split; [|split; [|split; [|split]]].
  - intros e He. unfold primaryAttempt in Hrun. rewrite He in Hrun. simpl in Hrun.
    unfold issued. by rewrite Hrun.
  - intros addr err Hr Hc. unfold primaryAttempt in Hrun. rewrite Hr, Hc in Hrun.
    simpl in Hrun. unfold issued. by rewrite Hrun.
  - intros addr err Hr Hc Hrpc. unfold primaryAttempt in Hrun.
    rewrite Hr, Hc in Hrun. simpl in Hrun. rewrite Hrpc in Hrun.
    unfold issued. by rewrite Hrun.
  - intros addr (Hr & Hc & Hrpc) primaryCalls.
    unfold primaryAttempt in Hrun. rewrite Hr, Hc in Hrun. simpl in Hrun.
    rewrite Hrpc in Hrun. split.
    + intros started s later err Hsec Hok Hfail.
      rewrite Hsec, (secondariesRun_first_failure event primary started s later err)
        in Hrun by done.
      unfold issued. by rewrite Hrun.
    + intros Hok. rewrite secondariesRun_all_started in Hrun by done.
      unfold issued. by rewrite Hrun.
  - intros s. unfold attempt, secondaryAttempt.
    destruct (rpm_ResolveUUID env StoreServiceName s) as [addr|e] eqn:Hr.
    + destruct (clientFactory_GetThriftStoreClient env addr s) as [e|] eqn:Hc; simpl.
      * split; [|split; [done|done]].
        intros call Hin. repeat (apply elem_of_cons in Hin as [->|Hin]; [done|]).
        by apply elem_of_nil in Hin.
      * split; [|split; [by exists addr|done]].
        intros call Hin. repeat (apply elem_of_cons in Hin as [->|Hin]; [done|]).
        by apply elem_of_nil in Hin.
    + simpl. split; [|split; [done|done]].
      intros call Hin. repeat (apply elem_of_cons in Hin as [->|Hin]; [done|]).
      by apply elem_of_nil in Hin.
Qed.

(** C10.  An event made by [NewRemoteZoneExtentCreatedEvent] keeps the
    list of stores it is given, empty or not; [Handle] reads
    [storeIDs[0]] first: on an empty list it panics with an index out
    of range before any call is issued, on a non-empty list no index
    is out of range and [Handle] returns. *)
Theorem RemoteZoneExtentCreatedEvent_Handle_index_bounds
    (dstID extentID : string) (storeIDs : list string)
    (event : RemoteZoneExtentCreatedEvent) (c : Ctx) :
  NewRemoteZoneExtentCreatedEvent dstID extentID storeIDs =
    EvRemoteZoneExtentCreated event ->
  rze_storeIDs event = storeIDs /\
  (storeIDs = [] ->
     RemoteZoneExtentCreatedEvent_Handle env event c = (Panics "index out of range", c)) /\
  (storeIDs <> [] ->
     exists err, fst (RemoteZoneExtentCreatedEvent_Handle env event c) = Returns err).
Proof.
  intros [= <-]. simpl. split; [done|]. split.
  - intros ->. reflexivity.
  - intros Hne. destruct storeIDs as [|primary secondaries]; [done|].
    rewrite (RemoteZoneExtentCreatedEvent_Handle_run _ primary secondaries) by done.
    destruct (snd (primaryAttempt env _ primary)); eauto.
Qed.


(** *** The event queue *)

Lemma Add_accepted (e : Event) (c : Ctx) :
  (length (pipeline c) < queueCapacity env)%nat ->
  Add env e c =
    (true, with_trace (trace c ++ [Call_Add e true]) (with_pipeline (pipeline c ++ [e]) c)).
Proof.
  intros H. unfold Add. apply Nat.ltb_lt in H. rewrite H.
  unfold call, emit, bind, ret. reflexivity.
Qed.

Lemma Add_rejected (e : Event) (c : Ctx) :
  (queueCapacity env <= length (pipeline c))%nat ->
  Add env e c = (false, with_trace (trace c ++ [Call_Add e false]) c).
Proof.
  intros H. unfold Add. apply Nat.ltb_ge in H. rewrite H.
  unfold call, emit, bind, ret. reflexivity.
Qed.

Lemma offers_app (l1 l2 : list Call) : offers (l1 ++ l2) = offers l1 ++ offers l2.
Proof. apply omap_app. Qed.

Lemma enqueuesOnly_ret {A : Type} (P : Event -> Prop) (a : A) : enqueuesOnly P (ret a).
Proof. intros c. exists []. by rewrite app_nil_r. Qed.

Lemma enqueuesOnly_bind {A B : Type} (P : Event -> Prop) (m : M A) (k : A -> M B) :
  enqueuesOnly P m -> (forall a, enqueuesOnly P (k a)) -> enqueuesOnly P (bind m k).
Proof.
  intros Hm Hk c. unfold bind. destruct (Hm c) as (o1 & H1 & F1).
  destruct (m c) as [a c1]. destruct (Hk a c1) as (o2 & H2 & F2).
  exists (o1 ++ o2). simpl in *. rewrite H2, H1, app_assoc. split; [done|].
  by apply Forall_app.
Qed.

Lemma enqueuesOnly_call {A : Type} (P : Event -> Prop) (call' : Call) (a : A) :
  enqueuesOnly P (call call' a).
Proof. intros c. exists []. by rewrite app_nil_r. Qed.

Lemma enqueuesOnly_forEach {A : Type} (P : Event -> Prop) (body : A -> M unit)
    (xs : list A) :
  (forall x, enqueuesOnly P (body x)) -> enqueuesOnly P (forEach body xs).
Proof.
  intros Hb. induction xs as [|x xs IH]; simpl.
  - apply enqueuesOnly_ret.
  - apply enqueuesOnly_bind; [apply Hb|]. intros _. apply IH.
Qed.

Lemma enqueuesOnly_Add (P : Event -> Prop) (e : Event) : P e -> enqueuesOnly P (Add env e).
Proof.
  intros He c. unfold Add. destruct (_ <? _)%nat.
  - exists [e]. split; [done|]. by constructor.
  - exists []. by rewrite app_nil_r.
Qed.

Lemma enqueuesOnly_triggerCacheRefreshForCG (P : Event -> Prop) (cgID : string) :
  enqueuesOnly P (triggerCacheRefreshForCG env cgID).
Proof.
  intros c. exists []. rewrite app_nil_r. split; [|done].
  unfold triggerCacheRefreshForCG, time_Now, readOutputHosts, resultCache_write,
    call, emit, bind, ret.
  destruct (negb _ || _); [done|]. destruct (_ <? _); done.
Qed.

Lemma enqueuesOnly_reconfigureAllConsumers (dstID extentID reason reasonContext : string) :
  enqueuesOnly isOutputHostNotification
    (reconfigureAllConsumers env dstID extentID reason reasonContext).
Proof.
  unfold reconfigureAllConsumers. apply enqueuesOnly_bind; [apply enqueuesOnly_call|].
  intros r. apply enqueuesOnly_forEach. intros cgd. unfold reconfigureConsumerGroup.
  destruct (negb _); [apply enqueuesOnly_ret|].
  apply enqueuesOnly_bind; [apply enqueuesOnly_call|].
  intros [extents|e]; [|apply enqueuesOnly_ret].
  apply enqueuesOnly_bind; [|intros _; apply enqueuesOnly_triggerCacheRefreshForCG].
  apply enqueuesOnly_forEach. intros kv.
  apply enqueuesOnly_bind; [|intros _; apply enqueuesOnly_ret].
  apply enqueuesOnly_Add. unfold NewOutputHostNotificationEvent. by eexists.
Qed.

(** Offering a list of events one after the other: all of them are
    offered, those that fit are enqueued. *)
Lemma forEach_Add_run {K : Type} (mk : K -> Event) (ks : list K) :
  forall c : Ctx,
    let c' := snd (forEach (fun k => bind (Add env (mk k)) (fun _ => ret tt)) ks c) in
    pipeline c' =
      pipeline c ++ take (queueCapacity env - length (pipeline c)) (map mk ks) /\
    offers (trace c') = offers (trace c) ++ map mk ks.
Proof.
  induction ks as [|k ks IH]; intros c.
  - simpl. rewrite take_nil, !app_nil_r. done.
  - cbn [forEach].
    destruct (Nat.ltb_spec (length (pipeline c)) (queueCapacity env)) as [Hlt|Hge].
    + erewrite bind_run;
        [|unfold bind at 1; rewrite Add_accepted by done; unfold ret; reflexivity].
      match goal with |- context [forEach _ ks ?c1] =>
        destruct (IH c1) as [Hp Ho] end.
      cbv zeta. rewrite Hp, Ho. cbn [pipeline trace with_trace with_pipeline].
      rewrite length_app, offers_app. cbn [length offers omap].
      replace (queueCapacity env - length (pipeline c))%nat
        with (S (queueCapacity env - (length (pipeline c) + 1)))%nat by lia.
      cbn [take map]. rewrite <- !app_assoc. done.
    + erewrite bind_run;
        [|unfold bind at 1; rewrite Add_rejected by done; unfold ret; reflexivity].
      match goal with |- context [forEach _ ks ?c1] =>
        destruct (IH c1) as [Hp Ho] end.
      cbv zeta. rewrite Hp, Ho. cbn [pipeline trace with_trace with_pipeline].
      rewrite offers_app. cbn [offers omap].
      replace (queueCapacity env - length (pipeline c))%nat with 0%nat by lia.
      cbn [take map]. rewrite <- !app_assoc. done.
Qed.


(** *** Host failures *)

Lemma createExtentDownEvents_offers (stats : list ExtentStats) :
  createExtentDownEvents env stats =
    forEach (fun stat => bind (Add env (extentDownEventFor stat)) (fun _ => ret tt))
      (localExtents env stats).
Proof.
  unfold createExtentDownEvents, localExtents.
  induction stats as [|stat stats IH]; [done|].
  cbn [forEach]. rewrite filter_cons, IH.
  destruct (IsRemoteZoneExtent env (OriginZone (GetExtent stat)) (localZone env)) eqn:E.
  - rewrite decide_False by done. reflexivity.
  - rewrite decide_True by done. reflexivity.
Qed.

Lemma createExtentDownEvents_run (stats : list ExtentStats) :
  forall c : Ctx,
    let c' := snd (createExtentDownEvents env stats c) in
    pipeline c' =
      pipeline c ++ take (queueCapacity env - length (pipeline c))
                         (map extentDownEventFor (localExtents env stats)) /\
    offers (trace c') = offers (trace c) ++ map extentDownEventFor (localExtents env stats).
Proof.
  intros c. cbv zeta. rewrite createExtentDownEvents_offers. apply forEach_Add_run.
Qed.

(** C7 (amended).  For an InputHostFailedEvent and for a
    StoreHostFailedEvent: when the listing of the OPEN extents of the
    failed host succeeds, [Handle] returns nil, offers to the queue, in
    the order of the listing, one ExtentDownEvent with sealSeq = 0 and
    the destination and extent uuids of the extent for each listed
    extent that is not a remote-zone extent, and none for a remote-zone
    extent; the queue takes those it has room for, all of them when it
    has room for all.  When the listing fails, [Handle] returns nil and
    has issued the listing and nothing else. *)
Theorem HostFailedEvent_Handle_correct (c : Ctx) :
  let outcome := fun (listing : list ExtentStats + error) (listCall : Call)
                     (run : option error * Ctx) =>
    fst run = None /\
    (forall stats, listing = inl stats ->
       let downs := map extentDownEventFor (localExtents env stats) in
       offers (trace (snd run)) = offers (trace c) ++ downs /\
       pipeline (snd run) =
         pipeline c ++ take (queueCapacity env - length (pipeline c)) downs /\
       ((length (pipeline c) + length downs <= queueCapacity env)%nat ->
          pipeline (snd run) = pipeline c ++ downs)) /\
    (forall err, listing = inr err -> snd run = with_trace (trace c ++ [listCall]) c) in
  (forall event : InputHostFailedEvent,
     outcome (mm_ListExtentsByInputIDStatus env (ihf_hostUUID event) (Some ExtentStatus_OPEN))
       (Call_ListExtentsByInputIDStatus (ihf_hostUUID event) (Some ExtentStatus_OPEN))
       (InputHostFailedEvent_Handle env event c)) /\
  (forall event : StoreHostFailedEvent,
     outcome (mm_ListExtentsByStoreIDStatus env (shf_hostUUID event) (Some ExtentStatus_OPEN))
       (Call_ListExtentsByStoreIDStatus (shf_hostUUID event) (Some ExtentStatus_OPEN))
       (StoreHostFailedEvent_Handle env event c)).
Proof.
  assert (Hgen : forall (listing : list ExtentStats + error) (listCall : Call),
    offers [listCall] = [] ->
    let run := bind (call listCall listing)
                 (fun r => match r with
                           | inr _ => ret (None : option error)
                           | inl stats =>
                             bind (createExtentDownEvents env stats)
                               (fun _ => ret (None : option error))
                           end) c in
    fst run = None /\
    (forall stats, listing = inl stats ->
       let downs := map extentDownEventFor (localExtents env stats) in
       offers (trace (snd run)) = offers (trace c) ++ downs /\
       pipeline (snd run) =
         pipeline c ++ take (queueCapacity env - length (pipeline c)) downs /\
       ((length (pipeline c) + length downs <= queueCapacity env)%nat ->
          pipeline (snd run) = pipeline c ++ downs)) /\
    (forall err, listing = inr err -> snd run = with_trace (trace c ++ [listCall]) c)).
  { intros listing listCall Hcall run. unfold run. rewrite run_bind, call_run.
    cbn [fst snd].
    destruct listing as [stats|e].
    - rewrite run_bind. unfold ret. cbn [fst snd]. split; [done|].
      split; [|intros err [=]]. intros stats' [= <-].
      pose proof (createExtentDownEvents_run stats
                    (with_trace (trace c ++ [listCall]) c)) as [Hp Ho].
      cbn [pipeline trace with_trace] in Hp, Ho.
      rewrite offers_app, Hcall, app_nil_r in Ho.
      split; [done|]. split; [done|].
      intros Hroom. rewrite Hp. rewrite take_ge by lia. done.
    - unfold ret. cbn [fst snd]. split; [done|]. split; [intros stats [=]|done]. }
  intros outcome. split; intros event; by apply Hgen.
Qed.

(** *** ExtentCreatedEvent *)

(** C6.  [ExtentCreatedEvent.Handle] run while the queue is full: the
    ALL notification to the originating input host is rejected and
    [Handle] returns nil at once; the run has issued the listing of the
    OPEN extents and that one offer, and nothing else: no CLIENT
    notification is offered and reconfigureAllConsumers is not run. *)
Theorem ExtentCreatedEvent_Handle_stops_when_queue_full
    (event : ExtentCreatedEvent) (c : Ctx) :
  (queueCapacity env <= length (pipeline c))%nat ->
  ExtentCreatedEvent_Handle env event c =
    (None,
     with_trace
       (trace c ++
        [Call_ListExtentsByDstIDStatus (ece_dstID event) [ExtentStatus_OPEN];
         Call_Add (NewInputHostNotificationEvent (ece_dstID event) (ece_inHostID event)
                     (ece_extentID event) (ece_storeIDs event) notifyExtentCreated
                     (ece_extentID event) NotificationType_ALL) false]) c).
Proof.
  intros Hfull. unfold ExtentCreatedEvent_Handle, ListExtentsByDstIDStatus, call, emit.
  unfold bind at 1 2. unfold ret at 1. unfold bind at 1.
  rewrite Add_rejected by done. simpl negb. cbv iota. unfold ret.
  unfold with_trace. cbn. rewrite <- app_assoc. reflexivity.
Qed.

(** The sibling handler goes on after the same rejection: it still
    offers the CLIENT notifications to the other output hosts. *)
Lemma ConsGroupUpdatedEvent_Handle_goes_on_when_queue_full
    (event : ConsGroupUpdatedEvent) (c : Ctx) (cgExtents : list ConsumerGroupExtent) :
  (queueCapacity env <= length (pipeline c))%nat ->
  mm_ListExtentsByConsumerGroup env (cgu_dstID event) (cgu_consGroupID event)
    [ConsumerGroupExtentStatus_OPEN] = inl cgExtents ->
  let hosts :=
    (rangeMap env
       (delete (cgu_outputHostID event)
          (foldl (fun m cge => <[GetOutputHostUUID cge := true]> m)
             (<[cgu_outputHostID event := true]> (∅ : gmap string bool)) cgExtents))).*1 in
  let notify := fun host type =>
    NewOutputHostNotificationEvent (cgu_dstID event) (cgu_consGroupID event) host
      notifyCGExtUpdated (cgu_extentID event) type in
  offers (trace (snd (ConsGroupUpdatedEvent_Handle env event c))) =
    offers (trace c) ++ notify (cgu_outputHostID event) NotificationType_ALL ::
    map (fun h => notify h NotificationType_CLIENT) hosts.
Proof.
  intros Hfull Hlist hosts notify.
  unfold ConsGroupUpdatedEvent_Handle. rewrite run_bind.
  unfold ListExtentsByConsumerGroup. rewrite call_run, Hlist. cbn [fst snd].
  rewrite run_bind, Add_rejected by done. cbn [fst snd].
  rewrite run_bind. unfold ret at 1. cbn [snd].
  match goal with |- context [forEach ?body ?ks ?c1] =>
    pose proof (forEach_Add_run (fun kv : string * bool => notify kv.1 NotificationType_CLIENT)
                  ks c1) as [_ Ho] end.
  cbv zeta in Ho. unfold notify in Ho. rewrite Ho. cbn [trace with_trace].
  rewrite !offers_app. cbn [offers omap]. rewrite app_nil_r, <- app_assoc. cbn [app].
  unfold hosts. rewrite <- list_fmap_compose. reflexivity.
Qed.


Lemma dom_foldl_insert {A : Type} (f : A -> string) (l : list A) :
  forall m : gmap string bool,
    dom (foldl (fun m x => <[f x := true]> m) m l) = dom m ∪ list_to_set (map f l).
Proof.
  induction l as [|x l IH]; intros m; simpl.
  - by rewrite union_empty_r_L.
  - rewrite IH, dom_insert_L. apply set_eq. intros h.
    rewrite !elem_of_union. tauto.
Qed.


(** *** Handlers that range over a Go map *)

Section MapRange.

Hypothesis range_ok : range_visits_each_once env.



Lemma rangeMap_Permutation {V : Type} (m : gmap string V) :
  rangeMap env m ≡ₚ map_to_list m.
Proof. apply range_ok. Qed.

Lemma rangeMap_NoDup {V : Type} (m : gmap string V) : NoDup (rangeMap env m).*1.
Proof. rewrite rangeMap_Permutation. apply NoDup_fst_map_to_list. Qed.

Lemma rangeMap_elem_of {V : Type} (m : gmap string V) (k : string) (v : V) :
  (k, v) ∈ rangeMap env m <-> m !! k = Some v.
Proof. rewrite rangeMap_Permutation. apply elem_of_map_to_list. Qed.

Lemma rangeMap_keys {V : Type} (m : gmap string V) (k : string) :
  k ∈ (rangeMap env m).*1 <-> k ∈ dom m.
Proof.
  rewrite list_elem_of_fmap, elem_of_dom. split.
  - intros [[k' v] [-> Hin]]. apply rangeMap_elem_of in Hin. by exists v.
  - intros [v Hv]. exists (k, v). split; [done|]. by apply rangeMap_elem_of.
Qed.

(** C1.  In the sealExtent state, one pass of the handler loop:
    when no store uuid of the event resolves it returns errRetryable;
    when some store resolves and the rate limiter denies the token it
    returns errRetryable, the token being asked with TryConsume(1) on a
    first attempt and with Consume(1, 10 s) on a retry; when the token
    is granted, sealExtentOnStore is issued once to every store that
    resolves, the cache is invalidated once for each store whose seal
    succeeded and for no other store, and the pass returns errRetryable
    when no seal succeeded and moves the event to updateMetadata when
    at least one did (fewer than 2^31 of them, [nSuccess] being an
    int32).  [Handle] returns what the pass
    returns; it runs as a retry when the event enters in the
    sealExtent state and as a first attempt when the event entered in
    the checkPrecondition state. *)
Theorem ExtentDownEvent_sealExtent_correct
    (isRetry : bool) (event : ExtentDownEvent) (c : Ctx) :
  ede_state event = sealExtentState ->
  let storeIDs := ede_storeIDs event in
  let resolves := fun s addr => rpm_ResolveUUID env StoreServiceName s = inl addr in
  let granted :=
    if isRetry then tokenBucket_Consume env 1 (10 * Second)
    else tokenBucket_TryConsume env 1 in
  let tokenCall := if isRetry then Call_Consume 1 (10 * Second) else Call_TryConsume 1 in
  let resolveCalls := map (Call_ResolveUUID StoreServiceName) storeIDs in
  let step := fst (fst (handleStep env isRetry event c)) in
  let event' := snd (fst (handleStep env isRetry event c)) in
  let c' := snd (handleStep env isRetry event c) in
  ((forall s, s ∈ storeIDs -> forall addr, ~ resolves s addr) ->
     step = Return (Some errRetryable) /\ event' = event /\
     c' = with_trace (trace c ++ resolveCalls) c) /\
  ((exists s addr, s ∈ storeIDs /\ resolves s addr) -> granted = false ->
     step = Return (Some errRetryable) /\ event' = event /\
     c' = with_trace (trace c ++ resolveCalls ++ [tokenCall]) c) /\
  ((exists s addr, s ∈ storeIDs /\ resolves s addr) -> granted = true ->
     exists visited : list (string * string),
       NoDup visited.*1 /\
       (forall s addr, (s, addr) ∈ visited <-> s ∈ storeIDs /\ resolves s addr) /\
       let calls := resolveCalls ++ [tokenCall] ++
                    flat_map (sealGoroutine_calls env event isRetry) visited in
       let sealedStores :=
         filter (fun kv => sealedOn env event isRetry kv = true) visited in
       c' = with_trace (trace c ++ calls) c /\
       invalidations calls = map (fun kv => (fst kv, ede_extentID event)) sealedStores /\
       (sealedStores = [] -> step = Return (Some errRetryable) /\ event' = event) /\
       (sealedStores <> [] -> Z.of_nat (length sealedStores) < 2 ^ 31 ->
          step = Continue /\ event' = with_state updateMetadataState event) /\
       (step = Return (Some errRetryable) /\ event' = event \/
        step = Continue /\ event' = with_state updateMetadataState event)) /\
  (forall fuel,
     handleLoop env (S fuel) isRetry event c =
       match step with
       | Return err => Some (err, event', c')
       | Continue => handleLoop env fuel isRetry event' c'
       end) /\
  (forall fuel, ExtentDownEvent_Handle env fuel event c = handleLoop env fuel true event c) /\
  (forall fuel event0 c0 stats,
     ede_state event0 = checkPreconditionState ->
     mm_ReadExtentStats env (ede_dstID event0) (ede_extentID event0) = inl stats ->
     GetStatus stats = ExtentStatus_OPEN ->
     ExtentDownEvent_Handle env (S fuel) event0 c0 =
       handleLoop env fuel false
         (with_state sealExtentState
            (with_storeIDs (StoreUUIDs (GetExtent stats)) event0))
         (with_trace (trace c0 ++ [Call_ReadExtentStats (ede_dstID event0)
                                     (ede_extentID event0)]) c0)).
Proof.
  intros Hs storeIDs resolves granted tokenCall resolveCalls step event' c'.
  assert (Hempty : resolved env storeIDs = ∅ <->
                   forall s, s ∈ storeIDs -> forall addr, ~ resolves s addr).
  { split.
    - intros He s Hin addr Hr.
      assert (resolved env storeIDs !! s = Some addr) as Hl by (by apply resolved_lookup).
      rewrite He, lookup_empty in Hl. done.
    - intros Hnone. apply map_eq. intros s. rewrite lookup_empty.
      destruct (resolved env storeIDs !! s) as [addr|] eqn:Hl; [|done].
      apply resolved_lookup in Hl as [Hin Hr]. by destruct (Hnone s Hin addr). }
  assert (Hsize : (Z.of_nat (size (resolved env storeIDs)) <? 1) = true <->
                  resolved env storeIDs = ∅).
  { rewrite Z.ltb_lt, <- map_size_empty_iff. lia. }
  assert (Htoken : forall c1, acquireSealToken env isRetry c1 =
            (negb granted, with_trace (trace c1 ++ [tokenCall]) c1)).
  { intros c1. unfold acquireSealToken, granted, tokenCall, TryConsume, Consume,
      call, emit, bind, ret. destruct isRetry; reflexivity. }
  assert (Hstep : handleStep env isRetry event c = (step, event', c')).
  { unfold step, event', c'. by destruct (handleStep env isRetry event c) as [[? ?] ?]. }
  clearbody step event' c'.
  rewrite handleStep_sealExtent in Hstep by done.
  unfold sealExtent in Hstep. unfold bind at 1 in Hstep.
  rewrite resolveStores_run in Hstep. fold storeIDs resolveCalls in Hstep.
  split; [|split; [|split; [|split; [|split]]]].
  - intros Hnone. rewrite (proj2 Hsize (proj2 Hempty Hnone)) in Hstep.
    by injection Hstep as <- <- <-.
  - intros (s & addr & Hin & Hr) Hden.
    destruct (Z.of_nat (size (resolved env storeIDs)) <? 1).
    { destruct Hsize as [Hsize _]. specialize (Hsize eq_refl).
      by destruct (proj1 Hempty Hsize s Hin addr). }
    unfold bind at 1 in Hstep. rewrite Htoken, Hden in Hstep. simpl in Hstep.
    injection Hstep as <- <- <-. unfold with_trace. simpl. by rewrite <- app_assoc.
  - intros (s & addr & Hin & Hr) Hgr.
    destruct (Z.of_nat (size (resolved env storeIDs)) <? 1).
    { destruct Hsize as [Hsize _]. specialize (Hsize eq_refl).
      by destruct (proj1 Hempty Hsize s Hin addr). }
    unfold bind at 1 in Hstep. rewrite Htoken, Hgr in Hstep.
    change (negb true) with false in Hstep. unfold bind at 1 in Hstep.
    cbv beta iota in Hstep.
    set (visited := rangeMap env (resolved env storeIDs)) in *.
    rewrite sealOnStores_run in Hstep.
    set (n := Nat.iter _ _ 0) in Hstep.
    exists visited. split; [apply rangeMap_NoDup|]. split.
    { intros s' addr'. unfold visited. rewrite rangeMap_elem_of. apply resolved_lookup. }
    intros calls sealedStores.
    assert (Hc' : c' = with_trace (trace c ++ calls) c).
    { destruct (n <? 1); injection Hstep as <- <- <-;
        unfold calls, with_trace; simpl; by rewrite <- !app_assoc. }
    split; [done|]. split.
    { unfold calls, resolveCalls. rewrite !invalidations_app, invalidations_resolve.
      rewrite invalidations_goroutines. unfold tokenCall. by destruct isRetry. }
    split; [|split].
    + intros Hnil. unfold n in Hstep. fold sealedStores in Hstep.
      rewrite Hnil in Hstep. simpl in Hstep. by injection Hstep as <- <- <-.
    + intros Hne Hlt. unfold n in Hstep. fold sealedStores in Hstep.
      rewrite nSuccess_count in Hstep by done.
      destruct (Z.ltb_spec (Z.of_nat (length sealedStores)) 1) as [Hzero|_].
      { destruct sealedStores; [done|]. cbn [length] in Hzero. lia. }
      by injection Hstep as <- <- <-.
    + destruct (n <? 1); injection Hstep as <- <- <-; auto.
  - intros fuel. rewrite handleLoop_step, handleStep_sealExtent by done.
    unfold sealExtent. unfold bind at 1. rewrite resolveStores_run.
    fold storeIDs resolveCalls. rewrite Hstep. by destruct step.
  - intros fuel. unfold ExtentDownEvent_Handle. by rewrite Hs.
  - intros fuel event0 c0 stats H0 Hr Ho. by apply Handle_first_attempt.
Qed.



(** C5 (amended).  For an ExtentCreatedEvent whose listing of the OPEN
    extents of the destination succeeds, run while the queue has room
    for one notification per input host concerned: [Handle] returns nil
    and enqueues one InputHostNotificationEvent of type ALL to the
    originating input host, then one of type CLIENT to each other
    distinct input host found among the listed extents, and after these
    only notifications to output hosts; so no input host gets both
    kinds and none gets two. *)
Theorem ExtentCreatedEvent_Handle_notifies
    (event : ExtentCreatedEvent) (c : Ctx) (stats : list ExtentStats) :
  mm_ListExtentsByDstIDStatus env (ece_dstID event) [ExtentStatus_OPEN] = inl stats ->
  let others : gset string :=
    list_to_set (map (fun stat => InputHostUUID (GetExtent stat)) stats) ∖
    {[ece_inHostID event]} in
  (length (pipeline c) + 1 + size others <= queueCapacity env)%nat ->
  let notify := fun host type =>
    NewInputHostNotificationEvent (ece_dstID event) host (ece_extentID event)
      (ece_storeIDs event) notifyExtentCreated (ece_extentID event) type in
  exists (hosts : list string) (outs : list Event),
    fst (ExtentCreatedEvent_Handle env event c) = None /\
    pipeline (snd (ExtentCreatedEvent_Handle env event c)) =
      pipeline c ++
      notify (ece_inHostID event) NotificationType_ALL ::
      map (fun h => notify h NotificationType_CLIENT) hosts ++ outs /\
    NoDup hosts /\
    (forall h, h ∈ hosts <->
       h <> ece_inHostID event /\
       exists stat, stat ∈ stats /\ InputHostUUID (GetExtent stat) = h) /\
    Forall isOutputHostNotification outs.
Proof.
  intros Hlist others Hroom notify.
  set (m := foldl (fun (m : gmap string bool) stat =>
                     <[InputHostUUID (GetExtent stat) := true]> m)
              (<[ece_inHostID event := true]> ∅) stats).
  set (m' := delete (ece_inHostID event) m).
  assert (Hdom : dom m' = others).
  { unfold m', m. rewrite dom_delete_L, dom_foldl_insert, dom_insert_L, dom_empty_L.
    unfold others. apply set_eq. intros h.
    rewrite !elem_of_difference, !elem_of_union, elem_of_singleton, elem_of_empty. tauto. }
  assert (Hlen : length (rangeMap env m') = size others).
  { rewrite rangeMap_Permutation, length_map_to_list, <- Hdom. by rewrite size_dom. }
  exists (rangeMap env m').*1.
  unfold ExtentCreatedEvent_Handle. rewrite run_bind.
  unfold ListExtentsByDstIDStatus. rewrite call_run, Hlist. cbn [fst snd].
  fold m. rewrite run_bind, Add_accepted by (cbn; lia). cbn [fst snd negb].
  fold m'. rewrite run_bind.
  match goal with |- context [forEach ?body ?ks ?c1] =>
    set (c1' := c1); set (c2 := snd (forEach body ks c1')) end.
  assert (Hp : pipeline c2 =
    pipeline c1' ++ take (queueCapacity env - length (pipeline c1'))
                      (map (fun kv : string * bool => notify kv.1 NotificationType_CLIENT)
                         (rangeMap env m'))).
  { exact (proj1 (forEach_Add_run
             (fun kv : string * bool => notify kv.1 NotificationType_CLIENT)
             (rangeMap env m') c1')). }
  unfold c1' in Hp. cbn [pipeline with_trace with_pipeline] in Hp.
  rewrite take_ge in Hp by (rewrite length_map, length_app; cbn; lia).
  rewrite run_bind. unfold ret. cbn [fst snd].
  destruct (enqueuesOnly_reconfigureAllConsumers (ece_dstID event) (ece_extentID event)
              notifyExtentCreated (ece_extentID event) c2) as (outs & Hout & Fout).
  exists outs. split; [done|]. split.
  { rewrite Hout, Hp. rewrite <- !app_assoc. cbn [app].
    by rewrite <- list_fmap_compose. }
  split; [apply rangeMap_NoDup|]. split; [|done].
  intros h. rewrite rangeMap_keys, Hdom. unfold others.
  rewrite elem_of_difference, elem_of_singleton, elem_of_list_to_set, list_elem_of_fmap.
  split.
  - intros [(stat & -> & Hin) Hne]. eauto.
  - intros [Hne (stat & Hin & <-)]. eauto.
Qed.


End MapRange.

End Properties.

(** ** The properties on the small deployment *)

Lemma scenario_range_ok (capacity : nat) (tokens : bool) :
  range_visits_each_once (scenarioEnv capacity tokens).
Proof. intros A l. reflexivity. Defined.

(** A retry of the seal of E1: S1 and S2 are sealed in turn, the cache
    is invalidated for S1 only. *)
Lemma ExtentDownEvent_sealExtent_witness :
  ede_state (downE1 1) = sealExtentState /\
  (exists s addr, s ∈ ede_storeIDs (downE1 1) /\
     rpm_ResolveUUID (scenarioEnv 8 true) StoreServiceName s = inl addr) /\
  tokenBucket_Consume (scenarioEnv 8 true) 1 (10 * Second) = true /\
  exists visited : list (string * string),
    NoDup visited.*1 /\
    (forall s addr, (s, addr) ∈ visited <->
       s ∈ ede_storeIDs (downE1 1) /\
       rpm_ResolveUUID (scenarioEnv 8 true) StoreServiceName s = inl addr) /\
    snd (handleStep (scenarioEnv 8 true) true (downE1 1) (scenarioCtx [] ∅ 1000 5000)) =
      with_trace
        (trace (scenarioCtx [] ∅ 1000 5000) ++
         map (Call_ResolveUUID StoreServiceName) (ede_storeIDs (downE1 1)) ++
         [Call_Consume 1 (10 * Second)] ++
         flat_map (sealGoroutine_calls (scenarioEnv 8 true) (downE1 1) true) visited)
        (scenarioCtx [] ∅ 1000 5000) /\
    invalidations
      (map (Call_ResolveUUID StoreServiceName) (ede_storeIDs (downE1 1)) ++
       [Call_Consume 1 (10 * Second)] ++
       flat_map (sealGoroutine_calls (scenarioEnv 8 true) (downE1 1) true) visited) =
      map (fun kv => (fst kv, ede_extentID (downE1 1)))
        (filter (fun kv => sealedOn (scenarioEnv 8 true) (downE1 1) true kv = true) visited).
Proof.
  assert (Hres : exists s addr, s ∈ ede_storeIDs (downE1 1) /\
            rpm_ResolveUUID (scenarioEnv 8 true) StoreServiceName s = inl addr).
  { exists "S1", "10.0.0.1:4240". split; [apply list_elem_of_here|reflexivity]. }
  split; [reflexivity|]. split; [exact Hres|]. split; [reflexivity|].
  destruct (proj1 (proj2 (proj2
              (ExtentDownEvent_sealExtent_correct (scenarioEnv 8 true)
                 (scenario_range_ok 8 true) true (downE1 1) (scenarioCtx [] ∅ 1000 5000)
                 eq_refl))) Hres eq_refl)
    as (visited & Hnd & Hin & Hc & Hinv & _).
  exists visited. split; [exact Hnd|]. split; [exact Hin|]. split; [exact Hc|exact Hinv].
Defined.

(** One store of three seals: the event moves on to the metadata
    update and the cache is invalidated for that store only; the whole
    first attempt then ends with the extent out of the failed set. *)
Example ExtentDownEvent_seal_one_of_three :
  fst (handleStep (scenarioEnv 8 true) true (downE1 1) (scenarioCtx [] ∅ 1000 5000)) =
    (Continue, with_state updateMetadataState (downE1 1)) /\
  invalidations
    (trace (snd (handleStep (scenarioEnv 8 true) true (downE1 1)
                   (scenarioCtx [] ∅ 1000 5000)))) = [("S1", "E1")] /\
  match ExtentDownEvent_Handle (scenarioEnv 8 true) 4 (downE1 0)
          (scenarioCtx [] {["E1"]} 1000 5000) with
  | Some (err, event', c') =>
    err = None /\ event' = with_state doneState (downE1 1) /\
    invalidations (trace c') = [("S1", "E1")] /\ elements (failed c') = []
  | None => False
  end.
Proof. repeat split; vm_compute; reflexivity. Qed.

(** The first attempt on E1, which is OPEN, and on E2, which is SEALED. *)
Lemma ExtentDownEvent_checkPrecondition_witness :
  ede_state (downE1 0) = checkPreconditionState /\
  (4 <= 4)%nat /\
  ExtentDownEvent_Handle (scenarioEnv 8 true) 4 (downE1 0) (scenarioCtx [] ∅ 1000 5000) =
    handleLoop (scenarioEnv 8 true) 3 false
      (with_state sealExtentState (with_storeIDs ["S1"; "S2"; "S3"] (downE1 0)))
      (with_trace [Call_ReadExtentStats "D1" "E1"] (scenarioCtx [] ∅ 1000 5000)) /\
  ExtentDownEvent_Handle (scenarioEnv 8 true) 4 (mkExtentDownEvent 0 0 "D1" "E2" [])
    (scenarioCtx [] ∅ 1000 5000) =
    Some (None, mkExtentDownEvent 0 0 "D1" "E2" [],
          with_trace [Call_ReadExtentStats "D1" "E2"] (scenarioCtx [] ∅ 1000 5000)).
Proof.
  split; [reflexivity|]. split; [lia|]. split.
  - exact (proj2 (proj2 (proj2
      (proj2 (proj2 (ExtentDownEvent_checkPrecondition_correct (scenarioEnv 8 true) 4
                       (downE1 0) (scenarioCtx [] ∅ 1000 5000) eq_refl (le_n 4)))
         extentE1 eq_refl eq_refl)))).
  - refine (proj1 (proj2 (ExtentDownEvent_checkPrecondition_correct (scenarioEnv 8 true) 4
                     (mkExtentDownEvent 0 0 "D1" "E2" []) (scenarioCtx [] ∅ 1000 5000)
                     eq_refl (le_n 4)))
              (mkExtentStats (GetExtent extentE2) ExtentStatus_SEALED) eq_refl _).
    discriminate.
Defined.

(** The metadata update of E2, which another controller has sealed. *)
Lemma ExtentDownEvent_updateMetadata_witness :
  ede_state (mkExtentDownEvent 2 0 "D1" "E2" ["S1"]) = updateMetadataState /\
  (4 <= 4)%nat /\
  mm_SealExtent (scenarioEnv 8 true) "D1" "E2" = Some (IllegalStateError "already sealed") /\
  ExtentDownEvent_Handle (scenarioEnv 8 true) 4 (mkExtentDownEvent 2 0 "D1" "E2" ["S1"])
    (scenarioCtx [] {["E2"]} 1000 5000) =
    Some (None, mkExtentDownEvent 3 0 "D1" "E2" ["S1"],
          with_failed ({["E2"]} ∖ {["E2"]})
            (with_trace [Call_metadata_SealExtent "D1" "E2"]
               (scenarioCtx [] {["E2"]} 1000 5000))).
Proof.
  split; [reflexivity|]. split; [lia|]. split; [reflexivity|].
  refine (proj2 (proj1 (ExtentDownEvent_updateMetadata_correct (scenarioEnv 8 true) 4
                   (mkExtentDownEvent 2 0 "D1" "E2" ["S1"])
                   (scenarioCtx [] {["E2"]} 1000 5000) eq_refl (le_n 4)) _)).
  right. exists "already sealed". reflexivity.
Defined.

(** The seal of E1 has failed for good while the failed set already
    holds as many extents as [maxFailedExtentSealSetSize] allows. *)
Lemma ExtentDownEvent_Done_overflows_failed_witness :
  Z.of_nat (size (failed (scenarioCtx [] {["E7"; "E8"]} 1000 5000))) =
    maxFailedExtentSealSetSize (scenarioEnv 8 true) /\
  (ede_extentID (downE1 1) ∉ failed (scenarioCtx [] {["E7"; "E8"]} 1000 5000)) /\
  failed (snd (ExtentDownEvent_Done (scenarioEnv 8 true) (downE1 1) (Some errRetryable)
                 (scenarioCtx [] {["E7"; "E8"]} 1000 5000))) =
    {["E1"]} ∪ {["E7"; "E8"]} /\
  Z.of_nat (size (failed (snd (ExtentDownEvent_Done (scenarioEnv 8 true) (downE1 1)
                                 (Some errRetryable)
                                 (scenarioCtx [] {["E7"; "E8"]} 1000 5000))))) =
    maxFailedExtentSealSetSize (scenarioEnv 8 true) + 1.
Proof.
  assert (Hnew : ede_extentID (downE1 1) ∉ failed (scenarioCtx [] {["E7"; "E8"]} 1000 5000)).
  { apply (bool_decide_unpack _). vm_compute. exact I. }
  assert (Hfull : Z.of_nat (size (failed (scenarioCtx [] {["E7"; "E8"]} 1000 5000))) =
                  maxFailedExtentSealSetSize (scenarioEnv 8 true)).
  { vm_compute. reflexivity. }
  split; [exact Hfull|]. split; [exact Hnew|].
  destruct (ExtentDownEvent_Done_overflows_failed (scenarioEnv 8 true) (downE1 1)
              errRetryable (scenarioCtx [] {["E7"; "E8"]} 1000 5000) Hfull Hnew)
    as (Hf & Hs & _).
  split; [exact Hf|exact Hs].
Defined.

(** E1 created on H1 while E2 is open on H2 and the queue has room. *)
Lemma ExtentCreatedEvent_Handle_notifies_witness :
  mm_ListExtentsByDstIDStatus (scenarioEnv 8 true) (ece_dstID createdE1)
    [ExtentStatus_OPEN] = inl [extentE1; extentE2] /\
  (length (pipeline (scenarioCtx [] ∅ 1000 5000)) + 1 +
   size (list_to_set (map (fun stat => InputHostUUID (GetExtent stat)) [extentE1; extentE2])
           ∖ {[ece_inHostID createdE1]} : gset string) <= 8)%nat /\
  exists (hosts : list string) (outs : list Event),
    fst (ExtentCreatedEvent_Handle (scenarioEnv 8 true) createdE1
           (scenarioCtx [] ∅ 1000 5000)) = None /\
    pipeline (snd (ExtentCreatedEvent_Handle (scenarioEnv 8 true) createdE1
                     (scenarioCtx [] ∅ 1000 5000))) =
      [] ++
      NewInputHostNotificationEvent "D1" "H1" "E1" ["S1"; "S2"; "S3"] notifyExtentCreated
        "E1" NotificationType_ALL ::
      map (fun h => NewInputHostNotificationEvent "D1" h "E1" ["S1"; "S2"; "S3"]
                      notifyExtentCreated "E1" NotificationType_CLIENT) hosts ++ outs /\
    NoDup hosts /\
    (forall h, h ∈ hosts <->
       h <> "H1" /\
       exists stat, stat ∈ [extentE1; extentE2] /\ InputHostUUID (GetExtent stat) = h) /\
    Forall isOutputHostNotification outs.
Proof.
  assert (Hroom :
    (length (pipeline (scenarioCtx [] ∅ 1000 5000)) + 1 +
     size (list_to_set (map (fun stat => InputHostUUID (GetExtent stat))
                          [extentE1; extentE2])
             ∖ {[ece_inHostID createdE1]} : gset string) <= 8)%nat).
  { vm_compute. lia. }
  split; [reflexivity|]. split; [exact Hroom|].
  exact (ExtentCreatedEvent_Handle_notifies (scenarioEnv 8 true) (scenario_range_ok 8 true)
           createdE1 (scenarioCtx [] ∅ 1000 5000) [extentE1; extentE2] eq_refl Hroom).
Defined.

(** C5, as stated, fails when the queue is full.  The queue holds two
    events at most and two are waiting; the listing succeeds and names
    H2 next to H1, yet no notification is enqueued, neither the ALL one
    to H1 nor the CLIENT one to H2. *)
Lemma ExtentCreatedEvent_Handle_full_queue_counterexample :
  mm_ListExtentsByDstIDStatus (scenarioEnv 2 true) (ece_dstID createdE1)
    [ExtentStatus_OPEN] = inl [extentE1; extentE2] /\
  map (fun stat => InputHostUUID (GetExtent stat)) [extentE1; extentE2] = ["H1"; "H2"] /\
  ece_inHostID createdE1 = "H1" /\
  pipeline (snd (ExtentCreatedEvent_Handle (scenarioEnv 2 true) createdE1
                   (scenarioCtx backlog ∅ 1000 5000))) = backlog.
Proof. repeat split; vm_compute; reflexivity. Qed.

(** The same event while the queue is full. *)
Lemma ExtentCreatedEvent_Handle_stops_when_queue_full_witness :
  (queueCapacity (scenarioEnv 2 true) <=
   length (pipeline (scenarioCtx backlog ∅ 1000 (1000 + 10 * Second))))%nat /\
  ExtentCreatedEvent_Handle (scenarioEnv 2 true) createdE1
    (scenarioCtx backlog ∅ 1000 (1000 + 10 * Second)) =
    (None,
     with_trace
       [Call_ListExtentsByDstIDStatus "D1" [ExtentStatus_OPEN];
        Call_Add (NewInputHostNotificationEvent "D1" "H1" "E1" ["S1"; "S2"; "S3"]
                    notifyExtentCreated "E1" NotificationType_ALL) false]
       (scenarioCtx backlog ∅ 1000 (1000 + 10 * Second))).
Proof.
  split; [apply le_n|].
  exact (ExtentCreatedEvent_Handle_stops_when_queue_full (scenarioEnv 2 true) createdE1
           (scenarioCtx backlog ∅ 1000 (1000 + 10 * Second)) (le_n 2)).
Defined.

(** With room in the queue the same event reaches reconfigureAllConsumers,
    which lists the consumer groups of D1 and rewrites the cache entry
    of CG1; with a full queue neither happens. *)
Example ExtentCreatedEvent_Handle_room_refreshes_cache :
  resultCache (snd (ExtentCreatedEvent_Handle (scenarioEnv 8 true) createdE1
                      (scenarioCtx backlog ∅ 1000 (1000 + 10 * Second)))) !! "CG1" =
    Some (mkResultCacheParams 1 1 ["O1"] 1000) /\
  resultCache (snd (ExtentCreatedEvent_Handle (scenarioEnv 2 true) createdE1
                      (scenarioCtx backlog ∅ 1000 (1000 + 10 * Second)))) !! "CG1" =
    Some (mkResultCacheParams 1 1 ["O1"] (1000 + 10 * Second)).
Proof. split; vm_compute; reflexivity. Qed.

(** H1 fails while it serves E1 and the remote-zone extent E3. *)
Lemma HostFailedEvent_Handle_witness :
  mm_ListExtentsByInputIDStatus (scenarioEnv 8 true) "H1" (Some ExtentStatus_OPEN) =
    inl [extentE1; extentE3] /\
  (length (pipeline (scenarioCtx [] ∅ 1000 5000)) +
   length (map extentDownEventFor (localExtents (scenarioEnv 8 true) [extentE1; extentE3]))
   <= queueCapacity (scenarioEnv 8 true))%nat /\
  pipeline (snd (InputHostFailedEvent_Handle (scenarioEnv 8 true)
                   (mkInputHostFailedEvent "H1") (scenarioCtx [] ∅ 1000 5000))) =
    pipeline (scenarioCtx [] ∅ 1000 5000) ++
    map extentDownEventFor (localExtents (scenarioEnv 8 true) [extentE1; extentE3]).
Proof.
  assert (Hroom :
    (length (pipeline (scenarioCtx [] ∅ 1000 5000)) +
     length (map extentDownEventFor
               (localExtents (scenarioEnv 8 true) [extentE1; extentE3]))
     <= queueCapacity (scenarioEnv 8 true))%nat).
  { vm_compute. lia. }
  split; [reflexivity|]. split; [exact Hroom|].
  exact (proj2 (proj2 (proj1 (proj2
           (proj1 (HostFailedEvent_Handle_correct (scenarioEnv 8 true)
                     (scenarioCtx [] ∅ 1000 5000))
              (mkInputHostFailedEvent "H1"))) [extentE1; extentE3] eq_refl)) Hroom).
Defined.

(** C7, as stated, fails when the queue is full.  The queue holds two
    events at most and two are waiting; the listing succeeds and E1 is
    not a remote-zone extent, yet no ExtentDownEvent is enqueued for
    it. *)
Lemma HostFailedEvent_Handle_full_queue_counterexample :
  mm_ListExtentsByInputIDStatus (scenarioEnv 2 true) "H1" (Some ExtentStatus_OPEN) =
    inl [extentE1; extentE3] /\
  IsRemoteZoneExtent (scenarioEnv 2 true) (OriginZone (GetExtent extentE1))
    (localZone (scenarioEnv 2 true)) = false /\
  pipeline (snd (InputHostFailedEvent_Handle (scenarioEnv 2 true)
                   (mkInputHostFailedEvent "H1") (scenarioCtx backlog ∅ 1000 5000))) =
    backlog.
Proof. repeat split; vm_compute; reflexivity. Qed.

(** The replication kickoff of E3 on S1, S4, S2, S3: S1 and S4 are
    started, S2 times out and S3 is not contacted. *)
Lemma RemoteZoneExtentCreatedEvent_Handle_witness :
  rze_storeIDs remoteE3 = "S1" :: ["S4"; "S2"; "S3"] /\
  fst (RemoteZoneExtentCreatedEvent_Handle (scenarioEnv 8 true) remoteE3
         (scenarioCtx [] ∅ 1000 5000)) = Returns (Some (otherError "timeout")) /\
  snd (RemoteZoneExtentCreatedEvent_Handle (scenarioEnv 8 true) remoteE3
         (scenarioCtx [] ∅ 1000 5000)) =
    with_trace
      [Call_ResolveUUID StoreServiceName "S1";
       Call_GetThriftStoreClient "10.0.0.1:4240" "S1";
       Call_RemoteReplicateExtent (mkStoreClient "10.0.0.1:4240" "S1")
         (mkRemoteReplicateExtentRequest "D1" "E3") replicateExtentCallTimeout;
       Call_ResolveUUID StoreServiceName "S4";
       Call_GetThriftStoreClient "10.0.0.4:4240" "S4";
       Call_ReplicateExtent (mkStoreClient "10.0.0.4:4240" "S4")
         (mkReplicateExtentRequest "D1" "E3" "S1") replicateExtentCallTimeout;
       Call_ResolveUUID StoreServiceName "S2";
       Call_GetThriftStoreClient "10.0.0.2:4240" "S2";
       Call_ReplicateExtent (mkStoreClient "10.0.0.2:4240" "S2")
         (mkReplicateExtentRequest "D1" "E3" "S1") replicateExtentCallTimeout]
      (scenarioCtx [] ∅ 1000 5000).
Proof.
  split; [reflexivity|].
  refine (proj1 (proj1 (proj2 (proj2 (proj2
            (RemoteZoneExtentCreatedEvent_Handle_correct (scenarioEnv 8 true) remoteE3
               "S1" ["S4"; "S2"; "S3"] (scenarioCtx [] ∅ 1000 5000) eq_refl))))
            "10.0.0.1:4240" (conj eq_refl (conj eq_refl eq_refl)))
            ["S4"] "S2" ["S3"] (otherError "timeout") eq_refl _ eq_refl).
  intros x Hx. apply list_elem_of_singleton in Hx. rewrite Hx. reflexivity.
Defined.

(** A hit on an entry of CG1 that expires in 10 s is rewritten. *)
Lemma triggerCacheRefreshForCG_witness :
  int64_min <= clock (scenarioCtx [] ∅ 1000 (1000 + 10 * Second)) /\
  clock (scenarioCtx [] ∅ 1000 (1000 + 10 * Second)) + resultCacheRefreshMaxWaitTime
    <= int64_max /\
  snd (triggerCacheRefreshForCG (scenarioEnv 8 true) "CG1"
         (scenarioCtx [] ∅ 1000 (1000 + 10 * Second))) =
    with_trace
      [Call_readOutputHosts "CG1" 1000;
       Call_resultCache_write "CG1" (mkResultCacheParams 1 1 ["O1"] 1000)]
      (with_resultCache
         (<["CG1" := mkResultCacheParams 1 1 ["O1"] 1000]>
            (resultCache (scenarioCtx [] ∅ 1000 (1000 + 10 * Second))))
         (scenarioCtx [] ∅ 1000 (1000 + 10 * Second))).
Proof.
  assert (Hlo : int64_min <= clock (scenarioCtx [] ∅ 1000 (1000 + 10 * Second))).
  { vm_compute. discriminate. }
  assert (Hhi : clock (scenarioCtx [] ∅ 1000 (1000 + 10 * Second)) +
                resultCacheRefreshMaxWaitTime <= int64_max).
  { vm_compute. discriminate. }
  split; [exact Hlo|]. split; [exact Hhi|].
  refine (proj2 (proj2 (triggerCacheRefreshForCG_correct (scenarioEnv 8 true) "CG1"
                          (scenarioCtx [] ∅ 1000 (1000 + 10 * Second)) Hlo Hhi))
            eq_refl eq_refl _).
  vm_compute. discriminate.
Defined.

(** C9, as stated, fails at the boundary: the entry of CG1 is a hit,
    not marked for refresh, and expires exactly 500 ms from now, which
    is not further away than [resultCacheRefreshMaxWaitTime]; the cache
    is written all the same and the entry now expires at once. *)
Lemma triggerCacheRefreshForCG_boundary_counterexample :
  cacheHit (resultCache_readOutputHosts (scenarioEnv 8 true)
              (resultCache (scenarioCtx [] ∅ 1000 (1000 + 500 * Millisecond))) "CG1" 1000)
    = true /\
  refreshCache (resultCache_readOutputHosts (scenarioEnv 8 true)
                  (resultCache (scenarioCtx [] ∅ 1000 (1000 + 500 * Millisecond))) "CG1" 1000)
    = false /\
  expiry (resultCache_readOutputHosts (scenarioEnv 8 true)
            (resultCache (scenarioCtx [] ∅ 1000 (1000 + 500 * Millisecond))) "CG1" 1000)
    = clock (scenarioCtx [] ∅ 1000 (1000 + 500 * Millisecond)) +
      resultCacheRefreshMaxWaitTime /\
  resultCache (scenarioCtx [] ∅ 1000 (1000 + 500 * Millisecond)) !! "CG1" =
    Some (mkResultCacheParams 1 1 ["O1"] (1000 + 500 * Millisecond)) /\
  resultCache (snd (triggerCacheRefreshForCG (scenarioEnv 8 true) "CG1"
                      (scenarioCtx [] ∅ 1000 (1000 + 500 * Millisecond)))) !! "CG1" =
    Some (mkResultCacheParams 1 1 ["O1"] 1000).
Proof. repeat split; vm_compute; reflexivity. Qed.

(** An event made with no store at all. *)
Lemma RemoteZoneExtentCreatedEvent_Handle_index_bounds_witness :
  NewRemoteZoneExtentCreatedEvent "D1" "E3" [] =
    EvRemoteZoneExtentCreated (mkRemoteZoneExtentCreatedEvent "D1" "E3" []) /\
  RemoteZoneExtentCreatedEvent_Handle (scenarioEnv 8 true)
    (mkRemoteZoneExtentCreatedEvent "D1" "E3" []) (scenarioCtx [] ∅ 1000 5000) =
    (Panics "index out of range", scenarioCtx [] ∅ 1000 5000) /\
  exists err,
    fst (RemoteZoneExtentCreatedEvent_Handle (scenarioEnv 8 true) remoteE3
           (scenarioCtx [] ∅ 1000 5000)) = Returns err.
Proof.
  split; [reflexivity|]. split.
  - exact (proj1 (proj2 (RemoteZoneExtentCreatedEvent_Handle_index_bounds
             (scenarioEnv 8 true) "D1" "E3" [] (mkRemoteZoneExtentCreatedEvent "D1" "E3" [])
             (scenarioCtx [] ∅ 1000 5000) eq_refl)) eq_refl).
  - refine (proj2 (proj2 (RemoteZoneExtentCreatedEvent_Handle_index_bounds
             (scenarioEnv 8 true) "D1" "E3" ["S1"; "S4"; "S2"; "S3"] remoteE3
             (scenarioCtx [] ∅ 1000 5000) eq_refl)) _).
    discriminate.
Defined.

(** ** Further properties *)

Section MoreProperties.

Variable env : Env.

(** *** ExtentDownEvent.Handle as a whole *)

Lemma metadataSeals_app (l1 l2 : list Call) :
  metadataSeals (l1 ++ l2) = metadataSeals l1 ++ metadataSeals l2.
Proof. apply omap_app. Qed.

Lemma metadataSeals_resolve (service : string) (l : list string) :
  metadataSeals (map (Call_ResolveUUID service) l) = [].
Proof. induction l; [done|]. simpl. apply IHl. Qed.

Lemma metadataSeals_sealExtentOnStore (storeUUID storeAddr extentID : string) (seq : Z)
    (isRetry : bool) :
  metadataSeals (sealExtentOnStore_calls env storeUUID storeAddr extentID seq isRetry) = [].
Proof.
  unfold sealExtentOnStore_calls, sealExtentOnStore,
    GetThriftStoreClient, ReleaseThriftStoreClient, call, emit, bind, ret.
  destruct (clientFactory_GetThriftStoreClient env storeAddr storeUUID); reflexivity.
Qed.

Lemma metadataSeals_goroutines (event : ExtentDownEvent) (isRetry : bool)
    (visited : list (string * string)) :
  metadataSeals (flat_map (sealGoroutine_calls env event isRetry) visited) = [].
Proof.
  induction visited as [|kv visited IH]; [done|].
  cbn [flat_map]. rewrite metadataSeals_app, IH. unfold sealGoroutine_calls.
  rewrite metadataSeals_app, metadataSeals_sealExtentOnStore.
  by destruct (sealedOn env event isRetry kv).
Qed.

Lemma clientsReleased_app (l1 l2 : list Call) :
  clientsReleased (l1 ++ l2) = clientsReleased l1 ++ clientsReleased l2.
Proof. apply omap_app. Qed.

Lemma clientsVended_app (l1 l2 : list Call) :
  clientsVended env (l1 ++ l2) = clientsVended env l1 ++ clientsVended env l2.
Proof. apply omap_app. Qed.

Lemma clientsObtained_app (l1 l2 : list Call) :
  clientsObtained (l1 ++ l2) = clientsObtained l1 ++ clientsObtained l2.
Proof. apply omap_app. Qed.

Lemma clients_resolve (service : string) (l : list string) :
  clientsReleased (map (Call_ResolveUUID service) l) = [] /\
  clientsVended env (map (Call_ResolveUUID service) l) = [].
Proof. induction l; [done|]. simpl. apply IHl. Qed.

(** [sealExtentOnStore] releases the client exactly when one was vended. *)
Lemma clients_sealExtentOnStore (storeUUID storeAddr extentID : string) (seq : Z)
    (isRetry : bool) :
  clientsReleased (sealExtentOnStore_calls env storeUUID storeAddr extentID seq isRetry) =
  clientsVended env (sealExtentOnStore_calls env storeUUID storeAddr extentID seq isRetry).
Proof.
  unfold sealExtentOnStore_calls, sealExtentOnStore,
    GetThriftStoreClient, ReleaseThriftStoreClient, call, emit, bind, ret.
  destruct (clientFactory_GetThriftStoreClient env storeAddr storeUUID) eqn:E;
    simpl; by rewrite E.
Qed.

Lemma clients_goroutines (event : ExtentDownEvent) (isRetry : bool)
    (visited : list (string * string)) :
  clientsReleased (flat_map (sealGoroutine_calls env event isRetry) visited) =
  clientsVended env (flat_map (sealGoroutine_calls env event isRetry) visited).
Proof.
  induction visited as [|kv visited IH]; [done|].
  cbn [flat_map]. rewrite clientsReleased_app, clientsVended_app, IH.
  f_equal. unfold sealGoroutine_calls.
  rewrite clientsReleased_app, clientsVended_app, clients_sealExtentOnStore.
  by destruct (sealedOn env event isRetry kv).
Qed.

(** One pass in the seal state: it issues calls and changes nothing
    else; it calls no metadata seal; every client vended is released;
    it goes on only after a cache invalidation, that is after a seal
    that succeeded on a store. *)
Lemma sealExtent_shape (isRetry : bool) (event : ExtentDownEvent) (c : Ctx) :
  exists calls step,
    sealExtent env isRetry event c =
      (step,
       match step with
       | Continue => with_state updateMetadataState event
       | Return _ => event
       end,
       with_trace (trace c ++ calls) c) /\
    (metadataSeals calls = [] /\ clientsReleased calls = clientsVended env calls) /\
    (step = Return (Some errRetryable) \/ step = Continue /\ invalidations calls <> []).
Proof.
  unfold sealExtent. rewrite run_bind, resolveStores_run. cbn [fst snd].
  set (resolveCalls := map (Call_ResolveUUID StoreServiceName) (ede_storeIDs event)).
  pose proof (clients_resolve StoreServiceName (ede_storeIDs event)) as [Hrel Hven].
  fold resolveCalls in Hrel, Hven.
  destruct (Z.of_nat (size (resolved env (ede_storeIDs event))) <? 1).
  { exists resolveCalls, (Return (Some errRetryable)). unfold ret.
    split; [done|]. split; [|by left].
    split; [apply metadataSeals_resolve|by rewrite Hrel, Hven]. }
  rewrite run_bind.
  assert (Htoken : forall c1, exists tokenCall granted,
            acquireSealToken env isRetry c1 =
              (negb granted, with_trace (trace c1 ++ [tokenCall]) c1) /\
            metadataSeals [tokenCall] = [] /\ invalidations [tokenCall] = [] /\
            clientsReleased [tokenCall] = [] /\ clientsVended env [tokenCall] = []).
  { intros c1. unfold acquireSealToken, TryConsume, Consume, call, emit, bind, ret.
    destruct isRetry; simpl; eauto 8. }
  destruct (Htoken (with_trace (trace c ++ resolveCalls) c))
    as (tokenCall & granted & -> & Hm & Hi & Htr & Htv).
  cbn [fst snd]. destruct granted; cbn [negb].
  2:{ exists (resolveCalls ++ [tokenCall]), (Return (Some errRetryable)). unfold ret.
      rewrite with_trace_app. split; [done|]. split; [|by left]. split.
      - rewrite metadataSeals_app, Hm. unfold resolveCalls.
        by rewrite metadataSeals_resolve.
      - by rewrite clientsReleased_app, clientsVended_app, Hrel, Hven, Htr, Htv. }
  rewrite run_bind, sealOnStores_run. cbn [fst snd].
  set (visited := rangeMap env (resolved env (ede_storeIDs event))).
  set (sealed := filter (fun kv => sealedOn env event isRetry kv = true) visited).
  rewrite !with_trace_app.
  set (calls := resolveCalls ++ [tokenCall] ++
                flat_map (sealGoroutine_calls env event isRetry) visited).
  assert (Hmeta : metadataSeals calls = []).
  { unfold calls, resolveCalls.
    by rewrite !metadataSeals_app, metadataSeals_resolve, Hm, metadataSeals_goroutines. }
  assert (Hbal : clientsReleased calls = clientsVended env calls).
  { unfold calls.
    by rewrite !clientsReleased_app, !clientsVended_app, Hrel, Hven, Htr, Htv,
      clients_goroutines. }
  assert (Hinv : invalidations calls =
                 map (fun kv => (fst kv, ede_extentID event)) sealed).
  { unfold calls, resolveCalls.
    by rewrite !invalidations_app, invalidations_resolve, Hi, invalidations_goroutines. }
  destruct (Nat.iter (length sealed) (fun n => int32_add n 1) 0 <? 1) eqn:Hn.
  - exists calls, (Return (Some errRetryable)). unfold ret. split; [done|].
    split; [done|by left].
  - exists calls, Continue. unfold ret. split; [done|]. split; [done|]. right.
    split; [done|]. rewrite Hinv. destruct sealed; [discriminate Hn|done].
Qed.

Lemma sealRunFrame_refl (extentID : string) (c : Ctx) : sealRunFrame extentID c c.
Proof.
  repeat (split; [done|]). split; [by left|]. exists []. by rewrite app_nil_r.
Qed.

Lemma sealRunFrame_trans (extentID : string) (c1 c2 c3 : Ctx) :
  sealRunFrame extentID c1 c2 -> sealRunFrame extentID c2 c3 ->
  sealRunFrame extentID c1 c3.
Proof.
  intros (Hp1 & Hi1 & Hr1 & Hc1 & Hf1 & l1 & Ht1) (Hp2 & Hi2 & Hr2 & Hc2 & Hf2 & l2 & Ht2).
  split; [congruence|]. split; [congruence|]. split; [congruence|].
  split; [congruence|]. split.
  - destruct Hf1 as [Hf1|Hf1], Hf2 as [Hf2|Hf2]; rewrite Hf2, Hf1; auto.
    right. apply set_eq. intros x. rewrite !elem_of_difference. tauto.
  - exists (l1 ++ l2). by rewrite Ht2, Ht1, app_assoc.
Qed.

Lemma sealRunFrame_calls (extentID : string) (c : Ctx) (calls : list Call) :
  sealRunFrame extentID c (with_trace (trace c ++ calls) c).
Proof. repeat (split; [done|]). split; [by left|]. by exists calls. Qed.

(** What one pass of the loop does to the event and to the controller. *)
Lemma handleStep_shape (isRetry : bool) (event : ExtentDownEvent) (c : Ctx) :
  exists step event' c',
    handleStep env isRetry event c = (step, event', c') /\
    sealRunFrame (ede_extentID event) c c' /\
    ede_dstID event' = ede_dstID event /\
    ede_extentID event' = ede_extentID event /\
    ede_sealSeq event' = ede_sealSeq event /\
    match step with
    | Return r =>
      event' = event /\
      (r = None \/ r = Some errRetryable /\ 0 <= ede_state event <= 2)
    | Continue =>
      0 <= ede_state event <= 2 /\ ede_state event' = ede_state event + 1 /\
      (ede_state event = updateMetadataState ->
       failed c' = failed c ∖ {[ede_extentID event]})
    end.
Proof.
  unfold handleStep.
  destruct (Z.eqb_spec (ede_state event) checkPreconditionState) as [H0|H0].
  { unfold checkPrecondition. rewrite run_bind. unfold ReadExtentStats.
    rewrite call_run. cbn [fst snd].
    destruct (mm_ReadExtentStats env _ _) as [stats|e].
    - destruct (negb _); unfold ret; do 3 eexists; (split; [reflexivity|]);
        (split; [apply sealRunFrame_calls|]); cbn;
        unfold checkPreconditionState, updateMetadataState, sealExtentState in *.
      + repeat (split; [done|]). auto.
      + repeat (split; [done|]). split; [lia|]. split; [lia|]. intros; lia.
    - unfold ret; do 3 eexists; (split; [reflexivity|]);
        (split; [apply sealRunFrame_calls|]); cbn.
      repeat (split; [done|]). right. unfold checkPreconditionState in *. split; [done|lia]. }
  destruct (Z.eqb_spec (ede_state event) sealExtentState) as [H1|H1].
  { destruct (sealExtent_shape isRetry event c) as (calls & step & Hrun & _ & Hstep).
    do 3 eexists. split; [exact Hrun|]. split; [apply sealRunFrame_calls|].
    unfold sealExtentState, updateMetadataState in *.
    destruct Hstep as [->|[-> _]]; cbn.
    - repeat (split; [done|]). right. split; [done|lia].
    - repeat (split; [done|]). split; [lia|]. split; [lia|]. intros; lia. }
  destruct (Z.eqb_spec (ede_state event) updateMetadataState) as [H2|H2].
  { unfold updateMetadata. rewrite run_bind. unfold metadata_SealExtent.
    rewrite call_run. cbn [fst snd].
    assert (Hgo : exists c',
      bind (failed_Remove (ede_extentID event))
        (fun _ => ret (Continue, with_state doneState event))
        (with_trace (trace c ++ [Call_metadata_SealExtent (ede_dstID event)
                                   (ede_extentID event)]) c) =
        (Continue, with_state doneState event, c') /\
      sealRunFrame (ede_extentID event) c c' /\
      failed c' = failed c ∖ {[ede_extentID event]}).
    { eexists. split; [reflexivity|]. split; [|done].
      repeat (split; [done|]). split; [by right|]. by eexists. }
    destruct Hgo as (c' & Hgo & Hframe & Hfailed).
    unfold updateMetadataState, doneState in *.
    destruct (mm_SealExtent env _ _) as [e|].
    - destruct (negb (isIllegalStateError e)).
      + unfold ret. do 3 eexists. split; [reflexivity|].
        split; [apply sealRunFrame_calls|]. cbn. repeat (split; [done|]).
        right. split; [done|lia].
      + do 3 eexists. split; [exact Hgo|]. split; [done|]. cbn.
        repeat (split; [done|]). split; [lia|]. split; [lia|]. done.
    - do 3 eexists. split; [exact Hgo|]. split; [done|]. cbn.
      repeat (split; [done|]). split; [lia|]. split; [lia|]. done. }
  destruct (ede_state event =? doneState); unfold ret; do 3 eexists;
    (split; [reflexivity|]); (split; [apply sealRunFrame_refl|]);
    repeat (split; [done|]); auto.
Qed.


Lemma handleLoop_shape (fuel : nat) :
  forall (isRetry : bool) (event : ExtentDownEvent) (c : Ctx) r event' c',
    handleLoop env fuel isRetry event c = Some (r, event', c') ->
    sealRunFrame (ede_extentID event) c c' /\
    ede_dstID event' = ede_dstID event /\
    ede_extentID event' = ede_extentID event /\
    ede_sealSeq event' = ede_sealSeq event /\
    ede_state event <= ede_state event' /\
    (r = None \/ r = Some errRetryable /\ 0 <= ede_state event' <= 2).
Proof.
  induction fuel as [|fuel IH]; intros isRetry event c r event' c' Hrun; [done|].
  rewrite handleLoop_step in Hrun.
  destruct (handleStep_shape isRetry event c)
    as (step & event1 & c1 & Hstep & Hframe & Hd & He & Hq & Hcase).
  rewrite Hstep in Hrun. destruct step as [r1|].
  - injection Hrun as <- <- <-. destruct Hcase as [-> Hr].
    split; [exact Hframe|]. do 3 (split; [done|]). split; [lia|exact Hr].
  - destruct Hcase as (Hrange & Hnext & _).
    apply IH in Hrun as (Hframe' & Hd' & He' & Hq' & Hs' & Hr').
    rewrite He in Hframe'.
    split; [by eapply sealRunFrame_trans|].
    split; [congruence|]. split; [congruence|]. split; [congruence|].
    split; [lia|done].
Qed.

(** X1.  [ExtentDownEvent.Handle] returns within four passes of its
    loop, and whatever the collaborators answer it enqueues no event
    and leaves the in-progress set and the result cache as they were;
    the failed set is unchanged or has lost the extent of the event,
    and nothing else; calls are only added to the trace. *)
Theorem ExtentDownEvent_Handle_frame (fuel : nat) (event : ExtentDownEvent) (c : Ctx) :
  (4 <= fuel)%nat ->
  exists r event' c',
    ExtentDownEvent_Handle env fuel event c = Some (r, event', c') /\
    pipeline c' = pipeline c /\
    inProgress c' = inProgress c /\
    resultCache c' = resultCache c /\
    (failed c' = failed c \/ failed c' = failed c ∖ {[ede_extentID event]}) /\
    exists calls, trace c' = trace c ++ calls.
Proof.
  intros Hf. destruct (ExtentDownEvent_Handle_returns env fuel event c Hf)
    as ([[r event'] c'] & _ & Hrun).
  exists r, event', c'. split; [done|].
  apply handleLoop_shape in Hrun as ((Hp & Hi & Hr & _ & Hfa & Hc) & _). auto.
Qed.

(** X2.  [ExtentDownEvent.Handle] returns nil or errRetryable and no
    other error; it never moves the state of the event backwards and
    keeps its destination, extent and seal sequence; when it returns
    errRetryable the event is left in the checkPrecondition, sealExtent
    or updateMetadata state, where a retry resumes. *)
Theorem ExtentDownEvent_Handle_result (fuel : nat) (event : ExtentDownEvent) (c : Ctx) :
  (4 <= fuel)%nat ->
  exists r event' c',
    ExtentDownEvent_Handle env fuel event c = Some (r, event', c') /\
    (r = None \/ r = Some errRetryable) /\
    (r = Some errRetryable ->
     ede_state event' = checkPreconditionState \/ ede_state event' = sealExtentState \/
     ede_state event' = updateMetadataState) /\
    ede_state event <= ede_state event' /\
    ede_dstID event' = ede_dstID event /\
    ede_extentID event' = ede_extentID event /\
    ede_sealSeq event' = ede_sealSeq event.
Proof.
  intros Hf. destruct (ExtentDownEvent_Handle_returns env fuel event c Hf)
    as ([[r event'] c'] & _ & Hrun).
  exists r, event', c'. split; [done|].
  apply handleLoop_shape in Hrun as (_ & Hd & He & Hq & Hs & Hr).
  split; [destruct Hr as [->|[-> _]]; auto|].
  split; [|auto].
  intros ->. destruct Hr as [[=]|[_ Hrange]].
  unfold checkPreconditionState, sealExtentState, updateMetadataState. lia.
Qed.




Lemma handleLoop_reaches_done (fuel : nat) :
  forall (isRetry : bool) (event : ExtentDownEvent) (c : Ctx) r event' c',
    handleLoop env fuel isRetry event c = Some (r, event', c') ->
    0 <= ede_state event <= 2 -> ede_state event' = doneState ->
    r = None /\ ede_extentID event ∉ failed c'.
Proof.
  induction fuel as [|fuel IH]; intros isRetry event c r event' c' Hrun Hs Hd; [done|].
  rewrite handleLoop_step in Hrun.
  destruct (handleStep_shape isRetry event c)
    as (step & event1 & c1 & Hstep & Hframe & _ & He & _ & Hcase).
  rewrite Hstep in Hrun. destruct step as [r1|].
  - injection Hrun as <- <- <-. destruct Hcase as [-> _].
    unfold doneState in Hd. lia.
  - destruct Hcase as (_ & Hnext & Hupd).
    destruct (Z.eq_dec (ede_state event) updateMetadataState) as [H2|H2].
    + destruct fuel as [|fuel]; [done|].
      rewrite handleLoop_step, handleStep_done in Hrun
        by (rewrite Hnext, H2; reflexivity).
      injection Hrun as <- <- <-. split; [done|]. rewrite (Hupd H2).
      rewrite elem_of_difference, elem_of_singleton. tauto.
    + rewrite <- He. eapply IH; [exact Hrun| |done].
      unfold updateMetadataState in H2. lia.
Qed.

(** X4.  When [Handle] has taken an event from the checkPrecondition,
    sealExtent or updateMetadata state to the done state, it has
    returned nil, and after [Done] is called with that result the
    extent is neither in the failed set nor in the in-progress set;
    handling the event once more returns nil, issues no call and
    changes nothing. *)
Theorem ExtentDownEvent_Handle_then_Done
    (fuel : nat) (event event' : ExtentDownEvent) (c c' : Ctx) (r : option error) :
  0 <= ede_state event <= 2 ->
  ExtentDownEvent_Handle env fuel event c = Some (r, event', c') ->
  ede_state event' = doneState ->
  r = None /\
  (ede_extentID event ∉ failed (snd (ExtentDownEvent_Done env event' r c'))) /\
  (ede_extentID event ∉ inProgress (snd (ExtentDownEvent_Done env event' r c'))) /\
  forall fuel' c'',
    ExtentDownEvent_Handle env (S fuel') event' c'' = Some (None, event', c'').
Proof.
  intros Hs Hrun Hd. unfold ExtentDownEvent_Handle in Hrun.
  pose proof (handleLoop_shape _ _ _ _ _ _ _ Hrun) as (_ & _ & He & _).
  destruct (handleLoop_reaches_done _ _ _ _ _ _ _ Hrun Hs Hd) as [-> Hnot].
  split; [done|]. split; [|split].
  - unfold ExtentDownEvent_Done, bind, ret, inProgress_Remove. exact Hnot.
  - rewrite ExtentDownEvent_Done_inProgress, He.
    rewrite elem_of_difference, elem_of_singleton. tauto.
  - intros fuel' c''. unfold ExtentDownEvent_Handle.
    by rewrite handleLoop_step, handleStep_done.
Qed.


Lemma handleStep_balanced (isRetry : bool) (event : ExtentDownEvent) (c : Ctx) :
  exists calls,
    trace (snd (handleStep env isRetry event c)) = trace c ++ calls /\
    clientsReleased calls = clientsVended env calls.
Proof.
  unfold handleStep.
  destruct (ede_state event =? checkPreconditionState).
  { exists [Call_ReadExtentStats (ede_dstID event) (ede_extentID event)].
    split; [|done]. unfold checkPrecondition. rewrite run_bind. unfold ReadExtentStats.
    rewrite call_run. cbn [fst snd].
    destruct (mm_ReadExtentStats env _ _) as [stats|e]; [destruct (negb _)|]; done. }
  destruct (ede_state event =? sealExtentState).
  { destruct (sealExtent_shape isRetry event c) as (calls & step & Hrun & [_ Hbal] & _).
    exists calls. by rewrite Hrun. }
  destruct (ede_state event =? updateMetadataState).
  { exists [Call_metadata_SealExtent (ede_dstID event) (ede_extentID event)].
    split; [|done]. unfold updateMetadata. rewrite run_bind. unfold metadata_SealExtent.
    rewrite call_run. cbn [fst snd].
    destruct (mm_SealExtent env _ _) as [e|]; [destruct (negb _)|]; done. }
  exists []. rewrite app_nil_r. by destruct (ede_state event =? doneState).
Qed.

Lemma handleLoop_balanced (fuel : nat) :
  forall (isRetry : bool) (event : ExtentDownEvent) (c : Ctx) r event' c',
    handleLoop env fuel isRetry event c = Some (r, event', c') ->
    exists calls,
      trace c' = trace c ++ calls /\ clientsReleased calls = clientsVended env calls.
Proof.
  induction fuel as [|fuel IH]; intros isRetry event c r event' c' Hrun; [done|].
  rewrite handleLoop_step in Hrun.
  destruct (handleStep_balanced isRetry event c) as (calls1 & Ht1 & Hb1).
  destruct (handleStep env isRetry event c) as [[[r1|] event1] c1]; cbn [snd] in Ht1.
  - injection Hrun as <- <- <-. by exists calls1.
  - apply IH in Hrun as (calls2 & Ht2 & Hb2). exists (calls1 ++ calls2).
    split; [by rewrite Ht2, Ht1, app_assoc|].
    by rewrite clientsReleased_app, clientsVended_app, Hb1, Hb2.
Qed.

(** X5.  In a run of [ExtentDownEvent.Handle], whatever the number of
    stores and the outcome of the seals, every store client the
    factory vended is released before [Handle] returns, and no client
    is released that was not vended: the goroutines being run one after
    the other, the stores released are the stores vended, in order. *)
Theorem ExtentDownEvent_Handle_releases_clients
    (fuel : nat) (event : ExtentDownEvent) (c : Ctx) :
  (4 <= fuel)%nat ->
  exists r event' c' calls,
    ExtentDownEvent_Handle env fuel event c = Some (r, event', c') /\
    trace c' = trace c ++ calls /\
    clientsReleased calls = clientsVended env calls.
Proof.
  intros Hf. destruct (ExtentDownEvent_Handle_returns env fuel event c Hf)
    as ([[r event'] c'] & _ & Hrun).
  destruct (handleLoop_balanced _ _ _ _ _ _ _ Hrun) as (calls & Ht & Hb).
  by exists r, event', c', calls.
Qed.

(** *** Cleanup *)

(** X6.  [ExtentDownEvent.Done] changes the membership of no other
    extent than the one of the event, in the failed set and in the
    in-progress set, and leaves queue, cache and trace alone.  Without
    error the failed set is unchanged; with an error the extent is
    inserted unless the set holds more than
    [maxFailedExtentSealSetSize] extents; a failed set of at most
    [maxFailedExtentSealSetSize + 1] extents stays so. *)
Theorem ExtentDownEvent_Done_failed_set
    (event : ExtentDownEvent) (err : option error) (c : Ctx) :
  let c' := snd (ExtentDownEvent_Done env event err c) in
  let size_failed := Z.of_nat (size (failed c)) in
  (forall x, x <> ede_extentID event ->
     (x ∈ failed c' <-> x ∈ failed c) /\ (x ∈ inProgress c' <-> x ∈ inProgress c)) /\
  pipeline c' = pipeline c /\ resultCache c' = resultCache c /\ trace c' = trace c /\
  (err = None -> failed c' = failed c) /\
  (size_failed > maxFailedExtentSealSetSize env -> failed c' = failed c) /\
  (err <> None -> size_failed <= maxFailedExtentSealSetSize env ->
     failed c' = {[ede_extentID event]} ∪ failed c) /\
  (0 <= maxFailedExtentSealSetSize env ->
   size_failed <= maxFailedExtentSealSetSize env + 1 ->
   Z.of_nat (size (failed c')) <= maxFailedExtentSealSetSize env + 1).
Proof.
  intros c' size_failed.
  assert (Hc' : c' = with_inProgress (inProgress c ∖ {[ede_extentID event]})
            (match err with
             | Some _ =>
               if size_failed >? maxFailedExtentSealSetSize env then c
               else with_failed ({[ede_extentID event]} ∪ failed c) c
             | None => c
             end)).
  { unfold c', ExtentDownEvent_Done, bind, failed_Size, failed_Put, inProgress_Remove, ret.
    destruct err as [e|]; [|done]. fold size_failed.
    by destruct (size_failed >? maxFailedExtentSealSetSize env). }
  destruct (Z.gtb_spec size_failed (maxFailedExtentSealSetSize env)) as [Hover|Hroom].
  - assert (Hf : failed c' = failed c) by (rewrite Hc'; by destruct err).
    split.
    { intros x Hx. rewrite Hf. split; [done|]. rewrite Hc'. cbn.
      rewrite elem_of_difference, elem_of_singleton. tauto. }
    split; [rewrite Hc'; by destruct err|]. split; [rewrite Hc'; by destruct err|].
    split; [rewrite Hc'; by destruct err|]. split; [done|]. split; [done|].
    split; [lia|]. rewrite Hf. done.
  - destruct err as [e|].
    + assert (Hf : failed c' = {[ede_extentID event]} ∪ failed c) by (by rewrite Hc').
      split.
      { intros x Hx. rewrite Hf, Hc'. cbn.
        rewrite elem_of_union, elem_of_difference, !elem_of_singleton. tauto. }
      split; [by rewrite Hc'|]. split; [by rewrite Hc'|]. split; [by rewrite Hc'|].
      split; [done|]. split; [lia|]. split; [done|].
      intros Hmax _. rewrite Hf.
      pose proof (size_union_alt ({[ede_extentID event]} : gset string) (failed c)) as Hu.
      rewrite Hu, size_singleton.
      assert (size (failed c ∖ {[ede_extentID event]}) <= size (failed c))%nat.
      { apply subseteq_size. intros x Hx. apply elem_of_difference in Hx. tauto. }
      unfold size_failed in *. lia.
    + assert (Hf : failed c' = failed c) by (by rewrite Hc').
      split.
      { intros x Hx. rewrite Hf, Hc'. cbn.
        rewrite elem_of_difference, elem_of_singleton. tauto. }
      split; [by rewrite Hc'|]. split; [by rewrite Hc'|]. split; [by rewrite Hc'|].
      split; [done|]. split; [lia|]. split; [done|]. by rewrite Hf.
Qed.

(** *** Result cache *)

(** X7.  [triggerCacheRefreshForCG], called at a time [now] for which
    now + 500 ms fits in int64, touches no entry of another consumer
    group and nothing but the cache; the entry of the consumer group is
    either left as it was or given the expiry [now], which is at least
    500 ms before the expiry that was read: the trigger only ever
    brings an expiry forward. *)
Theorem triggerCacheRefreshForCG_only_shortens (cgID : string) (c : Ctx) :
  int64_min <= clock c ->
  clock c + resultCacheRefreshMaxWaitTime <= int64_max ->
  let c' := snd (triggerCacheRefreshForCG env cgID c) in
  let result := resultCache_readOutputHosts env (resultCache c) cgID (clock c) in
  pipeline c' = pipeline c /\ failed c' = failed c /\ inProgress c' = inProgress c /\
  (forall k, k <> cgID -> resultCache c' !! k = resultCache c !! k) /\
  (resultCache c' = resultCache c \/
   exists entry,
     resultCache c' !! cgID = Some entry /\
     rcp_expiry entry = clock c /\
     rcp_expiry entry + resultCacheRefreshMaxWaitTime <= expiry result).
Proof.
  intros Hlo Hhi c' result.
  assert (Hd : int64_add (clock c) resultCacheRefreshMaxWaitTime =
               clock c + resultCacheRefreshMaxWaitTime).
  { unfold int64_add. apply wrap64_small.
    unfold resultCacheRefreshMaxWaitTime, Millisecond in *. lia. }
  unfold c', triggerCacheRefreshForCG. rewrite run_bind. unfold time_Now. cbn [fst snd].
  rewrite run_bind. unfold readOutputHosts. rewrite call_run. cbn [fst snd].
  fold result. rewrite Hd.
  destruct (negb (cacheHit result) || refreshCache result).
  { unfold ret. cbn. repeat (split; [done|]). by left. }
  destruct (Z.ltb_spec (expiry result) (clock c + resultCacheRefreshMaxWaitTime)).
  { unfold ret. cbn. repeat (split; [done|]). by left. }
  unfold resultCache_write, emit. cbn. repeat (split; [done|]). split.
  - intros k Hk. by rewrite lookup_insert_ne.
  - right. eexists. split; [apply lookup_insert_eq|]. cbn. split; [done|lia].
Qed.

(** *** StoreExtentStatusOutOfSyncEvent *)

(** X8.  [StoreExtentStatusOutOfSyncEvent.Handle]: when the store does
    not resolve it returns errRetryable and has done nothing else, so
    that the extent stays in the in-progress set.  When the store
    resolves it returns nil whether the seal succeeds or not; the seal
    is a first attempt without sequence number, its client is released
    when one was vended, the cache is then invalidated once for this
    store and extent and the extent leaves the in-progress set;
    queue, failed set and result cache are never touched. *)
Theorem StoreExtentStatusOutOfSyncEvent_Handle_correct
    (event : StoreExtentStatusOutOfSyncEvent) (c : Ctx) :
  let run := StoreExtentStatusOutOfSyncEvent_Handle env event c in
  let resolve := Call_ResolveUUID StoreServiceName (oos_storeID event) in
  (forall e, rpm_ResolveUUID env StoreServiceName (oos_storeID event) = inr e ->
     run = (Some errRetryable, with_trace (trace c ++ [resolve]) c)) /\
  (forall addr, rpm_ResolveUUID env StoreServiceName (oos_storeID event) = inl addr ->
     let sealCalls :=
       sealExtentOnStore_calls env (oos_storeID event) addr (oos_extentID event) 0 false in
     run =
       (None,
        with_inProgress (inProgress c ∖ {[oos_extentID event]})
          (with_trace
             (trace c ++ resolve :: sealCalls ++
              [Call_invalidateStoreExtentCache (oos_storeID event) (oos_extentID event)])
             c)) /\
     clientsReleased sealCalls = clientsVended env sealCalls /\
     (forall client req timeout policy,
        Call_store_SealExtent client req timeout policy ∈ sealCalls ->
        client = mkStoreClient addr (oos_storeID event) /\
        req = mkSealExtentRequest (oos_extentID event) None /\
        timeout = sealExtentInitialCallTimeout /\
        policy = sealExtentInitialRetryPolicy)).
Proof.
  intros run resolve. unfold run, StoreExtentStatusOutOfSyncEvent_Handle.
  rewrite run_bind. unfold ResolveUUID. rewrite call_run. cbn [fst snd]. split.
  - intros e ->. reflexivity.
  - intros addr ->.
    set (sealCalls :=
      sealExtentOnStore_calls env (oos_storeID event) addr (oos_extentID event) 0 false).
    split; [|split].
    + rewrite run_bind, sealExtentOnStore_run. cbn [fst snd].
      unfold bind, invalidateStoreExtentCache, emit, inProgress_Remove, ret.
      unfold with_inProgress, with_trace. cbn. fold sealCalls.
      by rewrite <- !app_assoc.
    + apply clients_sealExtentOnStore.
    + intros client req timeout policy Hin.
      unfold sealCalls, sealExtentOnStore_calls, sealExtentOnStore,
        GetThriftStoreClient, ReleaseThriftStoreClient, call, emit, bind, ret in Hin.
      destruct (clientFactory_GetThriftStoreClient env addr (oos_storeID event));
        cbn in Hin.
      * apply list_elem_of_singleton in Hin. discriminate.
      * repeat (apply elem_of_cons in Hin as [Hin|Hin]; [try discriminate|]).
        -- by injection Hin as -> -> -> ->.
        -- by apply elem_of_nil in Hin.
Qed.

(** *** Notifications *)

Section Notifications.

Variable admin : AdminEnv.

(** X9.  [InputHostNotificationEvent.Handle] returns nil on every path:
    an input host that does not resolve, a client that cannot be made
    and a notification that fails after its retries are all swallowed.
    It changes nothing in the controller beyond resolving the host.
    DestinationsUpdated is sent exactly when the host resolves and the
    client is made, with the 10 s timeout and the notification retry
    policy, and its request holds one update carrying the destination,
    notification type, extent and stores of the event; the admin side
    sees at most the making of the client and that request. *)
Theorem InputHostNotificationEvent_Handle_swallows_failures
    (event : InputHostNotificationEvent) (c : Ctx) :
  let run := InputHostNotificationEvent_Handle env admin event c in
  let sent := snd (fst run) in
  fst (fst run) = None /\
  snd run =
    with_trace (trace c ++ [Call_ResolveUUID InputServiceName (ihn_inputHostID event)]) c /\
  (forall addr req timeout policy,
     AdminCall_DestinationsUpdated addr req timeout policy ∈ sent <->
     rpm_ResolveUUID env InputServiceName (ihn_inputHostID event) = inl addr /\
     CreateInputHostAdminClient admin addr = None /\
     req = mkDestinationsUpdatedRequest (uuid_New admin)
             [mkDestinationUpdatedNotification (ihn_dstID event)
                (ihn_notificationType event) (ihn_extentID event) (ihn_storeIDs event)] /\
     timeout = thriftCallTimeout /\ policy = notificationRetryPolicy) /\
  (length sent <= 2)%nat.
Proof.
  intros run sent. unfold sent, run, InputHostNotificationEvent_Handle.
  rewrite run_bind. unfold ResolveUUID. rewrite call_run. cbn [fst snd].
  destruct (rpm_ResolveUUID env InputServiceName (ihn_inputHostID event)) as [addr|e].
  - destruct (CreateInputHostAdminClient admin addr) as [e|] eqn:Hc; unfold ret; cbn.
    + split; [done|]. split; [done|]. split; [|lia].
      intros addr' req timeout policy. split.
      * intros Hin. apply list_elem_of_singleton in Hin. discriminate.
      * intros ([= <-] & Hc' & _). congruence.
    + split; [done|]. split; [done|]. split; [|lia].
      intros addr' req timeout policy. split.
      * intros Hin. apply elem_of_cons in Hin as [[=]|Hin].
        apply list_elem_of_singleton in Hin. by injection Hin as -> -> -> ->.
      * intros ([= <-] & _ & -> & -> & ->). right. left.
  - unfold ret. cbn. split; [done|]. split; [done|]. split; [|lia].
    intros addr req timeout policy. split.
    + intros Hin. by apply elem_of_nil in Hin.
    + intros ([=] & _).
Qed.

(** X10.  [OutputHostNotificationEvent.Handle] returns nil on every
    path and changes nothing in the controller beyond resolving the
    host.  ConsumerGroupsUpdated is sent exactly when the output host
    resolves and the client is made, and its request holds one update
    carrying the consumer group and the notification type of the
    event; the admin side sees at most the making of the client and
    that request. *)
Theorem OutputHostNotificationEvent_Handle_swallows_failures
    (event : OutputHostNotificationEvent) (c : Ctx) :
  let run := OutputHostNotificationEvent_Handle env admin event c in
  let sent := snd (fst run) in
  fst (fst run) = None /\
  snd run =
    with_trace (trace c ++ [Call_ResolveUUID OutputServiceName (ohn_outputHostID event)])
      c /\
  (forall addr req timeout policy,
     AdminCall_ConsumerGroupsUpdated addr req timeout policy ∈ sent <->
     rpm_ResolveUUID env OutputServiceName (ohn_outputHostID event) = inl addr /\
     CreateOutputHostAdminClient admin addr = None /\
     req = mkConsumerGroupsUpdatedRequest (uuid_New admin)
             [mkConsumerGroupUpdatedNotification (ohn_consGroupID event)
                (ohn_notificationType event)] /\
     timeout = thriftCallTimeout /\ policy = notificationRetryPolicy) /\
  (length sent <= 2)%nat.
Proof.
  intros run sent. unfold sent, run, OutputHostNotificationEvent_Handle.
  rewrite run_bind. unfold ResolveUUID. rewrite call_run. cbn [fst snd].
  destruct (rpm_ResolveUUID env OutputServiceName (ohn_outputHostID event)) as [addr|e].
  - destruct (CreateOutputHostAdminClient admin addr) as [e|] eqn:Hc; unfold ret; cbn.
    + split; [done|]. split; [done|]. split; [|lia].
      intros addr' req timeout policy. split.
      * intros Hin. apply list_elem_of_singleton in Hin. discriminate.
      * intros ([= <-] & Hc' & _). congruence.
    + split; [done|]. split; [done|]. split; [|lia].
      intros addr' req timeout policy. split.
      * intros Hin. apply elem_of_cons in Hin as [[=]|Hin].
        apply list_elem_of_singleton in Hin. by injection Hin as -> -> -> ->.
      * intros ([= <-] & _ & -> & -> & ->). right. left.
  - unfold ret. cbn. split; [done|]. split; [done|]. split; [|lia].
    intros addr req timeout policy. split.
    + intros Hin. by apply elem_of_nil in Hin.
    + intros ([=] & _).
Qed.

End Notifications.

(** *** Replication kickoff *)

Lemma primaryAttempt_clients (event : RemoteZoneExtentCreatedEvent) (primary : string) :
  let attempt := primaryAttempt env event primary in
  clientsReleased (fst attempt) = [] /\
  (snd attempt = None -> clientsVended env (fst attempt) = [primary]) /\
  (clientsVended env (fst attempt) = [primary] \/ clientsVended env (fst attempt) = []).
Proof.
  unfold primaryAttempt.
  destruct (rpm_ResolveUUID env StoreServiceName primary) as [addr|e]; cbn.
  - destruct (clientFactory_GetThriftStoreClient env addr primary) as [e|] eqn:E;
      cbn; rewrite E; cbn; auto. split; [done|]. split; [done|]. by right.
  - split; [done|]. split; [done|]. by right.
Qed.

Lemma secondaryAttempt_clients (event : RemoteZoneExtentCreatedEvent)
    (primary s : string) :
  let attempt := secondaryAttempt env event primary s in
  clientsReleased (fst attempt) = [] /\
  (snd attempt = None -> clientsVended env (fst attempt) = [s]) /\
  (clientsVended env (fst attempt) = [s] \/ clientsVended env (fst attempt) = []).
Proof.
  unfold secondaryAttempt.
  destruct (rpm_ResolveUUID env StoreServiceName s) as [addr|e]; cbn.
  - destruct (clientFactory_GetThriftStoreClient env addr s) as [e|] eqn:E;
      cbn; rewrite E; cbn; auto. split; [done|]. split; [done|]. by right.
  - split; [done|]. split; [done|]. by right.
Qed.

Lemma secondariesRun_clients (event : RemoteZoneExtentCreatedEvent) (primary : string)
    (secondaries : list string) :
  let run := secondariesRun env event primary secondaries in
  clientsReleased (fst run) = [] /\
  clientsVended env (fst run) `prefix_of` secondaries /\
  (snd run = None <->
   forall s, s ∈ secondaries -> snd (secondaryAttempt env event primary s) = None) /\
  (snd run = None -> clientsVended env (fst run) = secondaries).
Proof.
  induction secondaries as [|s rest IH]; cbn [secondariesRun].
  - cbn. split; [done|]. split; [done|]. split; [|done]. split; [|done].
    intros _ s Hs. by apply elem_of_nil in Hs.
  - destruct (secondaryAttempt_clients event primary s) as (Hrel & Hok & Hany).
    cbv zeta in IH. destruct IH as (IHrel & IHpre & IHiff & IHall).
    destruct (snd (secondaryAttempt env event primary s)) as [e|] eqn:E; cbn [fst snd].
    + split; [done|]. split.
      { destruct Hany as [-> | ->]; [by exists rest | apply prefix_nil]. }
      split; [|done]. split; [done|]. intros Hall.
      specialize (Hall s (list_elem_of_here _ _)). congruence.
    + rewrite clientsReleased_app, clientsVended_app, Hrel, IHrel, (Hok eq_refl).
      split; [done|]. split; [by apply prefix_cons|]. split.
      * rewrite IHiff. split.
        -- intros Hall x Hx. apply elem_of_cons in Hx as [->|Hx]; auto.
        -- intros Hall x Hx. apply Hall. by right.
      * intros Hnone. by rewrite (IHall Hnone).
Qed.

(** X11.  [RemoteZoneExtentCreatedEvent.Handle] on a non-empty list of
    stores changes nothing but the record of its calls, and it never
    releases a store client: the clients vended during the run are
    those of a prefix of the store list, in list order, and all of them
    are still held when [Handle] returns.  It returns nil exactly when
    the replication was started on the primary and on every secondary,
    and then one client per store of the event has been vended. *)
Theorem RemoteZoneExtentCreatedEvent_Handle_keeps_clients
    (event : RemoteZoneExtentCreatedEvent) (primary : string)
    (secondaries : list string) (c : Ctx) :
  rze_storeIDs event = primary :: secondaries ->
  let run := RemoteZoneExtentCreatedEvent_Handle env event c in
  exists calls,
    snd run = with_trace (trace c ++ calls) c /\
    clientsReleased calls = [] /\
    clientsVended env calls `prefix_of` rze_storeIDs event /\
    (fst run = Returns None <->
     snd (primaryAttempt env event primary) = None /\
     forall s, s ∈ secondaries -> snd (secondaryAttempt env event primary s) = None) /\
    (fst run = Returns None -> clientsVended env calls = rze_storeIDs event).
Proof.
  intros Hids run. unfold run.
  rewrite (RemoteZoneExtentCreatedEvent_Handle_run env event primary secondaries c Hids).
  rewrite Hids.
  destruct (primaryAttempt_clients event primary) as (Hrel & Hok & Hany).
  destruct (secondariesRun_clients event primary secondaries)
    as (Srel & Spre & Siff & Sall). cbv zeta in *.
  destruct (snd (primaryAttempt env event primary)) as [e|] eqn:E; cbn [fst snd].
  - exists (fst (primaryAttempt env event primary)).
    split; [done|]. split; [done|]. split.
    { destruct Hany as [-> | ->]; [by exists secondaries | apply prefix_nil]. }
    split; [|done]. split; [done|]. by intros [? _].
  - exists (fst (primaryAttempt env event primary) ++
            fst (secondariesRun env event primary secondaries)).
    split; [done|].
    rewrite clientsReleased_app, clientsVended_app, Hrel, Srel, (Hok eq_refl).
    split; [done|]. split; [by apply prefix_cons|]. split.
    + rewrite <- Siff. split.
      * intros [= ->]. done.
      * intros [_ ->]. done.
    + intros [= Hnone]. by rewrite (Sall Hnone).
Qed.

(** *** Sealing one store *)

(** X12.  [sealExtentOnStore]: when the client factory fails, its error
    is returned as it is, the store is not called and nothing is
    released.  Otherwise SealExtent is sent once to the client of that
    address and store, the client is released afterwards, and what the
    retried call ends with is returned.  The request names the extent;
    it carries the sequence number when this is positive and none
    when it is zero or negative.  A first attempt is given 2 s per call
    and the policy (500 ms, 10 s, 1 min, 2 attempts), a retry 20 s and
    the policy (3 s, 30 s, 1 min, 3 attempts). *)
Theorem sealExtentOnStore_request
    (storeUUID storeAddr extentID : string) (seq : Z) (isRetry : bool) (c : Ctx) :
  let run := sealExtentOnStore env storeUUID storeAddr extentID seq isRetry c in
  let client := mkStoreClient storeAddr storeUUID in
  (forall e, clientFactory_GetThriftStoreClient env storeAddr storeUUID = Some e ->
     run = (Some e,
            with_trace (trace c ++ [Call_GetThriftStoreClient storeAddr storeUUID]) c)) /\
  (clientFactory_GetThriftStoreClient env storeAddr storeUUID = None ->
   exists req timeout policy,
     run = (store_SealExtent env client req timeout policy,
            with_trace
              (trace c ++
               [Call_GetThriftStoreClient storeAddr storeUUID;
                Call_store_SealExtent client req timeout policy;
                Call_ReleaseThriftStoreClient storeUUID]) c) /\
     seal_ExtentUUID req = extentID /\
     (seq <= 0 -> seal_SequenceNumber req = None) /\
     (0 < seq -> seal_SequenceNumber req = Some seq) /\
     (isRetry = false ->
      timeout = 2 * Second /\
      policy = mkRetryPolicy (500 * Millisecond) (10 * Second) Minute 2) /\
     (isRetry = true ->
      timeout = 20 * Second /\
      policy = mkRetryPolicy (3 * Second) (30 * Second) Minute 3)).
Proof.
  intros run client. unfold run, sealExtentOnStore. rewrite run_bind.
  unfold GetThriftStoreClient. rewrite call_run. cbn [fst snd]. split.
  - intros e ->. reflexivity.
  - intros ->. do 3 eexists. split.
    + rewrite run_bind, call_run. cbn [fst snd]. unfold bind, ReleaseThriftStoreClient,
        emit, ret. cbn. rewrite <- !app_assoc. reflexivity.
    + cbn. split; [done|]. split.
      { intros Hle. destruct (Z.ltb_spec 0 seq); [lia|done]. }
      split.
      { intros Hlt. destruct (Z.ltb_spec 0 seq); [done|lia]. }
      split; intros ->; done.
Qed.

(** *** What the scheduling of notifications leaves alone *)

Lemma keepsSealSets_ret {A : Type} (a : A) : keepsSealSets (ret a).
Proof. by intros c. Qed.

Lemma keepsSealSets_bind {A B : Type} (m : M A) (k : A -> M B) :
  keepsSealSets m -> (forall a, keepsSealSets (k a)) -> keepsSealSets (bind m k).
Proof.
  intros Hm Hk c. rewrite run_bind. destruct (Hm c) as [Hf Hi].
  destruct (Hk (fst (m c)) (snd (m c))) as [Hf' Hi']. by rewrite Hf', Hi'.
Qed.

Lemma keepsSealSets_call {A : Type} (call' : Call) (a : A) : keepsSealSets (call call' a).
Proof. by intros c. Qed.

Lemma keepsSealSets_forEach {A : Type} (body : A -> M unit) (xs : list A) :
  (forall x, keepsSealSets (body x)) -> keepsSealSets (forEach body xs).
Proof.
  intros Hb. induction xs as [|x xs IH]; cbn [forEach].
  - apply keepsSealSets_ret.
  - apply keepsSealSets_bind; [apply Hb|]. intros _. apply IH.
Qed.

Lemma keepsSealSets_Add (e : Event) : keepsSealSets (Add env e).
Proof. intros c. unfold Add. by destruct (_ <? _)%nat. Qed.

Lemma keepsSealSets_triggerCacheRefreshForCG (cgID : string) :
  keepsSealSets (triggerCacheRefreshForCG env cgID).
Proof.
  intros c.
  unfold triggerCacheRefreshForCG, time_Now, readOutputHosts, resultCache_write,
    call, emit, bind, ret.
  destruct (negb _ || _); [done|]. destruct (_ <? _); done.
Qed.

Lemma keepsSealSets_reconfigureAllConsumers (dstID extentID reason reasonContext : string) :
  keepsSealSets (reconfigureAllConsumers env dstID extentID reason reasonContext).
Proof.
  unfold reconfigureAllConsumers. apply keepsSealSets_bind; [apply keepsSealSets_call|].
  intros r. apply keepsSealSets_forEach. intros cgd. unfold reconfigureConsumerGroup.
  destruct (negb _); [apply keepsSealSets_ret|].
  apply keepsSealSets_bind; [apply keepsSealSets_call|].
  intros [extents|e]; [|apply keepsSealSets_ret].
  apply keepsSealSets_bind; [|intros _; apply keepsSealSets_triggerCacheRefreshForCG].
  apply keepsSealSets_forEach. intros kv.
  apply keepsSealSets_bind; [|intros _; apply keepsSealSets_ret].
  apply keepsSealSets_Add.
Qed.

Lemma enqueuesOnly_weaken {A : Type} (P Q : Event -> Prop) (m : M A) :
  (forall e, P e -> Q e) -> enqueuesOnly P m -> enqueuesOnly Q m.
Proof.
  intros HPQ Hm c. destruct (Hm c) as (outs & Hp & HF). exists outs. split; [done|].
  eapply Forall_impl; eauto.
Qed.

(** X13.  [ExtentCreatedEvent.Handle] returns nil whatever the metadata
    store answers and whatever the queue takes.  It only appends to the
    queue, and only notifications to input hosts and to output hosts;
    it never touches the failed set nor the in-progress set, so that
    the creation of an extent cannot disturb a seal under way. *)
Theorem ExtentCreatedEvent_Handle_only_notifies (event : ExtentCreatedEvent) (c : Ctx) :
  let run := ExtentCreatedEvent_Handle env event c in
  fst run = None /\
  (exists outs,
     pipeline (snd run) = pipeline c ++ outs /\
     Forall (fun e => isInputHostNotification e \/ isOutputHostNotification e) outs) /\
  failed (snd run) = failed c /\
  inProgress (snd run) = inProgress c.
Proof.
  intros run.
  set (notification := fun e => isInputHostNotification e \/ isOutputHostNotification e).
  assert (Hinput : forall dstID host extentID storeIDs reason ctx type,
            notification (NewInputHostNotificationEvent dstID host extentID storeIDs
                            reason ctx type)).
  { intros. left. unfold NewInputHostNotificationEvent. by eexists. }
  assert (Hnil : fst run = None).
  { unfold run, ExtentCreatedEvent_Handle. rewrite run_bind.
    unfold ListExtentsByDstIDStatus. rewrite call_run. cbn [fst snd].
    rewrite run_bind. destruct (fst (Add env _ _)); cbn [negb]; [|done].
    by rewrite !run_bind. }
  assert (Hq : enqueuesOnly notification (ExtentCreatedEvent_Handle env event)).
  { unfold ExtentCreatedEvent_Handle.
    apply enqueuesOnly_bind; [apply enqueuesOnly_call|]. intros r.
    apply enqueuesOnly_bind; [apply enqueuesOnly_Add, Hinput|].
    intros [|]; cbn [negb]; [|apply enqueuesOnly_ret].
    apply enqueuesOnly_bind.
    { apply enqueuesOnly_forEach. intros kv.
      apply enqueuesOnly_bind; [apply enqueuesOnly_Add, Hinput|].
      intros _. apply enqueuesOnly_ret. }
    intros _. apply enqueuesOnly_bind; [|intros _; apply enqueuesOnly_ret].
    eapply enqueuesOnly_weaken; [|apply enqueuesOnly_reconfigureAllConsumers].
    intros e He. by right. }
  assert (Hk : keepsSealSets (ExtentCreatedEvent_Handle env event)).
  { unfold ExtentCreatedEvent_Handle.
    apply keepsSealSets_bind; [apply keepsSealSets_call|]. intros r.
    apply keepsSealSets_bind; [apply keepsSealSets_Add|].
    intros [|]; cbn [negb]; [|apply keepsSealSets_ret].
    apply keepsSealSets_bind.
    { apply keepsSealSets_forEach. intros kv.
      apply keepsSealSets_bind; [apply keepsSealSets_Add|].
      intros _. apply keepsSealSets_ret. }
    intros _. apply keepsSealSets_bind; [|intros _; apply keepsSealSets_ret].
    apply keepsSealSets_reconfigureAllConsumers. }
  split; [done|]. split; [apply Hq|]. apply Hk.
Qed.

(** *** Notification scheduling *)

Lemma cacheReads_app (l1 l2 : list Call) :
  cacheReads (l1 ++ l2) = cacheReads l1 ++ cacheReads l2.
Proof. apply omap_app. Qed.

Lemma Add_then_ret (e : Event) (c : Ctx) :
  snd (bind (Add env e) (fun _ => ret tt) c) = snd (Add env e c).
Proof. unfold bind, ret. by destruct (Add env e c). Qed.

(** Offering a list of events issues [Add] calls only and touches
    nothing but the queue. *)
Lemma forEach_Add_calls {K : Type} (mk : K -> Event) (ks : list K) :
  forall c : Ctx,
    let c' := snd (forEach (fun k => bind (Add env (mk k)) (fun _ => ret tt)) ks c) in
    (exists calls,
       trace c' = trace c ++ calls /\ offers calls = map mk ks /\ cacheReads calls = []) /\
    failed c' = failed c /\ inProgress c' = inProgress c /\
    resultCache c' = resultCache c /\ clock c' = clock c.
Proof.
  induction ks as [|k ks IH]; intros c.
  - cbn. split; [|done]. exists []. by rewrite app_nil_r.
  - cbn [forEach]. rewrite run_bind, Add_then_ret.
    match goal with |- context [forEach _ ks ?c1] =>
      destruct (IH c1) as ((calls & Ht & Ho & Hr) & Hf & Hi & Hc & Hk) end.
    cbv zeta in *. rewrite Hf, Hi, Hc, Hk.
    destruct (Nat.ltb_spec (length (pipeline c)) (queueCapacity env)) as [Hlt|Hge].
    + rewrite Add_accepted in * by done. split; [|done].
      exists ([Call_Add (mk k) true] ++ calls). rewrite Ht.
      cbn [snd trace with_trace with_pipeline].
      by rewrite <- app_assoc, offers_app, cacheReads_app, Ho, Hr.
    + rewrite Add_rejected in * by done. split; [|done].
      exists ([Call_Add (mk k) false] ++ calls). rewrite Ht.
      cbn [snd trace with_trace with_pipeline].
      by rewrite <- app_assoc, offers_app, cacheReads_app, Ho, Hr.
Qed.

Lemma triggerCacheRefreshForCG_calls (cgID : string) (c : Ctx) :
  exists calls,
    trace (snd (triggerCacheRefreshForCG env cgID c)) = trace c ++ calls /\
    offers calls = [] /\ cacheReads calls = [cgID].
Proof.
  unfold triggerCacheRefreshForCG, time_Now, readOutputHosts, resultCache_write,
    call, emit, bind, ret.
  destruct (negb _ || _); [by exists [Call_readOutputHosts cgID (clock c)]|].
  destruct (_ <? _); [by exists [Call_readOutputHosts cgID (clock c)]|].
  eexists [Call_readOutputHosts cgID (clock c); _]. cbn.
  by rewrite <- app_assoc.
Qed.

Lemma reconfigureConsumerGroup_calls (dstID reason reasonContext : string)
    (cgd : ConsumerGroupDescription) (c : Ctx) :
  exists calls,
    trace (snd (reconfigureConsumerGroup env dstID reason reasonContext cgd c)) =
      trace c ++ calls /\
    offers calls =
      (if servedGroup env dstID cgd
       then map (fun h => NewOutputHostNotificationEvent dstID (GetConsumerGroupUUID cgd)
                            h reason reasonContext NotificationType_CLIENT)
                (notifiedOutputHosts env dstID cgd)
       else []) /\
    cacheReads calls =
      (if servedGroup env dstID cgd then [GetConsumerGroupUUID cgd] else []).
Proof.
  unfold reconfigureConsumerGroup, servedGroup, notifiedOutputHosts.
  destruct (ConsumerGroupStatus_eqb (cgd_GetStatus cgd) ConsumerGroupStatus_ENABLED);
    cbn [negb andb].
  2:{ exists []. by rewrite app_nil_r. }
  rewrite run_bind. unfold ListExtentsByConsumerGroup. rewrite call_run. cbn [fst snd].
  destruct (mm_ListExtentsByConsumerGroup env dstID (GetConsumerGroupUUID cgd) _)
    as [extents|e].
  2:{ by eexists [_]. }
  rewrite run_bind.
  match goal with |- context [forEach ?body ?ks ?c1] =>
    destruct (forEach_Add_calls
                (fun kv : string * unit =>
                   NewOutputHostNotificationEvent dstID (GetConsumerGroupUUID cgd) kv.1
                     reason reasonContext NotificationType_CLIENT) ks c1)
      as ((calls1 & Ht1 & Ho1 & Hr1) & _);
    set (c2 := snd (forEach body ks c1)) in * end.
  cbv zeta in Ht1. fold c2 in Ht1.
  destruct (triggerCacheRefreshForCG_calls (GetConsumerGroupUUID cgd) c2)
    as (calls2 & Ht2 & Ho2 & Hr2).
  eexists ([_] ++ calls1 ++ calls2). rewrite Ht2, Ht1. cbn [trace with_trace].
  split; [by rewrite <- !app_assoc|].
  rewrite !offers_app, !cacheReads_app, Ho1, Ho2, Hr1, Hr2, app_nil_r.
  split; [|done]. cbn [offers omap app]. by rewrite <- list_fmap_compose.
Qed.


Lemma reconfigureAllConsumers_calls
    (dstID extentID reason reasonContext : string) (c : Ctx) :
  let served :=
    filter (fun cgd => servedGroup env dstID cgd = true)
      (fst (mm_ListConsumerGroupsByDstID env dstID)) in
  let notify := fun cgd h =>
    NewOutputHostNotificationEvent dstID (GetConsumerGroupUUID cgd) h reason
      reasonContext NotificationType_CLIENT in
  exists calls,
    trace (snd (reconfigureAllConsumers env dstID extentID reason reasonContext c)) =
      trace c ++ Call_ListConsumerGroupsByDstID dstID :: calls /\
    offers calls =
      flat_map (fun cgd => map (notify cgd) (notifiedOutputHosts env dstID cgd)) served /\
    cacheReads calls = map GetConsumerGroupUUID served.
Proof.
  intros served notify.
  assert (Hloop : forall groups c0,
    exists calls,
      trace (snd (forEach (reconfigureConsumerGroup env dstID reason reasonContext)
                    groups c0)) = trace c0 ++ calls /\
      offers calls =
        flat_map (fun cgd => map (notify cgd) (notifiedOutputHosts env dstID cgd))
          (filter (fun cgd => servedGroup env dstID cgd = true) groups) /\
      cacheReads calls =
        map GetConsumerGroupUUID
          (filter (fun cgd => servedGroup env dstID cgd = true) groups)).
  { induction groups as [|cgd groups IH]; intros c0.
    - exists []. by rewrite app_nil_r.
    - cbn [forEach]. rewrite run_bind.
      destruct (reconfigureConsumerGroup_calls dstID reason reasonContext cgd c0)
        as (calls1 & Ht1 & Ho1 & Hr1).
      destruct (IH (snd (reconfigureConsumerGroup env dstID reason reasonContext cgd c0)))
        as (calls2 & Ht2 & Ho2 & Hr2).
      exists (calls1 ++ calls2). rewrite Ht2, Ht1, <- app_assoc. split; [done|].
      rewrite offers_app, cacheReads_app, Ho1, Ho2, Hr1, Hr2, filter_cons.
      destruct (servedGroup env dstID cgd) eqn:E.
      + rewrite decide_True by done. done.
      + rewrite decide_False by done. done. }
  unfold reconfigureAllConsumers. rewrite run_bind.
  unfold ListConsumerGroupsByDstID. rewrite call_run. cbn [fst snd].
  match goal with |- context [forEach _ ?groups ?c1] =>
    destruct (Hloop groups c1) as (calls & Ht & Ho & Hr) end.
  exists calls. rewrite Ht. cbn [trace with_trace]. by rewrite <- app_assoc.
Qed.

Section MoreMapRange.

Hypothesis range_ok : range_visits_each_once env.


(** X15.  [ConsGroupUpdatedEvent.Handle] always returns nil.  It offers
    to the queue one OutputHostNotificationEvent of type ALL to the
    output host of the event and then one of type CLIENT to each other
    distinct output host of the OPEN extents of the consumer group,
    none when these cannot be listed; every one of them is offered,
    also after a rejection, and the queue takes those it has room for,
    oldest first.  Nothing but the queue is changed. *)
Theorem ConsGroupUpdatedEvent_Handle_notifies (event : ConsGroupUpdatedEvent) (c : Ctx) :
  let run := ConsGroupUpdatedEvent_Handle env event c in
  let listed :=
    match mm_ListExtentsByConsumerGroup env (cgu_dstID event) (cgu_consGroupID event)
            [ConsumerGroupExtentStatus_OPEN] with
    | inl cgExtents => map GetOutputHostUUID cgExtents
    | inr _ => []
    end in
  let notify := fun host type =>
    NewOutputHostNotificationEvent (cgu_dstID event) (cgu_consGroupID event) host
      notifyCGExtUpdated (cgu_extentID event) type in
  exists hosts,
    let offered :=
      notify (cgu_outputHostID event) NotificationType_ALL ::
      map (fun h => notify h NotificationType_CLIENT) hosts in
    fst run = None /\
    offers (trace (snd run)) = offers (trace c) ++ offered /\
    pipeline (snd run) =
      pipeline c ++ take (queueCapacity env - length (pipeline c)) offered /\
    NoDup hosts /\
    (forall h, h ∈ hosts <-> h <> cgu_outputHostID event /\ h ∈ listed) /\
    failed (snd run) = failed c /\ inProgress (snd run) = inProgress c /\
    resultCache (snd run) = resultCache c.
Proof.
  intros run listed notify.
  set (m := match mm_ListExtentsByConsumerGroup env (cgu_dstID event)
                    (cgu_consGroupID event) [ConsumerGroupExtentStatus_OPEN] with
            | inl cgExtents =>
              foldl (fun (m : gmap string bool) cge => <[GetOutputHostUUID cge := true]> m)
                (<[cgu_outputHostID event := true]> ∅) cgExtents
            | inr _ => <[cgu_outputHostID event := true]> ∅
            end).
  set (m' := delete (cgu_outputHostID event) m).
  assert (Hdom : forall h, h ∈ dom m' <-> h <> cgu_outputHostID event /\ h ∈ listed).
  { intros h. unfold m', m, listed. rewrite dom_delete_L, elem_of_difference,
      elem_of_singleton.
    destruct (mm_ListExtentsByConsumerGroup env _ _ _) as [cgExtents|e].
    - rewrite dom_foldl_insert, dom_insert_L, dom_empty_L, !elem_of_union,
        elem_of_singleton, elem_of_empty, elem_of_list_to_set. tauto.
    - rewrite dom_insert_L, dom_empty_L, elem_of_union, elem_of_singleton,
        elem_of_empty, elem_of_nil. tauto. }
  exists (rangeMap env m').*1. cbv zeta.
  assert (Hrun : run =
    (None,
     snd (forEach (fun kv : string * bool =>
                     bind (Add env (notify kv.1 NotificationType_CLIENT))
                          (fun _ => ret tt))
            (rangeMap env m')
            (snd (Add env (notify (cgu_outputHostID event) NotificationType_ALL)
                    (with_trace
                       (trace c ++
                        [Call_ListExtentsByConsumerGroup (cgu_dstID event)
                           (cgu_consGroupID event) [ConsumerGroupExtentStatus_OPEN]])
                       c)))))).
  { unfold run, ConsGroupUpdatedEvent_Handle. rewrite run_bind.
    unfold ListExtentsByConsumerGroup. rewrite call_run. cbn [fst snd].
    rewrite run_bind, run_bind. unfold ret at 1. cbn [fst snd].
    unfold m', m. by destruct (mm_ListExtentsByConsumerGroup env _ _ _). }
  rewrite Hrun. cbn [fst snd].
  match goal with |- context [forEach _ ?ks ?c1] =>
    destruct (forEach_Add_run env
                (fun kv : string * bool => notify kv.1 NotificationType_CLIENT)
                ks c1) as [Hp Ho];
    destruct (forEach_Add_calls
                (fun kv : string * bool => notify kv.1 NotificationType_CLIENT) ks c1)
      as (_ & Hf & Hi & Hc & _) end.
  cbv zeta in *. rewrite Hp, Ho, Hf, Hi, Hc. rewrite <- list_fmap_compose.
  change ((fun h => notify h NotificationType_CLIENT) ∘ fst)
    with (fun kv : string * bool => notify kv.1 NotificationType_CLIENT).
  split; [done|].
  assert (Hsplit :
    forall rest : list Event,
    let c1 := snd (Add env (notify (cgu_outputHostID event) NotificationType_ALL)
                     (with_trace
                        (trace c ++
                         [Call_ListExtentsByConsumerGroup (cgu_dstID event)
                            (cgu_consGroupID event) [ConsumerGroupExtentStatus_OPEN]])
                        c)) in
    offers (trace c1) =
      offers (trace c) ++ [notify (cgu_outputHostID event) NotificationType_ALL] /\
    pipeline c1 ++ take (queueCapacity env - length (pipeline c1)) rest =
      pipeline c ++ take (queueCapacity env - length (pipeline c))
                      (notify (cgu_outputHostID event) NotificationType_ALL :: rest) /\
    failed c1 = failed c /\ inProgress c1 = inProgress c /\
    resultCache c1 = resultCache c).
  { intros rest. cbv zeta.
    destruct (Nat.ltb_spec (length (pipeline c)) (queueCapacity env)) as [Hlt|Hge].
    - rewrite Add_accepted by done. cbn [snd trace pipeline with_trace with_pipeline
        failed inProgress resultCache].
      rewrite !offers_app. cbn [offers omap]. rewrite app_nil_r, length_app.
      cbn [length].
      replace (queueCapacity env - length (pipeline c))%nat
        with (S (queueCapacity env - (length (pipeline c) + 1)))%nat by lia.
      cbn [take]. by rewrite <- app_assoc.
    - rewrite Add_rejected by done. cbn [snd trace pipeline with_trace with_pipeline
        failed inProgress resultCache].
      rewrite !offers_app. cbn [offers omap]. rewrite app_nil_r.
      replace (queueCapacity env - length (pipeline c))%nat with 0%nat by lia.
      by rewrite !take_0. }
  destruct (Hsplit (map (fun kv : string * bool => notify kv.1 NotificationType_CLIENT)
                      (rangeMap env m')))
    as (Ho1 & Hp1 & Hf1 & Hi1 & Hc1).
  cbv zeta in *. rewrite Ho1, Hp1, Hf1, Hi1, Hc1. rewrite <- app_assoc.
  split; [done|]. split; [done|]. split; [by apply (rangeMap_NoDup env range_ok)|]. split; [|done].
  intros h. rewrite (rangeMap_keys env range_ok). apply Hdom.
Qed.

(** X16.  [ExtentCreatedEvent.Handle] when the OPEN extents of the
    destination cannot be listed and the queue has room for one event:
    the failure is not returned, the notification of type ALL to the
    input host of the event is enqueued, no other input host is
    notified, and the consumers are still reconfigured: the consumer
    groups of the destination are listed and only notifications to
    output hosts follow in the queue. *)
Theorem ExtentCreatedEvent_Handle_listing_fails
    (event : ExtentCreatedEvent) (c : Ctx) (e : error) :
  mm_ListExtentsByDstIDStatus env (ece_dstID event) [ExtentStatus_OPEN] = inr e ->
  (length (pipeline c) < queueCapacity env)%nat ->
  let run := ExtentCreatedEvent_Handle env event c in
  let notifyAll :=
    NewInputHostNotificationEvent (ece_dstID event) (ece_inHostID event)
      (ece_extentID event) (ece_storeIDs event) notifyExtentCreated (ece_extentID event)
      NotificationType_ALL in
  exists outs calls,
    fst run = None /\
    pipeline (snd run) = pipeline c ++ notifyAll :: outs /\
    Forall isOutputHostNotification outs /\
    trace (snd run) =
      trace c ++
      Call_ListExtentsByDstIDStatus (ece_dstID event) [ExtentStatus_OPEN] ::
      Call_Add notifyAll true ::
      Call_ListConsumerGroupsByDstID (ece_dstID event) :: calls.
Proof.
  intros Hlist Hroom run notifyAll.
  assert (Hnone : rangeMap env (delete (ece_inHostID event)
                    (<[ece_inHostID event := true]> (∅ : gmap string bool))) = []).
  { apply Permutation_nil_r. rewrite (rangeMap_Permutation env range_ok).
    by rewrite delete_insert_eq, delete_empty, map_to_list_empty. }
  unfold run, ExtentCreatedEvent_Handle. rewrite run_bind.
  unfold ListExtentsByDstIDStatus. rewrite call_run, Hlist. cbn [fst snd].
  rewrite run_bind, Add_accepted by (cbn; lia). cbn [fst snd negb].
  rewrite Hnone. cbn [forEach]. rewrite !run_bind. unfold ret. cbn [fst snd].
  match goal with |- context [reconfigureAllConsumers env ?d ?x ?r ?rc ?c1] =>
    set (c1' := c1);
    destruct (enqueuesOnly_reconfigureAllConsumers env d x r rc c1') as (outs & Hout & Fout)
  end.
  assert (Htr : exists calls,
    trace (snd (reconfigureAllConsumers env (ece_dstID event) (ece_extentID event)
                  notifyExtentCreated (ece_extentID event) c1')) =
    trace c1' ++ Call_ListConsumerGroupsByDstID (ece_dstID event) :: calls).
  { destruct (reconfigureAllConsumers_calls (ece_dstID event) (ece_extentID event)
                notifyExtentCreated (ece_extentID event) c1') as (calls & Ht & _).
    by exists calls. }
  destruct Htr as (calls & Ht).
  exists outs, calls. split; [done|]. rewrite Hout, Ht.
  unfold c1'. cbn [pipeline trace with_trace with_pipeline].
  rewrite <- !app_assoc. done.
Qed.

End MoreMapRange.
End MoreProperties.

(** ** The further properties on the small deployment *)

(** E1 goes down while it is recorded as failed and two events wait. *)
Lemma ExtentDownEvent_Handle_frame_witness :
  (4 <= 4)%nat /\
  exists r event' c',
    ExtentDownEvent_Handle (scenarioEnv 8 true) 4 (downE1 0)
      (scenarioCtx backlog {["E1"]} 1000 5000) = Some (r, event', c') /\
    pipeline c' = backlog /\
    inProgress c' = {["E1"]} /\
    resultCache c' = resultCache (scenarioCtx backlog {["E1"]} 1000 5000) /\
    (failed c' = {["E1"]} \/ failed c' = {["E1"]} ∖ {["E1"]}) /\
    exists calls, trace c' = [] ++ calls.
Proof.
  split; [lia|].
  exact (ExtentDownEvent_Handle_frame (scenarioEnv 8 true) 4 (downE1 0)
           (scenarioCtx backlog {["E1"]} 1000 5000) (le_n 4)).
Defined.

(** The rate limiter denies the token: the event stays in the
    sealExtent state for the retry. *)
Lemma ExtentDownEvent_Handle_result_witness :
  (4 <= 4)%nat /\
  ExtentDownEvent_Handle (scenarioEnv 8 false) 4 (downE1 0) (scenarioCtx [] ∅ 1000 5000) =
    Some (Some errRetryable, downE1 1,
          with_trace
            [Call_ReadExtentStats "D1" "E1";
             Call_ResolveUUID StoreServiceName "S1";
             Call_ResolveUUID StoreServiceName "S2";
             Call_ResolveUUID StoreServiceName "S3";
             Call_TryConsume 1]
            (scenarioCtx [] ∅ 1000 5000)) /\
  exists r event' c',
    ExtentDownEvent_Handle (scenarioEnv 8 false) 4 (downE1 0) (scenarioCtx [] ∅ 1000 5000) =
      Some (r, event', c') /\
    (r = None \/ r = Some errRetryable) /\
    (r = Some errRetryable ->
     ede_state event' = checkPreconditionState \/ ede_state event' = sealExtentState \/
     ede_state event' = updateMetadataState) /\
    ede_state (downE1 0) <= ede_state event' /\
    ede_dstID event' = "D1" /\ ede_extentID event' = "E1" /\ ede_sealSeq event' = 0.
Proof.
  split; [lia|]. split; [vm_compute; reflexivity|].
  exact (ExtentDownEvent_Handle_result (scenarioEnv 8 false) 4 (downE1 0)
           (scenarioCtx [] ∅ 1000 5000) (le_n 4)).
Defined.


(** A retry of the seal of E1, recorded as failed, goes through. *)
Lemma ExtentDownEvent_Handle_then_Done_witness :
  exists event' c',
    0 <= ede_state (downE1 1) <= 2 /\
    ExtentDownEvent_Handle (scenarioEnv 8 true) 4 (downE1 1)
      (scenarioCtx [] {["E1"; "E7"]} 1000 5000) = Some (None, event', c') /\
    ede_state event' = doneState /\
    (ede_extentID (downE1 1) ∉
       failed (snd (ExtentDownEvent_Done (scenarioEnv 8 true) event' None c'))) /\
    (ede_extentID (downE1 1) ∉
       inProgress (snd (ExtentDownEvent_Done (scenarioEnv 8 true) event' None c'))) /\
    forall fuel' c'',
      ExtentDownEvent_Handle (scenarioEnv 8 true) (S fuel') event' c'' =
        Some (None, event', c'').
Proof.
  destruct (ExtentDownEvent_Handle (scenarioEnv 8 true) 4 (downE1 1)
              (scenarioCtx [] {["E1"; "E7"]} 1000 5000)) as [[[r event'] c']|] eqn:Hrun;
    [|vm_compute in Hrun; discriminate].
  assert (Hr : r = None) by (vm_compute in Hrun; congruence).
  assert (Hd : ede_state event' = doneState).
  { vm_compute in Hrun. injection Hrun as _ <- _. reflexivity. }
  assert (Hs : 0 <= ede_state (downE1 1) <= 2) by (vm_compute; split; discriminate).
  subst r. exists event', c'. split; [exact Hs|]. split; [reflexivity|].
  split; [exact Hd|].
  exact (proj2 (ExtentDownEvent_Handle_then_Done (scenarioEnv 8 true) 4 (downE1 1) event'
                  (scenarioCtx [] {["E1"; "E7"]} 1000 5000) c' None Hs Hrun Hd)).
Defined.

(** The seal of E1: the clients of S1 and S2 are vended and released. *)
Lemma ExtentDownEvent_Handle_releases_clients_witness :
  (4 <= 4)%nat /\
  exists r event' c' calls,
    ExtentDownEvent_Handle (scenarioEnv 8 true) 4 (downE1 0) (scenarioCtx [] ∅ 1000 5000) =
      Some (r, event', c') /\
    trace c' = [] ++ calls /\
    clientsReleased calls = clientsVended (scenarioEnv 8 true) calls.
Proof.
  split; [lia|].
  exact (ExtentDownEvent_Handle_releases_clients (scenarioEnv 8 true) 4 (downE1 0)
           (scenarioCtx [] ∅ 1000 5000) (le_n 4)).
Defined.

(** The seal of E1 has failed while E7 is recorded as failed: E1 joins
    it, E7 stays, E1 is no longer in progress. *)
Lemma ExtentDownEvent_Done_failed_set_witness :
  failed (snd (ExtentDownEvent_Done (scenarioEnv 8 true) (downE1 1) (Some errRetryable)
                 (scenarioCtx [] {["E7"]} 1000 5000))) = {["E1"]} ∪ {["E7"]} /\
  ("E7" ∈ failed (snd (ExtentDownEvent_Done (scenarioEnv 8 true) (downE1 1)
                         (Some errRetryable) (scenarioCtx [] {["E7"]} 1000 5000))) <->
   "E7" ∈ ({["E7"]} : gset string)).
Proof.
  pose proof (ExtentDownEvent_Done_failed_set (scenarioEnv 8 true) (downE1 1)
                (Some errRetryable) (scenarioCtx [] {["E7"]} 1000 5000))
    as (Hother & _ & _ & _ & _ & _ & Hput & _).
  split.
  - apply Hput; [discriminate|]. vm_compute. discriminate.
  - refine (proj1 (Hother "E7" _)). discriminate.
Defined.

(** The entry of CG1 expires in 10 s: it is brought forward to now. *)
Lemma triggerCacheRefreshForCG_only_shortens_witness :
  int64_min <= clock (scenarioCtx [] ∅ 1000 (1000 + 10 * Second)) /\
  clock (scenarioCtx [] ∅ 1000 (1000 + 10 * Second)) + resultCacheRefreshMaxWaitTime
    <= int64_max /\
  (forall k, k <> "CG1" ->
     resultCache (snd (triggerCacheRefreshForCG (scenarioEnv 8 true) "CG1"
                         (scenarioCtx [] ∅ 1000 (1000 + 10 * Second)))) !! k =
     resultCache (scenarioCtx [] ∅ 1000 (1000 + 10 * Second)) !! k).
Proof.
  assert (Hlo : int64_min <= clock (scenarioCtx [] ∅ 1000 (1000 + 10 * Second))).
  { vm_compute. discriminate. }
  assert (Hhi : clock (scenarioCtx [] ∅ 1000 (1000 + 10 * Second)) +
                resultCacheRefreshMaxWaitTime <= int64_max).
  { vm_compute. discriminate. }
  split; [exact Hlo|]. split; [exact Hhi|].
  exact (proj1 (proj2 (proj2 (proj2
           (triggerCacheRefreshForCG_only_shortens (scenarioEnv 8 true) "CG1"
              (scenarioCtx [] ∅ 1000 (1000 + 10 * Second)) Hlo Hhi))))).
Defined.

(** S2 is out of sync for E1 and its seal times out; S3 does not
    resolve. *)
Lemma StoreExtentStatusOutOfSyncEvent_Handle_witness :
  StoreExtentStatusOutOfSyncEvent_Handle (scenarioEnv 8 true)
    (mkStoreExtentStatusOutOfSyncEvent "D1" "E1" "S2" ExtentStatus_SEALED)
    (scenarioCtx [] ∅ 1000 5000) =
    (None,
     with_inProgress ({["E1"]} ∖ {["E1"]})
       (with_trace
          [Call_ResolveUUID StoreServiceName "S2";
           Call_GetThriftStoreClient "10.0.0.2:4240" "S2";
           Call_store_SealExtent (mkStoreClient "10.0.0.2:4240" "S2")
             (mkSealExtentRequest "E1" None) sealExtentInitialCallTimeout
             sealExtentInitialRetryPolicy;
           Call_ReleaseThriftStoreClient "S2";
           Call_invalidateStoreExtentCache "S2" "E1"]
          (scenarioCtx [] ∅ 1000 5000))) /\
  StoreExtentStatusOutOfSyncEvent_Handle (scenarioEnv 8 true)
    (mkStoreExtentStatusOutOfSyncEvent "D1" "E1" "S3" ExtentStatus_SEALED)
    (scenarioCtx [] ∅ 1000 5000) =
    (Some errRetryable,
     with_trace [Call_ResolveUUID StoreServiceName "S3"] (scenarioCtx [] ∅ 1000 5000)).
Proof.
  split.
  - exact (proj1 (proj2 (StoreExtentStatusOutOfSyncEvent_Handle_correct (scenarioEnv 8 true)
                           (mkStoreExtentStatusOutOfSyncEvent "D1" "E1" "S2"
                              ExtentStatus_SEALED)
                           (scenarioCtx [] ∅ 1000 5000)) "10.0.0.2:4240" eq_refl)).
  - exact (proj1 (StoreExtentStatusOutOfSyncEvent_Handle_correct (scenarioEnv 8 true)
                    (mkStoreExtentStatusOutOfSyncEvent "D1" "E1" "S3" ExtentStatus_SEALED)
                    (scenarioCtx [] ∅ 1000 5000)) (otherError "unknown uuid") eq_refl).
Defined.

(** H1 is notified of E1; the notification times out and nil is
    returned all the same. *)
Lemma InputHostNotificationEvent_Handle_swallows_failures_witness :
  let event :=
    mkInputHostNotificationEvent "D1" "H1" "E1" ["S1"; "S2"; "S3"] notifyExtentCreated
      "E1" NotificationType_ALL in
  let run :=
    InputHostNotificationEvent_Handle (scenarioHostsEnv 8 true) scenarioAdmin event
      (scenarioCtx [] ∅ 1000 5000) in
  let req :=
    mkDestinationsUpdatedRequest (uuid_New scenarioAdmin)
      [mkDestinationUpdatedNotification "D1" NotificationType_ALL "E1"
         ["S1"; "S2"; "S3"]] in
  admin_DestinationsUpdated scenarioAdmin "10.0.1.1:4241" req thriftCallTimeout
    notificationRetryPolicy = Some (otherError "timeout") /\
  fst (fst run) = None /\
  AdminCall_DestinationsUpdated "10.0.1.1:4241" req thriftCallTimeout
    notificationRetryPolicy ∈ snd (fst run).
Proof.
  intros event run req. split; [reflexivity|].
  destruct (InputHostNotificationEvent_Handle_swallows_failures (scenarioHostsEnv 8 true)
              scenarioAdmin event (scenarioCtx [] ∅ 1000 5000)) as (Hnil & _ & Hsent & _).
  split; [exact Hnil|].
  apply Hsent. repeat split; reflexivity.
Defined.

(** O1 is notified for CG1. *)
Lemma OutputHostNotificationEvent_Handle_swallows_failures_witness :
  let event :=
    mkOutputHostNotificationEvent "D1" "CG1" "O1" notifyCGExtUpdated "E1"
      NotificationType_CLIENT in
  let run :=
    OutputHostNotificationEvent_Handle (scenarioHostsEnv 8 true) scenarioAdmin event
      (scenarioCtx [] ∅ 1000 5000) in
  let req :=
    mkConsumerGroupsUpdatedRequest (uuid_New scenarioAdmin)
      [mkConsumerGroupUpdatedNotification "CG1" NotificationType_CLIENT] in
  fst (fst run) = None /\
  AdminCall_ConsumerGroupsUpdated "10.0.2.1:4254" req thriftCallTimeout
    notificationRetryPolicy ∈ snd (fst run).
Proof.
  intros event run req.
  destruct (OutputHostNotificationEvent_Handle_swallows_failures (scenarioHostsEnv 8 true)
              scenarioAdmin event (scenarioCtx [] ∅ 1000 5000)) as (Hnil & _ & Hsent & _).
  split; [exact Hnil|].
  apply Hsent. repeat split; reflexivity.
Defined.

(** E3 is replicated from S1; ReplicateExtent times out on S2, after
    S4: three clients are held, none for S3. *)
Lemma RemoteZoneExtentCreatedEvent_Handle_keeps_clients_witness :
  rze_storeIDs remoteE3 = "S1" :: ["S4"; "S2"; "S3"] /\
  exists calls,
    snd (RemoteZoneExtentCreatedEvent_Handle (scenarioEnv 8 true) remoteE3
           (scenarioCtx [] ∅ 1000 5000)) =
      with_trace ([] ++ calls) (scenarioCtx [] ∅ 1000 5000) /\
    clientsReleased calls = [] /\
    clientsVended (scenarioEnv 8 true) calls `prefix_of` ["S1"; "S4"; "S2"; "S3"].
Proof.
  split; [reflexivity|].
  destruct (RemoteZoneExtentCreatedEvent_Handle_keeps_clients (scenarioEnv 8 true) remoteE3
              "S1" ["S4"; "S2"; "S3"] (scenarioCtx [] ∅ 1000 5000) eq_refl)
    as (calls & Hrun & Hrel & Hpre & _).
  exists calls. split; [exact Hrun|]. split; [exact Hrel|exact Hpre].
Defined.

(** The seal of E1 on S1, with and without a sequence number. *)
Lemma sealExtentOnStore_request_witness :
  clientFactory_GetThriftStoreClient (scenarioEnv 8 true) "10.0.0.1:4240" "S1" = None /\
  exists req timeout policy,
    sealExtentOnStore (scenarioEnv 8 true) "S1" "10.0.0.1:4240" "E1" (-1) true
      (scenarioCtx [] ∅ 1000 5000) =
      (store_SealExtent (scenarioEnv 8 true) (mkStoreClient "10.0.0.1:4240" "S1") req
         timeout policy,
       with_trace
         ([] ++
          [Call_GetThriftStoreClient "10.0.0.1:4240" "S1";
           Call_store_SealExtent (mkStoreClient "10.0.0.1:4240" "S1") req timeout policy;
           Call_ReleaseThriftStoreClient "S1"])
         (scenarioCtx [] ∅ 1000 5000)) /\
    seal_SequenceNumber req = None /\
    timeout = 20 * Second.
Proof.
  split; [reflexivity|].
  destruct (proj2 (sealExtentOnStore_request (scenarioEnv 8 true) "S1" "10.0.0.1:4240" "E1"
                     (-1) true (scenarioCtx [] ∅ 1000 5000)) eq_refl)
    as (req & timeout & policy & Hrun & _ & Hnone & _ & _ & Hretry).
  exists req, timeout, policy. split; [exact Hrun|]. split.
  - apply Hnone. discriminate.
  - exact (proj1 (Hretry eq_refl)).
Defined.

(** E1 is created on H1 while the queue is full. *)
Lemma ExtentCreatedEvent_Handle_only_notifies_witness :
  fst (ExtentCreatedEvent_Handle (scenarioEnv 2 true) createdE1
         (scenarioCtx backlog {["E7"]} 1000 5000)) = None /\
  failed (snd (ExtentCreatedEvent_Handle (scenarioEnv 2 true) createdE1
                 (scenarioCtx backlog {["E7"]} 1000 5000))) = {["E7"]} /\
  inProgress (snd (ExtentCreatedEvent_Handle (scenarioEnv 2 true) createdE1
                     (scenarioCtx backlog {["E7"]} 1000 5000))) = {["E1"]}.
Proof.
  destruct (ExtentCreatedEvent_Handle_only_notifies (scenarioEnv 2 true) createdE1
              (scenarioCtx backlog {["E7"]} 1000 5000)) as (Hnil & _ & Hf & Hi).
  split; [exact Hnil|]. split; [exact Hf|exact Hi].
Defined.


(** CG1 gets an extent on O2 while O1 serves it, and one slot is left
    in the queue: O2 gets the ALL notification, the CLIENT notification
    to O1 is offered and dropped. *)
Lemma ConsGroupUpdatedEvent_Handle_notifies_witness :
  range_visits_each_once (scenarioEnv 3 true) /\
  exists hosts,
    let notify := fun host type =>
      NewOutputHostNotificationEvent "D1" "CG1" host notifyCGExtUpdated "E2" type in
    (forall h, h ∈ hosts <-> h <> "O2" /\ h ∈ ["O1"]) /\
    offers (trace (snd (ConsGroupUpdatedEvent_Handle (scenarioEnv 3 true)
                          (mkConsGroupUpdatedEvent "D1" "CG1" "E2" "O2")
                          (scenarioCtx backlog ∅ 1000 5000)))) =
      [] ++ notify "O2" NotificationType_ALL ::
      map (fun h => notify h NotificationType_CLIENT) hosts /\
    pipeline (snd (ConsGroupUpdatedEvent_Handle (scenarioEnv 3 true)
                     (mkConsGroupUpdatedEvent "D1" "CG1" "E2" "O2")
                     (scenarioCtx backlog ∅ 1000 5000))) =
      backlog ++
      take 1 (notify "O2" NotificationType_ALL ::
              map (fun h => notify h NotificationType_CLIENT) hosts).
Proof.
  split; [exact (scenario_range_ok 3 true)|].
  destruct (ConsGroupUpdatedEvent_Handle_notifies (scenarioEnv 3 true)
              (scenario_range_ok 3 true) (mkConsGroupUpdatedEvent "D1" "CG1" "E2" "O2")
              (scenarioCtx backlog ∅ 1000 5000))
    as (hosts & _ & Ho & Hp & _ & Hin & _).
  exists hosts. split; [exact Hin|]. split; [exact Ho|exact Hp].
Defined.

(** An extent of D2, whose extents cannot be listed, is created on H3. *)
Lemma ExtentCreatedEvent_Handle_listing_fails_witness :
  range_visits_each_once (scenarioEnv 8 true) /\
  mm_ListExtentsByDstIDStatus (scenarioEnv 8 true) "D2" [ExtentStatus_OPEN] =
    inr (otherError "metadata unavailable") /\
  (length (pipeline (scenarioCtx backlog ∅ 1000 5000)) < 8)%nat /\
  exists outs calls,
    fst (ExtentCreatedEvent_Handle (scenarioEnv 8 true)
           (mkExtentCreatedEvent "D2" "H3" "E9" ["S1"; "S2"])
           (scenarioCtx backlog ∅ 1000 5000)) = None /\
    pipeline (snd (ExtentCreatedEvent_Handle (scenarioEnv 8 true)
                     (mkExtentCreatedEvent "D2" "H3" "E9" ["S1"; "S2"])
                     (scenarioCtx backlog ∅ 1000 5000))) =
      backlog ++
      NewInputHostNotificationEvent "D2" "H3" "E9" ["S1"; "S2"] notifyExtentCreated "E9"
        NotificationType_ALL :: outs /\
    Forall isOutputHostNotification outs /\
    trace (snd (ExtentCreatedEvent_Handle (scenarioEnv 8 true)
                  (mkExtentCreatedEvent "D2" "H3" "E9" ["S1"; "S2"])
                  (scenarioCtx backlog ∅ 1000 5000))) =
      [] ++
      Call_ListExtentsByDstIDStatus "D2" [ExtentStatus_OPEN] ::
      Call_Add (NewInputHostNotificationEvent "D2" "H3" "E9" ["S1"; "S2"]
                  notifyExtentCreated "E9" NotificationType_ALL) true ::
      Call_ListConsumerGroupsByDstID "D2" :: calls.
Proof.
  assert (Hroom : (length (pipeline (scenarioCtx backlog ∅ 1000 5000)) < 8)%nat).
  { vm_compute. lia. }
  split; [exact (scenario_range_ok 8 true)|]. split; [reflexivity|].
  split; [exact Hroom|].
  exact (ExtentCreatedEvent_Handle_listing_fails (scenarioEnv 8 true)
           (scenario_range_ok 8 true) (mkExtentCreatedEvent "D2" "H3" "E9" ["S1"; "S2"])
           (scenarioCtx backlog ∅ 1000 5000) (otherError "metadata unavailable")
           eq_refl Hroom).
Defined.
